(** * Poker backend: Monte Carlo decision engine, connection registry and
      session coordinator

    A shallow embedding of
    - [backend/poker_engine/monte_carlo_ai.py] (class [MonteCarloAI]),
    - [backend/ws_manager.py] (classes [ConnectionState], [ConnectionManager]),
    - [backend/main.py] (lobby countdown, seat management, action handler),
    with the properties of these functions stated and proved.

    Conventions.
    - Python exceptions are values of [PyExc]; a computation that may raise
      has type [Res A].
    - Python's random source is an explicit argument (shuffles, the index
      drawn by [random.choice], the number drawn by [random.random]).
    - The win rate, a quotient of two counts of simulation rounds, and
      the literals 0.7, 0.45, 0.05, 0.1, 0.2 it is compared with are taken
      as exact rationals ([Q]). The product [pot * 0.4], whose operand is
      an arbitrary int of the state, is computed as the code computes it,
      in binary floating point with one rounding.
    - Code imported by these files but absent from them
      ([poker_engine.utils.eval_hand], [poker_engine.card.Deck],
      [poker_engine.poker_engine_api.PokerGame]) is a [Section] variable;
      concrete instances used to evaluate the code on examples are
      introduced separately and documented as such. *)

From Stdlib Require Import ZArith QArith Ascii String List Lia.
From stdpp Require Import gmap strings list.

Open Scope Z_scope.

(** ** Python runtime: exceptions and results *)

Inductive PyExc : Type :=
  | IndexError
  | KeyError
  | TypeError
  | ZeroDivisionError
  | OverflowError.

Inductive Res (A : Type) : Type :=
  | Ok (a : A)
  | Raise (e : PyExc).
Arguments Ok {A} a.
Arguments Raise {A} e.

Definition bind {A B : Type} (r : Res A) (k : A -> Res B) : Res B :=
  match r with
  | Ok a => k a
  | Raise e => Raise e
  end.

Notation "'let*' x ':=' r 'in' k" := (bind r (fun x => k))
  (at level 10, x pattern, r at level 100, k at level 200).

Fixpoint mapR {A B : Type} (f : A -> Res B) (l : list A) : Res (list B) :=
  match l with
  | [] => Ok []
  | a :: l' =>
      let* b := f a in
      let* bs := mapR f l' in
      Ok (b :: bs)
  end.

(** [l[i]] for a Python list and a Python int: negative indices count from
    the end, anything else out of range raises [IndexError]. *)
Definition py_index {A : Type} (l : list A) (i : Z) : Res A :=
  let n := Z.of_nat (length l) in
  let j := if i <? 0 then i + n else i in
  if (0 <=? j) && (j <? n) then
    match l !! Z.to_nat j with
    | Some a => Ok a
    | None => Raise IndexError
    end
  else Raise IndexError.

(** Strict comparison of rationals as a boolean. *)
Definition Qgtb (a b : Q) : bool := negb (Qle_bool a b).

(** ** Binary floating point *)

(** The multiple of [2 ^ s] nearest to [n], the even one of two that are
    equally near; [s] is at least 1. *)
Definition round_to (s n : Z) : Z :=
  let q := n / 2 ^ s in
  let r := n mod 2 ^ s in
  let h := 2 ^ (s - 1) in
  if r <? h then q * 2 ^ s
  else if h <? r then (q + 1) * 2 ^ s
  else (if Z.even q then q else q + 1) * 2 ^ s.

(** [n] rounded to 53 significant bits, to nearest, ties to even: the
    rounding of a double, applied to an integer significand. *)
Definition round53 (n : Z) : Z :=
  let s := Z.log2 (Z.abs n) - 52 in
  if s <=? 0 then n else round_to s n.

(** The conversion of a Python int to a double ([PyLong_AsDouble]): the
    nearest double, [OverflowError] when that is not finite. *)
Definition float_of_int (n : Z) : Res Z :=
  let x := round53 n in
  if 2 ^ 1024 <=? Z.abs x then Raise OverflowError else Ok x.

(** The double that the literal [0.4] denotes is
    [3602879701896397 / 2 ^ 53]. *)
Definition literal_0_4 : Z := 3602879701896397.

(** ** Cards *)

Record Card : Type := mkCard { rank : string; suit : string }.

Global Instance Card_eq_dec : EqDecision Card.
Proof. solve_decision. Defined.

(** [card_str[:-1]] and [card_str[-1]]. *)
Fixpoint but_last (s : string) : string :=
  match s with
  | EmptyString => EmptyString
  | String a EmptyString => EmptyString
  | String a s' => String a (but_last s')
  end.

Fixpoint last_char (s : string) : option ascii :=
  match s with
  | EmptyString => None
  | String a EmptyString => Some a
  | String a s' => last_char s'
  end.

(** [MonteCarloAI._parse_card] on a string such as ["2h"]: the suit is the
    last character, the rank everything before it. Indexing the empty
    string raises. *)
Definition _parse_card (card_str : string) : Res Card :=
  match last_char card_str with
  | Some c => Ok (mkCard (but_last card_str) (String c EmptyString))
  | None => Raise IndexError
  end.

(** Modelled from the spec: [Deck.deal] ([poker_engine/card.py] is not among
    the sources). Section 3: a deck is "consumable via draw (removes and
    returns)" and an "exhausted deck is a fatal precondition violation".
    The first [n] cards are returned together with the rest of the deck. *)
Definition deal (n : nat) (cards : list Card) : Res (list Card * list Card) :=
  if decide (n <= length cards)%nat
  then Ok (take n cards, drop n cards)
  else Raise IndexError.

(** ** monte_carlo_ai.py *)

Module MonteCarlo.

(** *** Data *)

(** One entry of [state["players"]]: the keys [decide] reads. A missing
    ["hand"] reads as the empty list ([bot.get("hand", [])]). *)
Record PlayerView : Type := mkPlayerView {
  pv_name : string;
  pv_hand : list string
}.

(** The observable state handed to [decide]: the keys it reads, each
    with the default [state.get] gives it when the key is missing. *)
Record State : Type := mkState {
  legal_actions : list string;
  players : list PlayerView;
  community_cards : list string;
  pot : Z;
  to_call : Z
}.

(** The dictionary [decide] returns. *)
Record Decision : Type := mkDecision { move : string; raise_amount : Z }.

(** The attributes set by [MonteCarloAI.__init__]. *)
Record AI : Type := mkAI {
  name : string;
  difficulty : string;
  simulations : Z
}.

(** The random draws of one call of [decide]. *)
Record Rng : Type := mkRng {
  shuffles : nat -> list Card -> list Card;
  choice : nat;
  random : Q
}.

(** [random.choice([30, 70, 150])] *)
Definition raise_menu : list Z := [30; 70; 150].

Definition random_choice (i : nat) : Z :=
  default 30 (raise_menu !! (i mod length raise_menu)%nat).

(** [{"easy": 0.05, "medium": 0.1, "hard": 0.2}[self.difficulty]] *)
Definition bluff_chance (d : string) : Res Q :=
  if decide (d = "easy") then Ok (5 # 100)%Q
  else if decide (d = "medium") then Ok (1 # 10)%Q
  else if decide (d = "hard") then Ok (2 # 10)%Q
  else Raise KeyError.

Definition legal (a : string) (actions : list string) : bool :=
  bool_decide (a ∈ actions).

(** [to_call < pot * 0.4] on two ints. [pot] is converted to a double,
    the product with the double [0.4] is rounded once, and the int
    [to_call] is compared with the exact value of that double. The double
    is kept as its numerator over [2 ^ 53]; the product of a non-zero
    integer and [0.4] is neither subnormal nor beyond the largest
    double. *)
Definition below_pot_share (to_call pot : Z) : Res bool :=
  let* x := float_of_int pot in
  Ok (to_call * 2 ^ 53 <? round53 (x * literal_0_4)).

Section Estimator.

(** The tie-break key returned by [eval_hand] as second component. *)
Variable Key : Type.

(** [poker_engine.utils.eval_hand]: a numeric category (the heuristic
    player divides it by [10.0]) and a tie-break key. *)
Variable eval_hand : list Card -> Z * Key.

(** The cards of a fresh [Deck()]. *)
Variable new_deck : list Card.

(** [while len(sim_community) < 5: sim_community += sim_deck.deal(1)].
    Every round adds one card, so the loop runs [5 - len] rounds; the
    count of remaining rounds is the structural argument. *)
Fixpoint fill_board (rounds : nat) (sim_community sim_deck : list Card)
  : Res (list Card * list Card) :=
  match rounds with
  | O => Ok (sim_community, sim_deck)
  | S k =>
      let* (c, d) := deal 1 sim_deck in
      fill_board k (sim_community ++ c) d
  end.

(** [for _ in range(opponents): opp_hands.append(sim_deck.deal(2))] *)
Fixpoint deal_opponents (opponents : nat) (sim_deck : list Card)
  : Res (list (list Card) * list Card) :=
  match opponents with
  | O => Ok ([], sim_deck)
  | S k =>
      let* (h, d) := deal 2 sim_deck in
      let* (hs, d') := deal_opponents k d in
      Ok (h :: hs, d')
  end.

(** The cards one trial draws from its shuffled deck: the completed
    board and the opponents' hands. [range(opponents)] is empty for a
    negative count. *)
Definition sim_deal (community : list Card) (opponents : Z)
    (sim_deck : list Card) : Res (list Card * list (list Card)) :=
  let* (sim_community, d) :=
    fill_board (5 - length community)%nat community sim_deck in
  let* (opp_hands, _) := deal_opponents (Z.to_nat opponents) d in
  Ok (sim_community, opp_hands).

(** [rank, _ = eval_hand(...)]: the key is dropped. *)
Definition rank_of (cards : list Card) : Z := fst (eval_hand cards).

(** The loop over [opp_hands] that keeps the largest rank, starting from
    [None]. *)
Definition best_opp_step (sim_community : list Card)
    (best_opp_rank : option Z) (opp_hand : list Card) : option Z :=
  let r := rank_of (opp_hand ++ sim_community) in
  match best_opp_rank with
  | None => Some r
  | Some b => if r >? b then Some r else Some b
  end.

Definition best_opp (sim_community : list Card)
    (opp_hands : list (list Card)) : option Z :=
  fold_left (best_opp_step sim_community) opp_hands None.

(** [if best_opp_rank is None or our_rank >= best_opp_rank: wins += 1] *)
Definition is_win (hand sim_community : list Card)
    (opp_hands : list (list Card)) : bool :=
  match best_opp sim_community opp_hands with
  | None => true
  | Some b => rank_of (hand ++ sim_community) >=? b
  end.

(** One round of the simulation loop, on the deck as shuffled for it. *)
Definition trial (hand community : list Card) (opponents : Z)
    (sim_deck : list Card) : Res bool :=
  let* (sim_community, opp_hands) := sim_deal community opponents sim_deck in
  Ok (is_win hand sim_community opp_hands).

(** [for _ in range(self.simulations)], with [shuffles i] the effect of
    [random.shuffle] in round [i]. *)
Fixpoint run_trials (shuffles : nat -> list Card -> list Card)
    (hand community : list Card) (opponents : Z) (deck : list Card)
    (rounds i : nat) (wins : Z) : Res Z :=
  match rounds with
  | O => Ok wins
  | S k =>
      let* w := trial hand community opponents (shuffles i deck) in
      run_trials shuffles hand community opponents deck k (S i)
        (if w then wins + 1 else wins)
  end.

(** [MonteCarloAI.estWin]. The cards of the observable state are
    strings, so both [isinstance(..., str)] tests succeed whenever the
    list they look at is non-empty. *)
Definition estWin (simulations : Z)
    (shuffles : nat -> list Card -> list Card)
    (hand community : list string) (opponents : Z) : Res Q :=
  match hand with
  | [] => Ok 0%Q
  | _ =>
      let* hand' := mapR _parse_card hand in
      let* community' := mapR _parse_card community in
      let used_cards := hand' ++ community' in
      let deck :=
        filter (fun c => c ∉ used_cards) new_deck in
      let* wins := run_trials shuffles hand' community' opponents deck
                (Z.to_nat simulations) 0%nat 0 in
      if simulations =? 0 then Raise ZeroDivisionError
      else Ok (inject_Z wins / inject_Z simulations)%Q
  end.

(** *** The decision *)

(** [MonteCarloAI.decide]. [Ok None] is the Python value [None] a
    function gives back when it runs off its end. *)
Definition decide (self : AI) (rng : Rng) (state : State)
  : Res (option Decision) :=
  let actions := legal_actions state in
  match actions with
  | [] => Ok (Some (mkDecision "check" 0))
  | _ =>
    match List.find (fun p => bool_decide (pv_name p = name self))
                    (players state) with
    | None => Ok (Some (mkDecision "fold" 0))
    | Some bot =>
      let hand := pv_hand bot in
      let community := community_cards state in
      let* win_prob :=
        estWin (simulations self) (shuffles rng) hand community
               (Z.of_nat (length (players state)) - 1) in
      if Qgtb win_prob (7 # 10) then
        if legal "raise" actions then
          Ok (Some (mkDecision "raise" (random_choice (choice rng))))
        else if legal "call" actions then
          Ok (Some (mkDecision "call" 0))
        else Ok None
      else if Qgtb win_prob (45 # 100) then
        let* cheap :=
          if legal "call" actions
          then below_pot_share (to_call state) (pot state)
          else Ok false in
        if cheap then Ok (Some (mkDecision "call" 0))
        else if legal "check" actions then
          Ok (Some (mkDecision "check" 0))
        else Ok (Some (mkDecision "fold" 0))
      else
        let* chance := bluff_chance (difficulty self) in
        if legal "raise" actions && Qgtb chance (random rng) then
          Ok (Some (mkDecision "raise" 30))
        else if legal "check" actions then
          Ok (Some (mkDecision "check" 0))
        else Ok (Some (mkDecision "fold" 0))
    end
  end.

End Estimator.

Arguments trial {Key} eval_hand hand community opponents sim_deck.
Arguments is_win {Key} eval_hand hand sim_community opp_hands.
Arguments best_opp {Key} eval_hand sim_community opp_hands.
Arguments rank_of {Key} eval_hand cards.
Arguments best_opp_step {Key} eval_hand sim_community best_opp_rank opp_hand.
Arguments sim_deal community opponents sim_deck : assert.
Arguments run_trials {Key} eval_hand shuffles hand community opponents deck rounds i wins.
Arguments estWin {Key} eval_hand new_deck simulations shuffles hand community opponents.
Arguments decide {Key} eval_hand new_deck self rng state.

End MonteCarlo.

(** ** Instances of the absent card library, for running the code

    [eval_hand] and [Deck] are parameters of everything above. To run the
    estimator on concrete cards an instance of each is needed. *)

Module SpecModel.

(** Modelled from the spec: the 52 cards of [Deck()] ([poker_engine/card.py]
    is not among the sources). Section 3: "rank (2..10,J,Q,K,A) + suit (4
    values)", "ordered sequence of the 52 unique Cards". Suits are written
    as in the docstring of [_parse_card] (['2h']). *)
Definition ranks : list string :=
  ["2"; "3"; "4"; "5"; "6"; "7"; "8"; "9"; "10"; "J"; "Q"; "K"; "A"].

Definition suits : list string := ["h"; "d"; "c"; "s"].

Definition new_deck : list Card :=
  s ← suits; r ← ranks; [mkCard r s].

(** The value of a rank: the table [high_card_values] of
    [heuristic_ai.py], with its default [0]. *)
Definition rank_value (r : string) : Z :=
  default 0
    (list_to_map (M := gmap string Z)
       [("2", 2); ("3", 3); ("4", 4); ("5", 5); ("6", 6); ("7", 7);
        ("8", 8); ("9", 9); ("10", 10); ("J", 11); ("Q", 12); ("K", 13);
        ("A", 14)] !! r).

(** Sorting, largest first. *)
Fixpoint insert_desc {A : Type} (leb : A -> A -> bool) (x : A) (l : list A)
  : list A :=
  match l with
  | [] => [x]
  | y :: l' => if leb y x then x :: l else y :: insert_desc leb x l'
  end.

Definition sort_desc {A : Type} (leb : A -> A -> bool) (l : list A) : list A :=
  foldr (insert_desc leb) [] l.

(** The order of keys: "kicker ranks, in descending significance". *)
Fixpoint key_leb (k1 k2 : list Z) : bool :=
  match k1, k2 with
  | [], _ => true
  | _ :: _, [] => false
  | a :: k1', b :: k2' => (a <? b) || ((a =? b) && key_leb k1' k2')
  end.

(** The order of evaluations: category first, then key. *)
Definition eval_leb (e1 e2 : Z * list Z) : bool :=
  (fst e1 <? fst e2) || ((fst e1 =? fst e2) && key_leb (snd e1) (snd e2)).

(** The values of a hand grouped by multiplicity: pairs (count, value),
    most frequent first and, among equally frequent, highest first. *)
Definition groups (vals : list Z) : list (Z * Z) :=
  sort_desc (fun a b => (fst a <? fst b) || ((fst a =? fst b) && (snd a <=? snd b)))
    (map (fun v => (Z.of_nat (length (filter (fun w => w = v) vals)), v))
         (remove_dups vals)).

(** The top value of a straight among five sorted values, the wheel
    A-2-3-4-5 counting as five-high. *)
Definition straight_high (sorted : list Z) : option Z :=
  match sorted with
  | [a; b; c; d; e] =>
      if (a =? b + 1) && (b =? c + 1) && (c =? d + 1) && (d =? e + 1)
      then Some a
      else if bool_decide (sorted = [14; 5; 4; 3; 2]) then Some 5
      else None
  | _ => None
  end.

Definition is_flush (cards : list Card) : bool :=
  match cards with
  | [] => false
  | c :: cs => forallb (fun c' => bool_decide (suit c' = suit c)) cs
  end.

(** Modelled from the spec: the category and key of exactly five cards.
    The categories are ordered worst to best in section 4.1: high-card,
    pair, two-pair, three-of-a-kind, straight, flush, full-house,
    four-of-a-kind, straight-flush; they are numbered 1 to 9. *)
Definition classify5 (cards : list Card) : Z * list Z :=
  let vals := map (fun c => rank_value (rank c)) cards in
  let sorted := sort_desc Z.leb vals in
  let g := groups vals in
  let key := map snd g in
  match straight_high sorted, is_flush cards with
  | Some h, true => (9, [h])
  | Some h, false => (5, [h])
  | None, fl =>
      match map fst g with
      | 4 :: _ => (8, key)
      | 3 :: 2 :: _ => (7, key)
      | 3 :: _ => if fl then (6, sorted) else (4, key)
      | 2 :: 2 :: _ => if fl then (6, sorted) else (3, key)
      | 2 :: _ => if fl then (6, sorted) else (2, key)
      | _ => if fl then (6, sorted) else (1, key)
      end
  end.

(** All ways of picking [k] elements, in order. *)
Fixpoint choose {A : Type} (k : nat) (l : list A) : list (list A) :=
  match l with
  | [] => match k with O => [[]] | S _ => [] end
  | x :: l' =>
      match k with
      | O => [[]]
      | S k' => map (cons x) (choose k' l') ++ choose k l'
      end
  end.

(** Modelled from the spec: [poker_engine.utils.eval_hand]
    ([poker_engine/utils.py] is not among the sources). Section 4.1: the
    "best achievable category" over the five-card combinations of the
    input "plus a tie-break key sufficient to order two hands of the same
    category"; fewer than five cards give the "indeterminate" result,
    written [(0, [])]. *)
Definition eval_hand (cards : list Card) : Z * list Z :=
  foldr (fun five best =>
           let e := classify5 five in
           if eval_leb e best then best else e)
        (0, []) (choose 5 cards).

End SpecModel.

(** ** ws_manager.py *)

Module Registry.

(** A [WebSocket] object, known by its identity. *)
Definition WebSocket : Type := nat.

(** A [ConnectionState] object, known by its identity. The same object is
    held by [game_connections] and by [ws_to_state], and
    [upgrade_to_player] mutates it in place, so the objects live in a
    store and the two dictionaries hold references. *)
Definition ConnRef : Type := nat.

(** The attributes of [ConnectionState]; [connection_id] holds the number
    [n] of the string [f"conn_{n}"]. *)
Record ConnectionState : Type := mkConnectionState {
  ws : WebSocket;
  connection_id : nat;
  role : string;
  player_name : option string;
  game_id : option string;
  seat_index : option Z
}.

(** The attributes of [ConnectionManager], with the store of the
    [ConnectionState] objects it created. *)
Record ConnectionManager : Type := mkConnectionManager {
  objects : gmap ConnRef ConnectionState;
  game_connections : gmap string (list ConnRef);
  ws_to_state : gmap WebSocket ConnRef;
  connection_counter : nat
}.

(** [ConnectionManager()] *)
Definition init : ConnectionManager := mkConnectionManager ∅ ∅ ∅ 0.

(** [ConnectionState.upgrade_to_player] *)
Definition upgrade_to_player (self : ConnectionState) (name : string)
    (seat : Z) : ConnectionState :=
  mkConnectionState (ws self) (connection_id self) "player" (Some name)
    (game_id self) (Some seat).

(** [ConnectionState.downgrade_to_spectator] *)
Definition downgrade_to_spectator (self : ConnectionState) : ConnectionState :=
  mkConnectionState (ws self) (connection_id self) "spectator" None
    (game_id self) None.

(** [ConnectionState.is_player] *)
Definition is_player (self : ConnectionState) : bool :=
  bool_decide (role self = "player") && bool_decide (player_name self ≠ None).

(** [ConnectionState.can_see_private_cards] *)
Definition can_see_private_cards (self : ConnectionState) (seat : Z) : bool :=
  is_player self && bool_decide (seat_index self = Some seat).

(** [ConnectionManager.connect], after [websocket.accept()] has returned.
    The new object is stored under the new value of the counter. *)
Definition connect (self : ConnectionManager) (gid : string)
    (websocket : WebSocket) : ConnRef * ConnectionManager :=
  let n := S (connection_counter self) in
  let conn_state :=
    mkConnectionState websocket n "spectator" None (Some gid) None in
  let conns := default [] (game_connections self !! gid) in
  (n, mkConnectionManager
        (<[n := conn_state]> (objects self))
        (<[gid := conns ++ [n]]> (game_connections self))
        (<[websocket := n]> (ws_to_state self))
        n).

(** [list.remove]: drops the first occurrence. *)
Fixpoint list_remove (c : ConnRef) (l : list ConnRef) : list ConnRef :=
  match l with
  | [] => []
  | x :: l' => if decide (x = c) then l' else x :: list_remove c l'
  end.

(** [ConnectionManager.disconnect] *)
Definition disconnect (self : ConnectionManager) (gid : string)
    (websocket : WebSocket) : ConnectionManager :=
  match ws_to_state self !! websocket with
  | None => self
  | Some conn_state =>
      let gc :=
        match game_connections self !! gid with
        | Some conns =>
            if bool_decide (conn_state ∈ conns)
            then <[gid := list_remove conn_state conns]> (game_connections self)
            else game_connections self
        | None => game_connections self
        end in
      mkConnectionManager (objects self) gc
        (delete websocket (ws_to_state self)) (connection_counter self)
  end.

(** [ConnectionManager.get_connection_state] *)
Definition get_connection_state (self : ConnectionManager)
    (websocket : WebSocket) : option ConnectionState :=
  r ← ws_to_state self !! websocket; objects self !! r.

(** [ConnectionManager.upgrade_connection_to_player] *)
Definition upgrade_connection_to_player (self : ConnectionManager)
    (websocket : WebSocket) (name : string) (seat : Z)
  : bool * ConnectionManager :=
  match ws_to_state self !! websocket with
  | None => (false, self)
  | Some r =>
      (true,
       mkConnectionManager
         (alter (fun c => upgrade_to_player c name seat) r (objects self))
         (game_connections self) (ws_to_state self)
         (connection_counter self))
  end.

(** The two upgrade methods on whatever the endpoint hands them. The
    annotations of the source say [str] and [int], but the endpoint passes
    [data.get("player_name")] and [data.get("seat_index")], which are
    [None] for a message without the key, and the methods store what they
    are given. [upgrade_to_player] and [upgrade_connection_to_player]
    above are these methods called with both values present. *)
Module Untyped.

(** [ConnectionState.upgrade_to_player] *)
Definition upgrade_to_player (self : ConnectionState) (name : option string)
    (seat : option Z) : ConnectionState :=
  mkConnectionState (ws self) (connection_id self) "player" name
    (game_id self) seat.

(** [ConnectionManager.upgrade_connection_to_player] *)
Definition upgrade_connection_to_player (self : ConnectionManager)
    (websocket : WebSocket) (name : option string) (seat : option Z)
  : bool * ConnectionManager :=
  match ws_to_state self !! websocket with
  | None => (false, self)
  | Some r =>
      (true,
       mkConnectionManager
         (alter (fun c => upgrade_to_player c name seat) r (objects self))
         (game_connections self) (ws_to_state self)
         (connection_counter self))
  end.

End Untyped.

(** [ConnectionManager.downgrade_connection_to_spectator] *)
Definition downgrade_connection_to_spectator (self : ConnectionManager)
    (websocket : WebSocket) : bool * ConnectionManager :=
  match ws_to_state self !! websocket with
  | None => (false, self)
  | Some r =>
      (true,
       mkConnectionManager
         (alter downgrade_to_spectator r (objects self))
         (game_connections self) (ws_to_state self)
         (connection_counter self))
  end.

Section Broadcast.

(** The game object and the snapshot its [get_game_state] builds for a
    viewer; building it may raise. *)
Variable Game : Type.
Variable Snapshot : Type.
Variable get_game_state : Game -> option string -> Res Snapshot.

(** What [broadcast] is given: an object with a [get_game_state] method,
    or a ready message. *)
Inductive Payload : Type :=
  | GameObject (g : Game)
  | Ready (m : string).

(** What goes over a socket. *)
Inductive Message : Type :=
  | StateUpdate (state : Snapshot)
  | Plain (m : string).

(** The body of the [try] for one connection: the message to send, or the
    exception of [get_game_state]. *)
Definition message_for (payload : Payload) (conn_state : ConnectionState)
  : Res Message :=
  match payload with
  | GameObject g =>
      let viewer_name :=
        if is_player conn_state then player_name conn_state else None in
      let* personalized_state := get_game_state g viewer_name in
      Ok (StateUpdate personalized_state)
  | Ready m => Ok (Plain m)
  end.

(** The first loop of [broadcast]. [send_json w m] tells whether sending
    [m] on [w] returns ([true]) or raises ([false]). The result is the
    list of messages delivered and [remove_list]. *)
Fixpoint send_all (send_json : WebSocket -> Message -> bool)
    (objs : gmap ConnRef ConnectionState) (payload : Payload)
    (connections : list ConnRef)
  : list (ConnRef * Message) * list ConnRef :=
  match connections with
  | [] => ([], [])
  | r :: rest =>
      let (sent, remove_list) := send_all send_json objs payload rest in
      match objs !! r with
      | None => (sent, r :: remove_list)
      | Some conn_state =>
          match message_for payload conn_state with
          | Ok m =>
              if send_json (ws conn_state) m
              then ((r, m) :: sent, remove_list)
              else (sent, r :: remove_list)
          | Raise _ => (sent, r :: remove_list)
          end
      end
  end.

(** The second loop of [broadcast]:
    [for conn_state in remove_list: self.disconnect(game_id, conn_state.ws)] *)
Definition prune (self : ConnectionManager) (gid : string)
    (remove_list : list ConnRef) : ConnectionManager :=
  fold_left
    (fun m r =>
       match objects m !! r with
       | Some conn_state => disconnect m gid (ws conn_state)
       | None => m
       end)
    remove_list self.

(** [ConnectionManager.broadcast]: the manager afterwards and the messages
    delivered, each with the connection it went to. *)
Definition broadcast (send_json : WebSocket -> Message -> bool)
    (self : ConnectionManager) (gid : string) (payload : Payload)
  : ConnectionManager * list (ConnRef * Message) :=
  let connections := default [] (game_connections self !! gid) in
  let (sent, remove_list) :=
    send_all send_json (objects self) payload connections in
  (prune self gid remove_list, sent).

End Broadcast.

Arguments GameObject {Game} g.
Arguments Ready {Game} m.
Arguments StateUpdate {Snapshot} state.
Arguments Plain {Snapshot} m.
Arguments message_for {Game Snapshot} get_game_state payload conn_state.
Arguments send_all {Game Snapshot} get_game_state send_json objs payload connections.
Arguments broadcast {Game Snapshot} get_game_state send_json self gid payload.

End Registry.

(** ** main.py *)

Module Server.

(** Modelled from the spec: the attributes of a [Player] of
    [poker_engine.poker_engine_api] (not among the sources) that [main.py]
    reads or writes; section 3 lists them ("display name (empty string =
    unseated), chip count, hole cards, folded flag, committed-this-round
    bet amount, automated flag"). *)
Record Player : Type := mkPlayer {
  name : string;
  chips : Z;
  hand : list Card;
  folded : bool;
  current_bet : Z;
  is_bot : bool
}.

(** Modelled from the spec: the attributes of [PokerGame]
    ([poker_engine.poker_engine_api] is not among the sources). The first
    six are the ones [main.py] reads or writes; the others are the rest of
    the Game of section 3, which only the engine touches. *)
Record PokerGame : Type := mkPokerGame {
  stage : string;
  players : list Player;
  lobby_timer : option Z;
  game_starting : bool;
  game_over : bool;
  current_player_index : option Z;
  community_cards : list Card;
  pot : Z;
  highest_bet : Z;
  dealer_index : Z;
  deck : list Card
}.

Definition set_players (g : PokerGame) (ps : list Player) : PokerGame :=
  mkPokerGame (stage g) ps (lobby_timer g) (game_starting g) (game_over g)
    (current_player_index g) (community_cards g) (pot g) (highest_bet g)
    (dealer_index g) (deck g).

(** The three assignments [game.stage = ...; game.lobby_timer = ...;
    game.game_starting = ...]. *)
Definition set_lobby (g : PokerGame) (st : string) (timer : option Z)
    (starting : bool) : PokerGame :=
  mkPokerGame st (players g) timer starting (game_over g)
    (current_player_index g) (community_cards g) (pot g) (highest_bet g)
    (dealer_index g) (deck g).

Definition LOBBY_DURATION : nat := 15.
Definition MIN_PLAYERS : nat := 2.
Definition max_ai_iterations : Z := 20.

(** What a handler does besides changing the games, in order: the effects
    it awaits, and its calls of [execute_action] ([Apply]). *)
Inductive Event : Type :=
  | LockAcquire (gid : string)
  | LockRelease (gid : string)
  | Broadcast (gid : string) (g : PokerGame)
  | Sleep (seconds : Q)
  | RunInExecutor (ai_name : string)
  | Apply (seat : Z) (action : string) (amount : Z)
  | StartLobbyTimer (gid : string).

(** How a handler ends: it returns, it raises [HTTPException], or another
    exception escapes it. *)
Inductive Outcome (R : Type) : Type :=
  | Returned (r : R)
  | HTTPException (status_code : Z) (detail : string)
  | Uncaught (e : PyExc).
Arguments Returned {R} r.
Arguments HTTPException {R} status_code detail.
Arguments Uncaught {R} e.

(** [async with locks[game_id]: ...] around a body that produced [tr]:
    the lock is released however the body ends. *)
Definition with_lock (gid : string) (tr : list Event) : list Event :=
  LockAcquire gid :: tr ++ [LockRelease gid].

(** [sum(1 for p in game.players if p.name and p.name != "")] *)
Definition active_players (g : PokerGame) : nat :=
  length (filter (fun p => name p ≠ "") (players g)).

(** *** Lobby *)

Section Lobby.

(** [PokerGame.play_hand] *)
Variable play_hand : PokerGame -> PokerGame.

(** The two assignments at the head of the countdown loop. *)
Definition tick (g : PokerGame) (remaining : Z) : PokerGame :=
  set_lobby g (stage g) (Some remaining)
    ((remaining <=? 5) && (remaining >? 0)).

(** [for remaining in range(LOBBY_DURATION, -1, -1)], entered with the
    value [remaining], for a countdown that is not cancelled. *)
Fixpoint countdown_loop (gid : string) (g : PokerGame) (remaining : nat)
  : PokerGame * list Event :=
  let g1 := tick g (Z.of_nat remaining) in
  match remaining with
  | O => (g1, [Broadcast gid g1])
  | S k =>
      let (g2, tr) := countdown_loop gid g1 k in
      (g2, Broadcast gid g1 :: Sleep 1 :: tr)
  end.

(** [check_and_start_game] *)
Definition check_and_start_game (games : gmap string PokerGame)
    (gid : string) : gmap string PokerGame * list Event :=
  match games !! gid with
  | None => (games, [])
  | Some game =>
      if decide (MIN_PLAYERS <= active_players game)%nat then
        let game' := play_hand (set_lobby game "preflop" None false) in
        (<[gid := game']> games, with_lock gid [Broadcast gid game'])
      else
        let game' :=
          set_lobby game (stage game) (Some (Z.of_nat LOBBY_DURATION))
            (game_starting game) in
        (<[gid := game']> games,
         with_lock gid [Broadcast gid game'; StartLobbyTimer gid])
  end.

(** [lobby_countdown], run to its end without being cancelled. *)
Definition lobby_countdown (games : gmap string PokerGame) (gid : string)
  : gmap string PokerGame * list Event :=
  match games !! gid with
  | None => (games, [])
  | Some game =>
      let (g1, tr1) := countdown_loop gid game LOBBY_DURATION in
      let (games2, tr2) := check_and_start_game (<[gid := g1]> games) gid in
      (games2, tr1 ++ tr2)
  end.

End Lobby.

(** *** Seats *)

(** [JoinSeatRequest] *)
Record JoinSeatRequest : Type := mkJoinSeatRequest {
  js_player_name : string;
  js_seat_index : Z
}.

Section Seats.

Variable Snapshot : Type.
Variable get_game_state : PokerGame -> option string -> Snapshot.

(** The assignments of [join_seat] to the seat. *)
Definition seat_player (existing : Player) (player_name : string) : Player :=
  mkPlayer player_name
    (if chips existing <=? 0 then 1000 else chips existing)
    [] false 0 false.

(** [join_seat] *)
Definition join_seat (games : gmap string PokerGame) (gid : string)
    (payload : JoinSeatRequest)
  : Outcome Snapshot * gmap string PokerGame * list Event :=
  match games !! gid with
  | None => (HTTPException 404 "Game not found", games, [])
  | Some game =>
      let player_name := js_player_name payload in
      let seat_index := js_seat_index payload in
      if negb (bool_decide (stage game = "lobby")) then
        (HTTPException 400 "Can only join seats during lobby phase", games,
         with_lock gid [])
      else if (seat_index <? 0)
              || (seat_index >=? Z.of_nat (length (players game))) then
        (HTTPException 400 "Invalid seat index", games, with_lock gid [])
      else
        match py_index (players game) seat_index with
        | Raise e => (Uncaught e, games, with_lock gid [])
        | Ok existing =>
            if negb (bool_decide (name existing = "")) then
              (HTTPException 409 "Seat already taken", games,
               with_lock gid [])
            else
              let game' :=
                set_players game
                  (<[Z.to_nat seat_index := seat_player existing player_name]>
                     (players game)) in
              (Returned (get_game_state game' None),
               <[gid := game']> games,
               with_lock gid [StartLobbyTimer gid; Broadcast gid game'])
        end
  end.

End Seats.

Arguments join_seat {Snapshot} get_game_state games gid payload.

(** *** Actions *)

(** The body of the request: [data["player_index"]], [data["action"]],
    [data.get("raise_amount", 0)]. *)
Record ActionData : Type := mkActionData {
  player_index : Z;
  action : string;
  raise_amount : Z
}.

(** The entries of [messages]. *)
Inductive Note : Type :=
  | Chose (who act : string) (amount : Z)
  | Waited (ai_name : string) (think_time : Q) (mv : string) (amt : Z).

Section Actions.

(** The card library, as for the estimator. *)
Variable Key : Type.
Variable eval_hand : list Card -> Z * Key.
Variable new_deck : list Card.

(** [PokerGame.execute_action] and [PokerGame.get_game_state]. *)
Variable ActionResult : Type.
Variable execute_action :
  PokerGame -> Z -> string -> Z -> ActionResult * PokerGame.
Variable get_game_state : PokerGame -> option string -> MonteCarlo.State.

(** The dictionary the handler returns. *)
Record Response : Type := mkResponse {
  resp_result : ActionResult;
  resp_state : MonteCarlo.State;
  resp_messages : list Note
}.

(** A run of the automated-turn loop: the game it leaves, what it did,
    the final value of [ai_iterations], and the handler's return value or
    the exception that ended the loop. *)
Record Run : Type := mkRun {
  run_game : PokerGame;
  run_events : list Event;
  run_iterations : Z;
  run_end : Res Response
}.

(** The condition of the [while]: the seat and player to act when it
    holds. Indexing [game.players] may raise. *)
Definition loop_test (game : PokerGame) (ai_iterations : Z)
  : Res (option (Z * Player)) :=
  if game_over game then Ok None
  else
    match current_player_index game with
    | None => Ok None
    | Some i =>
        let* p := py_index (players game) i in
        if is_bot p && (ai_iterations <? max_ai_iterations)
        then Ok (Some (i, p))
        else Ok None
    end.

(** The [try]/[except] around the executor call followed by
    [ai_decision["move"]]: an exception of [decide] becomes a fold, the
    value [None] cannot be subscripted. *)
Definition ai_decision (rng : MonteCarlo.Rng) (ai_name : string)
    (ai_state : MonteCarlo.State) : Res MonteCarlo.Decision :=
  match MonteCarlo.decide eval_hand new_deck
          (MonteCarlo.mkAI ai_name "medium" 200) rng ai_state with
  | Ok (Some d) => Ok d
  | Ok None => Raise TypeError
  | Raise _ => Ok (MonteCarlo.mkDecision "fold" 0)
  end.

(** The [while] loop of [player_action]. [fuel] bounds the number of
    rounds the definition unfolds; [None] means it was too small. Round
    [n] (counted from 1) draws [thinks n] and [rngs n]. *)
Fixpoint ai_loop (fuel : nat) (rngs : nat -> MonteCarlo.Rng)
    (thinks : nat -> Q) (gid : string) (ai_iterations : Z)
    (game : PokerGame) (result : ActionResult) (state : MonteCarlo.State)
    (messages : list Note) : option Run :=
  match loop_test game ai_iterations with
  | Raise e => Some (mkRun game [] ai_iterations (Raise e))
  | Ok None =>
      Some (mkRun game [] ai_iterations
              (Ok (mkResponse result state messages)))
  | Ok (Some (i, ai_player_obj)) =>
      match fuel with
      | O => None
      | S fuel' =>
          let ai_iterations := ai_iterations + 1 in
          let ai_name := name ai_player_obj in
          let think_time := thinks (Z.to_nat ai_iterations) in
          let ai_state := get_game_state game None in
          match ai_decision (rngs (Z.to_nat ai_iterations)) ai_name
                  ai_state with
          | Raise e =>
              Some (mkRun game [Sleep think_time; RunInExecutor ai_name]
                      ai_iterations (Raise e))
          | Ok d =>
              let mv := MonteCarlo.move d in
              let amt := MonteCarlo.raise_amount d in
              let messages :=
                messages ++ [Waited ai_name think_time mv amt] in
              let (result, game') := execute_action game i mv amt in
              let state := get_game_state game' None in
              run ← ai_loop fuel' rngs thinks gid ai_iterations game'
                      result state messages;
              Some (mkRun (run_game run)
                      ([Sleep think_time; RunInExecutor ai_name;
                        Apply i mv amt; Broadcast gid game']
                         ++ run_events run)
                      (run_iterations run) (run_end run))
          end
      end
  end.

(** [player_action] *)
Definition player_action (fuel : nat) (rngs : nat -> MonteCarlo.Rng)
    (thinks : nat -> Q) (games : gmap string PokerGame) (gid : string)
    (data : ActionData)
  : option (Outcome Response * gmap string PokerGame * list Event) :=
  match games !! gid with
  | None => Some (HTTPException 404 "Game not found", games, [])
  | Some game =>
      if bool_decide (stage game = "lobby") then
        Some (HTTPException 400
                "Game is in lobby phase - cannot perform actions",
              games, [])
      else
        let player_index := player_index data in
        let action := action data in
        let raise_amount := raise_amount data in
        (* the log line reads game.players[player_index].name *)
        match py_index (players game) player_index with
        | Raise e => Some (Uncaught e, games, with_lock gid [])
        | Ok _ =>
            let (result, g1) :=
              execute_action game player_index action raise_amount in
            let state := get_game_state g1 None in
            let head := [Apply player_index action raise_amount;
                         Broadcast gid g1] in
            match py_index (players g1) player_index with
            | Raise e =>
                Some (Uncaught e, <[gid := g1]> games, with_lock gid head)
            | Ok p =>
                let messages := [Chose (name p) action raise_amount] in
                run ← ai_loop fuel rngs thinks gid 0 g1 result state
                        messages;
                Some (match run_end run with
                      | Ok r => Returned r
                      | Raise e => Uncaught e
                      end,
                      <[gid := run_game run]> games,
                      with_lock gid (head ++ run_events run))
            end
        end
  end.

End Actions.

Arguments mkResponse {ActionResult} resp_result resp_state resp_messages.
Arguments resp_result {ActionResult} r.
Arguments resp_state {ActionResult} r.
Arguments resp_messages {ActionResult} r.
Arguments mkRun {ActionResult} run_game run_events run_iterations run_end.
Arguments run_game {ActionResult} r.
Arguments run_events {ActionResult} r.
Arguments run_iterations {ActionResult} r.
Arguments run_end {ActionResult} r.
Arguments ai_decision {Key} eval_hand new_deck rng ai_name ai_state.
Arguments ai_loop {Key} eval_hand new_deck {ActionResult} execute_action
  get_game_state fuel rngs thinks gid ai_iterations game result state messages.
Arguments player_action {Key} eval_hand new_deck {ActionResult} execute_action
  get_game_state fuel rngs thinks games gid data.

(** *** The streaming channel *)

(** The module-level dictionaries [games] and [manager]. *)
Record Globals : Type := mkGlobals {
  games : gmap string PokerGame;
  manager : Registry.ConnectionManager
}.

Section Endpoint.

Variable Snapshot : Type.
Variable get_game_state : PokerGame -> option string -> Snapshot.

(** The replies the endpoint sends on its own socket. *)
Inductive Reply : Type :=
  | upgrade_success (state : Snapshot)
  | upgrade_failed (error : string).

(** The branch of [websocket_endpoint] for a message of type
    ["upgrade_to_player"]; [gid] is the game the socket was opened for. *)
Definition on_upgrade_to_player (env : Globals) (gid : string)
    (websocket : Registry.WebSocket) (player_name : string) (seat_index : Z)
  : Globals * list Reply :=
  let game := games env !! gid in
  let (success, manager') :=
    Registry.upgrade_connection_to_player (manager env) websocket
      player_name seat_index in
  let env' := mkGlobals (games env) manager' in
  if success then
    match game with
    | Some g => (env', [upgrade_success (get_game_state g (Some player_name))])
    | None => (env', [])
    end
  else (env', [upgrade_failed "Could not upgrade to player"]).

End Endpoint.

Arguments upgrade_success {Snapshot} state.
Arguments upgrade_failed {Snapshot} error.
Arguments on_upgrade_to_player {Snapshot} get_game_state env gid websocket
  player_name seat_index.

End Server.

(** ** heuristic_ai.py *)

From Stdlib Require Import Qround.

Module Heuristic.

(** The attributes set by [HeuristicAI.__init__]. *)
Record AI : Type := mkAI { name : string; difficulty : string }.

(** The random draws of one call of [decide]: the index drawn by
    [random.choice] for a raise size, the number drawn by [random.random],
    the index drawn by [random.choice(actions)] in the fallback. *)
Record Rng : Type := mkRng { size : nat; random : Q; fallback : nat }.

(** [random.choice(l)] for a non-empty [l], given the index drawn. *)
Definition random_choice {A : Type} (d : A) (l : list A) (i : nat) : A :=
  default d (l !! (i mod length l)%nat).

(** [high_card_values.get(r, 0)] *)
Definition high_card_values (r : string) : Z := SpecModel.rank_value r.

(** [{"easy": 0.05, "medium": 0.15, "hard": 0.25}[self.difficulty]] *)
Definition bluff_chance (d : string) : Res Q :=
  if decide (d = "easy") then Ok (5 # 100)%Q
  else if decide (d = "medium") then Ok (15 # 100)%Q
  else if decide (d = "hard") then Ok (25 # 100)%Q
  else Raise KeyError.

(** The rank taken from the hole cards alone:
    [max(1, int(avg_val / 1.5))] with [avg_val = sum(values) / len(values)].
    The values are not negative, so [int] rounds down. *)
Definition preflop_rank (hand : list string) : Z :=
  let values := map (fun c => high_card_values (but_last c)) hand in
  let avg_val :=
    (inject_Z (foldr Z.add 0%Z values)
     / inject_Z (Z.of_nat (length values)))%Q in
  Z.max 1 (Qfloor (avg_val / (15 # 10))).

(** [to_call / (pot + to_call) if (pot + to_call) > 0 else 0] *)
Definition pot_odds (pot to_call : Z) : Q :=
  if 0 <? pot + to_call
  then (inject_Z to_call / inject_Z (pot + to_call)%Z)%Q
  else 0%Q.

(** [min(rank / 10.0, 1.0)] *)
Definition normalized (rank : Z) : Q :=
  let r := (inject_Z rank / inject_Z 10)%Q in
  if Qle_bool r 1 then r else 1%Q.

Section Decide.

(** [poker_engine.utils.eval_hand], here applied to the cards as the state
    has them (strings): a rank, or [None] for the indeterminate result, and
    a key; the call may raise. *)
Variable Key : Type.
Variable eval_hand : list string -> Res (option Z * Key).

(** The [try]/[except] around [eval_hand] and the fallback on the hole
    cards when the rank is [None]. *)
Definition hand_rank (hand community : list string) : Z :=
  let rank :=
    match eval_hand (hand ++ community) with
    | Ok (r, _) => r
    | Raise _ => None
    end in
  match rank with
  | Some r => r
  | None =>
      match hand with
      | [] => 5
      | _ => preflop_rank hand
      end
  end.

(** [HeuristicAI.decide] *)
Definition decide (self : AI) (rng : Rng) (state : MonteCarlo.State)
  : Res MonteCarlo.Decision :=
  let actions := MonteCarlo.legal_actions state in
  match actions with
  | [] => Ok (MonteCarlo.mkDecision "check" 0)
  | first :: _ =>
    match List.find
            (fun p => bool_decide (MonteCarlo.pv_name p = name self))
            (MonteCarlo.players state) with
    | None => Ok (MonteCarlo.mkDecision "fold" 0)
    | Some bot =>
      let hand := MonteCarlo.pv_hand bot in
      let community := MonteCarlo.community_cards state in
      let pot := MonteCarlo.pot state in
      let to_call := MonteCarlo.to_call state in
      let normalized_rank := normalized (hand_rank hand community) in
      let odds := pot_odds pot to_call in
      if Qle_bool (8 # 10) normalized_rank then
        if MonteCarlo.legal "raise" actions then
          Ok (MonteCarlo.mkDecision "raise"
                (random_choice 50 [50; 100; 200] (size rng)))
        else if MonteCarlo.legal "call" actions then
          Ok (MonteCarlo.mkDecision "call" 0)
        else
          Ok (MonteCarlo.mkDecision
                (random_choice first actions (fallback rng)) 0)
      else if Qle_bool (4 # 10) normalized_rank then
        if MonteCarlo.legal "call" actions && Qgtb (6 # 10) odds then
          Ok (MonteCarlo.mkDecision "call" 0)
        else if MonteCarlo.legal "check" actions then
          Ok (MonteCarlo.mkDecision "check" 0)
        else Ok (MonteCarlo.mkDecision "fold" 0)
      else
        let* chance := bluff_chance (difficulty self) in
        if MonteCarlo.legal "raise" actions && Qgtb chance (random rng) then
          Ok (MonteCarlo.mkDecision "raise"
                (random_choice 20 [20; 30; 40] (size rng)))
        else if MonteCarlo.legal "check" actions && (to_call =? 0) then
          Ok (MonteCarlo.mkDecision "check" 0)
        else if MonteCarlo.legal "call" actions && Qgtb (2 # 10) odds then
          Ok (MonteCarlo.mkDecision "call" 0)
        else Ok (MonteCarlo.mkDecision "fold" 0)
    end
  end.

End Decide.

Arguments hand_rank {Key} eval_hand hand community.
Arguments decide {Key} eval_hand self rng state.

End Heuristic.

(** ** main.py: the other routes *)

Module Routes.

Import Server.

(** *** Seats *)

(** [LeaveSeatRequest] *)
Record LeaveSeatRequest : Type := mkLeaveSeatRequest { ls_seat_index : Z }.

(** The body of [add_ai_player]: [payload.get("seat_index")] and
    [payload.get("ai_name", "AI Player")]; a missing seat index reads as
    [None]. *)
Record AddAIPayload : Type := mkAddAIPayload {
  ai_seat_index : option Z;
  ai_name : option string
}.

(** The assignments of [leave_seat] to the seat; the chips stay. *)
Definition vacate (player : Player) : Player :=
  mkPlayer "" (chips player) [] false 0 false.

(** The assignments of [add_ai_player] to the seat. *)
Definition seat_bot (existing : Player) (ai_name : string) : Player :=
  mkPlayer ai_name
    (if chips existing <=? 0 then 1000 else chips existing)
    [] false 0 true.

Section Seats.

Variable Snapshot : Type.
Variable get_game_state : PokerGame -> option string -> Snapshot.

(** [leave_seat] *)
Definition leave_seat (games : gmap string PokerGame) (gid : string)
    (payload : LeaveSeatRequest)
  : Outcome Snapshot * gmap string PokerGame * list Event :=
  match games !! gid with
  | None => (HTTPException 404 "Game not found", games, [])
  | Some game =>
      let seat_index := ls_seat_index payload in
      if negb (bool_decide (stage game = "lobby")) then
        (HTTPException 400 "Can only leave seats during lobby phase", games,
         with_lock gid [])
      else if (seat_index <? 0)
              || (seat_index >=? Z.of_nat (length (players game))) then
        (HTTPException 400 "Invalid seat index", games, with_lock gid [])
      else
        match py_index (players game) seat_index with
        | Raise e => (Uncaught e, games, with_lock gid [])
        | Ok player =>
            if bool_decide (name player = "") then
              (HTTPException 400 "Seat is already empty", games,
               with_lock gid [])
            else
              let game' :=
                set_players game
                  (<[Z.to_nat seat_index := vacate player]> (players game)) in
              (Returned (get_game_state game' None),
               <[gid := game']> games,
               with_lock gid [StartLobbyTimer gid; Broadcast gid game'])
        end
  end.

(** [add_ai_player]. Comparing a missing seat index with [0] raises
    [TypeError]. *)
Definition add_ai_player (games : gmap string PokerGame) (gid : string)
    (payload : AddAIPayload)
  : Outcome Snapshot * gmap string PokerGame * list Event :=
  match games !! gid with
  | None => (HTTPException 404 "Game not found", games, [])
  | Some game =>
      let name_given := default "AI Player" (ai_name payload) in
      if negb (bool_decide (stage game = "lobby")) then
        (HTTPException 400 "Can only add AI players during lobby phase",
         games, with_lock gid [])
      else
        match ai_seat_index payload with
        | None => (Uncaught TypeError, games, with_lock gid [])
        | Some seat_index =>
            if (seat_index <? 0)
               || (seat_index >=? Z.of_nat (length (players game))) then
              (HTTPException 400 "Invalid seat index", games,
               with_lock gid [])
            else
              match py_index (players game) seat_index with
              | Raise e => (Uncaught e, games, with_lock gid [])
              | Ok existing =>
                  if negb (bool_decide (name existing = "")) then
                    (HTTPException 409 "Seat already taken", games,
                     with_lock gid [])
                  else
                    let game' :=
                      set_players game
                        (<[Z.to_nat seat_index := seat_bot existing name_given]>
                           (players game)) in
                    (Returned (get_game_state game' None),
                     <[gid := game']> games,
                     with_lock gid [StartLobbyTimer gid; Broadcast gid game'])
              end
        end
  end.

End Seats.

Arguments leave_seat {Snapshot} get_game_state games gid payload.
Arguments add_ai_player {Snapshot} get_game_state games gid payload.

(** *** Sessions, locks and countdown tasks *)

(** The module-level dictionaries [games], [locks] and [lobby_timers]. A
    countdown task is known by the number of tasks created before it;
    [app_cancelled] holds the tasks on which [cancel()] was called. *)
Record App : Type := mkApp {
  app_games : gmap string PokerGame;
  app_locks : gset string;
  app_timers : gmap string nat;
  app_cancelled : gset nat;
  app_tasks : nat
}.

(** [games = {}; locks = {}; lobby_timers = {}] *)
Definition boot : App := mkApp ∅ ∅ ∅ ∅ 0.

(** [lobby_timers[game_id].cancel()] when the game has an entry. *)
Definition cancel_registered (app : App) (gid : string) : gset nat :=
  match app_timers app !! gid with
  | Some t => {[t]} ∪ app_cancelled app
  | None => app_cancelled app
  end.

(** [start_lobby_timer] *)
Definition start_lobby_timer (app : App) (gid : string) : App :=
  mkApp (app_games app) (app_locks app)
    (<[gid := app_tasks app]> (app_timers app))
    (cancel_registered app gid) (S (app_tasks app)).

(** [if game_id in lobby_timers: lobby_timers[game_id].cancel();
    del lobby_timers[game_id]] *)
Definition drop_lobby_timer (app : App) (gid : string) : App :=
  mkApp (app_games app) (app_locks app) (delete gid (app_timers app))
    (cancel_registered app gid) (app_tasks app).

Definition set_games (app : App) (games : gmap string PokerGame) : App :=
  mkApp games (app_locks app) (app_timers app) (app_cancelled app)
    (app_tasks app).

(** What the events of a handler do to the countdown tasks. *)
Definition run_event (app : App) (e : Event) : App :=
  match e with
  | StartLobbyTimer gid => start_lobby_timer app gid
  | _ => app
  end.

(** A handler written over the games alone, run on the dictionaries. *)
Definition on_app {R : Type}
    (handler : gmap string PokerGame ->
               R * gmap string PokerGame * list Event)
    (app : App) : R * App * list Event :=
  let '(r, games', tr) := handler (app_games app) in
  (r, foldl run_event (set_games app games') tr, tr).

(** [CreateGameRequest] *)
Record CreateGameRequest : Type := mkCreateGameRequest {
  player_names : list string;
  seat_count : option Z
}.

(** [req.seat_count or 6] *)
Definition seats_wanted (req : CreateGameRequest) : Z :=
  match seat_count req with
  | None => 6
  | Some n => if n =? 0 then 6 else n
  end.

(** [initial_names] after the padding loop, which appends one empty name
    per round while the list is shorter than the seat count. *)
Definition initial_names (req : CreateGameRequest) : list string :=
  player_names req
  ++ replicate
       (Z.to_nat (seats_wanted req - Z.of_nat (length (player_names req))))
       "".

(** [for i, p in enumerate(game.players): if p.name == "Bot": p.is_bot = True] *)
Definition flag_bots (ps : list Player) : list Player :=
  map (fun p =>
         if bool_decide (name p = "Bot")
         then mkPlayer (name p) (chips p) (hand p) (folded p) (current_bet p)
                true
         else p)
      ps.

Section Sessions.

Variable Snapshot : Type.
Variable get_game_state : PokerGame -> option string -> Snapshot.

(** [PokerGame(initial_names)] and [PokerGame.play_hand]. *)
Variable new_game : list string -> PokerGame.
Variable play_hand : PokerGame -> PokerGame.

(** [create_game], with [game_id] the eight characters drawn from
    [uuid4()]. *)
Definition create_game (app : App) (game_id : string)
    (req : CreateGameRequest) : Snapshot * App :=
  let game := new_game (initial_names req) in
  let game := set_lobby game "lobby" (Some (Z.of_nat LOBBY_DURATION)) false in
  let game := set_players game (flag_bots (players game)) in
  let app1 :=
    mkApp (<[game_id := game]> (app_games app))
      ({[game_id]} ∪ app_locks app) (app_timers app) (app_cancelled app)
      (app_tasks app) in
  (get_game_state game None, start_lobby_timer app1 game_id).

(** [start_hand]. [locks[game_id]] raises [KeyError] for a game without a
    lock. *)
Definition start_hand (app : App) (gid : string)
  : Outcome Snapshot * App * list Event :=
  match app_games app !! gid with
  | None => (HTTPException 404 "Game not found", app, [])
  | Some game =>
      if negb (bool_decide (gid ∈ app_locks app)) then
        (Uncaught KeyError, app, [])
      else if bool_decide (stage game = "lobby") then
        if decide (active_players game < MIN_PLAYERS)%nat then
          (HTTPException 400 "Need at least 2 players to start", app,
           with_lock gid [])
        else
          let app1 := drop_lobby_timer app gid in
          let game' := play_hand (set_lobby game "preflop" None false) in
          (Returned (get_game_state game' None),
           set_games app1 (<[gid := game']> (app_games app)),
           with_lock gid [Broadcast gid game'])
      else
        let game' := play_hand game in
        (Returned (get_game_state game' None),
         set_games app (<[gid := game']> (app_games app)),
         with_lock gid [Broadcast gid game'])
  end.

(** [get_state] *)
Definition get_state (app : App) (gid : string) : Outcome Snapshot :=
  match app_games app !! gid with
  | None => HTTPException 404 "Game not found"
  | Some game => Returned (get_game_state game None)
  end.

End Sessions.

Arguments create_game {Snapshot} get_game_state new_game app game_id req.
Arguments start_hand {Snapshot} get_game_state play_hand app gid.
Arguments get_state {Snapshot} get_game_state app gid.

(** [cleanup_game]; the answer is the same message either way. *)
Definition cleanup_game (app : App) (gid : string) : App :=
  match app_games app !! gid with
  | None => app
  | Some _ =>
      let app1 := drop_lobby_timer app gid in
      mkApp (delete gid (app_games app1)) (app_locks app1 ∖ {[gid]})
        (app_timers app1) (app_cancelled app1) (app_tasks app1)
  end.

(** *** The streaming channel *)

(** The messages a client sends, by their ["type"]. *)
Inductive ClientMessage : Type :=
  | upgrade_to_player (player_name : string) (seat_index : Z)
  | downgrade_to_spectator
  | ping
  | unknown (msg_type : string).

Section Channel.

Variable Snapshot : Type.
Variable get_game_state : PokerGame -> option string -> Snapshot.

(** What the endpoint sends on its own socket. *)
Inductive Frame : Type :=
  | upgrade_reply (r : Reply Snapshot)
  | state_update (state : Snapshot)
  | pong.

(** The head of [websocket_endpoint]: the connection is registered as a
    spectator and, when the game exists, sent the snapshot for no viewer. *)
Definition on_open (env : Globals) (gid : string)
    (websocket : Registry.WebSocket) : Globals * list Frame :=
  let (_, manager') := Registry.connect (manager env) gid websocket in
  (mkGlobals (games env) manager',
   match games env !! gid with
   | Some g => [state_update (get_game_state g None)]
   | None => []
   end).

(** One round of the receive loop of [websocket_endpoint]. The source
    reads [game = games.get(game_id)] once, when the socket opens; no
    handler over the games runs between [on_open] and the rounds modelled
    here, so looking the game up at each round gives the same object. *)
Definition on_message (env : Globals) (gid : string)
    (websocket : Registry.WebSocket) (data : ClientMessage)
  : Globals * list Frame :=
  match data with
  | upgrade_to_player player_name seat_index =>
      let (env', replies) :=
        on_upgrade_to_player get_game_state env gid websocket player_name
          seat_index in
      (env', map upgrade_reply replies)
  | downgrade_to_spectator =>
      let (_, manager') :=
        Registry.downgrade_connection_to_spectator (manager env) websocket in
      (mkGlobals (games env) manager',
       match games env !! gid with
       | Some g => [state_update (get_game_state g None)]
       | None => []
       end)
  | ping => (env, [pong])
  | unknown _ => (env, [])
  end.

(** The handler of [WebSocketDisconnect]. *)
Definition on_close (env : Globals) (gid : string)
    (websocket : Registry.WebSocket) : Globals :=
  mkGlobals (games env) (Registry.disconnect (manager env) gid websocket).

(** The receive loop over the messages of a client. *)
Definition on_messages (env : Globals) (gid : string)
    (websocket : Registry.WebSocket) (msgs : list ClientMessage) : Globals :=
  foldl (fun e m => (on_message e gid websocket m).1) env msgs.

(** A whole run of [websocket_endpoint] whose sends all return: open, the
    messages of the client, close. *)
Definition channel (env : Globals) (gid : string)
    (websocket : Registry.WebSocket) (msgs : list ClientMessage) : Globals :=
  on_close (on_messages (on_open env gid websocket).1 gid websocket msgs)
    gid websocket.

End Channel.

Arguments upgrade_reply {Snapshot} r.
Arguments state_update {Snapshot} state.
Arguments pong {Snapshot}.
Arguments on_open {Snapshot} get_game_state env gid websocket.
Arguments on_message {Snapshot} get_game_state env gid websocket data.
Arguments on_messages {Snapshot} get_game_state env gid websocket msgs.
Arguments channel {Snapshot} get_game_state env gid websocket msgs.

End Routes.

(** ** Vocabulary of the statements *)

(** A trial that ran and was counted as a win. *)
Definition won (r : Res bool) : bool :=
  match r with
  | Ok true => true
  | _ => false
  end.

(** The number of rounds among the first [n] that were won, [round i]
    being the result of round [i]. *)
Definition wins_among (round : nat -> Res bool) (n : nat) : Z :=
  Z.of_nat (length (filter (fun i => won (round i) = true) (seq 0 n))).

(** A win criterion that takes the tie-break key into account: the own
    evaluation is at least every opponent's, in the order of evaluations
    (category, then key). *)
Definition wins_with_tie_break (eval : list Card -> Z * list Z)
    (hand board : list Card) (opp_hands : list (list Card)) : bool :=
  forallb (fun o => SpecModel.eval_leb (eval (o ++ board)) (eval (hand ++ board)))
          opp_hands.

(** Cards written as in the observable state. *)
Definition cards (l : list string) : list Card :=
  omap (fun s => match _parse_card s with Ok c => Some c | Raise _ => None end) l.

(** The hole cards the observable state shows for the actor: none when
    the actor is not among the players or has no cards. *)
Definition observable_hand (self : MonteCarlo.AI) (state : MonteCarlo.State)
  : list string :=
  match List.find (fun q => bool_decide (MonteCarlo.pv_name q = MonteCarlo.name self))
                  (MonteCarlo.players state) with
  | Some bot => MonteCarlo.pv_hand bot
  | None => []
  end.

(** The think-time delays among the events of a handler. *)
Definition is_sleep (e : Server.Event) : bool :=
  match e with
  | Server.Sleep _ => true
  | _ => false
  end.

Definition is_lock (e : Server.Event) : bool :=
  match e with
  | Server.LockAcquire _ | Server.LockRelease _ => true
  | _ => false
  end.

(** The rounds of the automated-turn loop in a list of events: each round
    sleeps once. *)
Definition rounds (tr : list Server.Event) : nat :=
  length (List.filter is_sleep tr).

(** For every [Sleep] of [tr], in order, whether the lock of game [gid] is
    held when it starts; [held] tells whether it is held at the start of
    [tr]. *)
Fixpoint lock_at_sleeps (gid : string) (held : bool) (tr : list Server.Event)
  : list bool :=
  match tr with
  | [] => []
  | Server.LockAcquire g :: tr' =>
      lock_at_sleeps gid (held || bool_decide (g = gid)) tr'
  | Server.LockRelease g :: tr' =>
      lock_at_sleeps gid (held && negb (bool_decide (g = gid))) tr'
  | Server.Sleep _ :: tr' => held :: lock_at_sleeps gid held tr'
  | _ :: tr' => lock_at_sleeps gid held tr'
  end.



(** The connections a broadcast for game [gid] goes through. *)
Definition targets (m : Registry.ConnectionManager) (gid : string)
  : list Registry.ConnRef :=
  default [] (Registry.game_connections m !! gid).

(** The registry as [connect] builds it: the list of a game holds each
    connection once; each is an object created earlier, made for that
    game, and is the entry of [ws_to_state] for its own websocket. *)
Definition registry_wf (m : Registry.ConnectionManager) : Prop :=
  forall (gid : string) (conns : list Registry.ConnRef),
    Registry.game_connections m !! gid = Some conns ->
    NoDup conns
    /\ forall r : Registry.ConnRef, r ∈ conns ->
         (r <= Registry.connection_counter m)%nat
         /\ exists c, Registry.objects m !! r = Some c
              /\ Registry.ws_to_state m !! Registry.ws c = Some r
              /\ Registry.game_id c = Some gid.

(** What one pass of the sending loop delivers to connection [r]. *)
Definition delivery {Game Snapshot : Type}
    (get_game_state : Game -> option string -> Res Snapshot)
    (send_json : Registry.WebSocket -> Registry.Message Snapshot -> bool)
    (objs : gmap Registry.ConnRef Registry.ConnectionState)
    (payload : Registry.Payload Game) (r : Registry.ConnRef)
  : option (Registry.Message Snapshot) :=
  c ← objs !! r;
  match Registry.message_for get_game_state payload c with
  | Ok m => if send_json (Registry.ws c) m then Some m else None
  | Raise _ => None
  end.

(** ** Sample data *)

Module Sample.

(** An engine that applies nothing: the current actor never advances. *)
Definition execute_action (g : Server.PokerGame) (seat : Z) (act : string)
    (amount : Z) : unit * Server.PokerGame := (tt, g).

(** A snapshot for no viewer: every hand is hidden, folding and checking
    are legal. *)
Definition get_game_state (g : Server.PokerGame) (viewer : option string)
  : MonteCarlo.State :=
  MonteCarlo.mkState ["fold"; "check"]
    (map (fun p => MonteCarlo.mkPlayerView (Server.name p) [])
         (Server.players g))
    [] (Server.pot g) 0.

(** A lobby with one seat taken out of two. *)
Definition lobby : Server.PokerGame :=
  Server.mkPokerGame "lobby"
    [Server.mkPlayer "Ann" 1000 [] false 0 false;
     Server.mkPlayer "" 0 [] false 0 false]
    (Some 15) false false None [] 0 0 0 [].

(** A hand in progress between a human and an automated player, the
    automated player to act. *)
Definition table : Server.PokerGame :=
  Server.mkPokerGame "preflop"
    [Server.mkPlayer "Ann" 1000 (cards ["Ah"; "Kh"]) false 0 false;
     Server.mkPlayer "Bot" 1000 (cards ["2c"; "7d"]) false 0 true]
    None false false (Some 1) [] 0 0 0 [].

Definition games : gmap string Server.PokerGame :=
  {[ "lobby1" := lobby; "table1" := table ]}.

(** A [play_hand] that deals nothing. *)
Definition play_hand (g : Server.PokerGame) : Server.PokerGame := g.

(** Two viewers of the sample table; the socket of the first is broken. *)
Definition manager : Registry.ConnectionManager :=
  (Registry.connect (Registry.connect Registry.init "table1" 7%nat).2
     "table1" 8%nat).2.

Definition send_json (w : Registry.WebSocket)
    (m : Registry.Message MonteCarlo.State) : bool :=
  negb (w =? 7)%nat.

Definition rngs (n : nat) : MonteCarlo.Rng :=
  MonteCarlo.mkRng (fun _ d => d) 0 (1 # 2).

Definition thinks (n : nat) : Q := (3 # 2)%Q.

End Sample.

(** ** Vocabulary of the further statements *)

(** An evaluation that gives no rank: the call raised, or returned the
    indeterminate result. *)
Definition indeterminate {Key : Type} (r : Res (option Z * Key)) : Prop :=
  match r with
  | Ok (Some _, _) => False
  | _ => True
  end.

(** The sum of the values of the hole cards, as the heuristic player reads
    them. *)
Definition hole_card_sum (hand : list string) : Z :=
  foldr Z.add 0
    (map (fun c => Heuristic.high_card_values (but_last c)) hand).

(** One countdown per game: the tasks that were created and not cancelled
    are exactly the registered ones, and no task is registered for two
    games. *)
Definition timers_wf (app : Routes.App) : Prop :=
  (forall gid t, Routes.app_timers app !! gid = Some t ->
     (t < Routes.app_tasks app)%nat /\ t ∉ Routes.app_cancelled app)
  /\ (forall t, t ∈ Routes.app_cancelled app ->
        (t < Routes.app_tasks app)%nat)
  /\ (forall t, (t < Routes.app_tasks app)%nat ->
        t ∉ Routes.app_cancelled app ->
        exists gid, Routes.app_timers app !! gid = Some t)
  /\ (forall g1 g2 t, Routes.app_timers app !! g1 = Some t ->
        Routes.app_timers app !! g2 = Some t -> g1 = g2).

(** ** More sample data *)

Module SampleMore.

(** A snapshot in which the automated player sits alone with its cards
    and may only check or fold. *)
Definition observe_alone (g : Server.PokerGame) (viewer : option string)
  : MonteCarlo.State :=
  MonteCarlo.mkState ["check"; "fold"]
    [MonteCarlo.mkPlayerView "Bot" ["Ah"; "Kh"]] [] 100 0.

(** An evaluation of cards given as strings that never gives a rank. *)
Definition no_rank (l : list string) : Res (option Z * unit) :=
  Ok (None, tt).

(** A constructor that seats every name with 1000 chips. *)
Definition new_game (names : list string) : Server.PokerGame :=
  Server.mkPokerGame "lobby"
    (map (fun n => Server.mkPlayer n 1000 [] false 0 false) names)
    None false false None [] 0 0 0 [].

(** The game that [create_game] stores for the names Ann and Bot and
    three seats. *)
Definition created : Server.PokerGame :=
  Server.mkPokerGame "lobby"
    [Server.mkPlayer "Ann" 1000 [] false 0 false;
     Server.mkPlayer "Bot" 1000 [] false 0 true;
     Server.mkPlayer "" 1000 [] false 0 false]
    (Some 15) false false None [] 0 0 0 [].

(** The viewers of the sample table and one viewer of the sample lobby. *)
Definition manager : Registry.ConnectionManager :=
  (Registry.connect Sample.manager "lobby1" 9%nat).2.

(** Sockets on which every send returns. *)
Definition all_sent (w : Registry.WebSocket)
    (m : Registry.Message MonteCarlo.State) : bool := true.

(** The sample snapshot as a [get_game_state] that never raises. *)
Definition snapshot (g : Server.PokerGame) (viewer : option string)
  : Res MonteCarlo.State := Ok (Sample.get_game_state g viewer).

(** The dictionaries after one game was created. *)
Definition app : Routes.App :=
  (Routes.create_game Sample.get_game_state new_game Routes.boot "table1"
     (Routes.mkCreateGameRequest ["Ann"; "Bot"] (Some 3))).2.

End SampleMore.

(** * Properties *)

(** ** The definitions on concrete inputs *)

Example parse_ten_of_hearts : _parse_card "10h" = Ok (mkCard "10" "h").
Proof. reflexivity. Qed.

Example parse_empty_string : _parse_card "" = Raise IndexError.
Proof. reflexivity. Qed.

Example index_from_the_end : py_index [10; 20; 30] (-1) = Ok 30.
Proof. reflexivity. Qed.

Example index_past_the_end : py_index [10; 20; 30] 3 = Raise IndexError.
Proof. reflexivity. Qed.

Example deal_two :
  deal 2 (cards ["As"; "Ah"; "4c"]) = Ok (cards ["As"; "Ah"], cards ["4c"]).
Proof. reflexivity. Qed.

Example deal_from_short_deck : deal 2 (cards ["As"]) = Raise IndexError.
Proof. reflexivity. Qed.

Example new_deck_has_52_cards :
  length SpecModel.new_deck = 52%nat /\ NoDup SpecModel.new_deck.
Proof. split; [reflexivity|]. apply (bool_decide_unpack _). by vm_compute. Qed.

Example eval_wheel_straight :
  SpecModel.eval_hand (cards ["As"; "5h"; "4c"; "3d"; "2s"; "Jh"; "3h"])
  = (5, [5]).
Proof. by vm_compute. Qed.

Example eval_full_house :
  SpecModel.eval_hand (cards ["As"; "Ah"; "Ac"; "2d"; "2s"; "Jh"; "3d"])
  = (7, [14; 2]).
Proof. by vm_compute. Qed.

Example eval_two_cards_indeterminate :
  SpecModel.eval_hand (cards ["As"; "5s"]) = (0, []).
Proof. reflexivity. Qed.

Example estWin_empty_hand :
  MonteCarlo.estWin SpecModel.eval_hand SpecModel.new_deck 200
    (fun _ d => d) [] ["2c"; "7d"; "9s"] 3 = Ok 0%Q.
Proof. reflexivity. Qed.

Example estWin_no_simulations :
  MonteCarlo.estWin SpecModel.eval_hand SpecModel.new_deck 0
    (fun _ d => d) ["Ks"; "Kh"] [] 1 = Raise ZeroDivisionError.
Proof. by vm_compute. Qed.

Example decide_no_actions :
  MonteCarlo.decide SpecModel.eval_hand SpecModel.new_deck
    (MonteCarlo.mkAI "Bot" "medium" 200) (MonteCarlo.mkRng (fun _ d => d) 0 0)
    (MonteCarlo.mkState [] [MonteCarlo.mkPlayerView "Bot" ["Ah"; "Kh"]] [] 0 0)
  = Ok (Some (MonteCarlo.mkDecision "check" 0)).
Proof. reflexivity. Qed.

Example decide_unknown_difficulty :
  MonteCarlo.decide SpecModel.eval_hand SpecModel.new_deck
    (MonteCarlo.mkAI "Bot" "expert" 200) (MonteCarlo.mkRng (fun _ d => d) 0 0)
    (MonteCarlo.mkState ["fold"] [MonteCarlo.mkPlayerView "Bot" []] [] 0 0)
  = Raise KeyError.
Proof. reflexivity. Qed.

Example two_viewers_connected :
  targets Sample.manager "table1" = [1; 2]%nat
  /\ Registry.ws_to_state Sample.manager !! 7%nat = Some 1%nat
  /\ Registry.ws_to_state Sample.manager !! 8%nat = Some 2%nat.
Proof. by vm_compute. Qed.

(** ** The estimator *)

Section EstimatorFacts.

Context {Key : Type} (eval_hand : list Card -> Z * Key).

Local Abbreviation rank_of := (MonteCarlo.rank_of eval_hand).
Local Abbreviation best_opp := (MonteCarlo.best_opp eval_hand).
Local Abbreviation is_win := (MonteCarlo.is_win eval_hand).
Local Abbreviation trial := (MonteCarlo.trial eval_hand).

Lemma deal_enough n d :
  (n <= length d)%nat -> deal n d = Ok (take n d, drop n d).
Proof. intros H. unfold deal. case_decide; [done | lia]. Qed.

Lemma fill_board_enough k : forall b d,
  (k <= length d)%nat ->
  exists b' d', MonteCarlo.fill_board k b d = Ok (b', d')
    /\ length d' = (length d - k)%nat /\ length b' = (length b + k)%nat.
Proof.
  induction k as [|k IH]; intros b d Hk; simpl.
  - exists b, d. repeat split; lia.
  - rewrite deal_enough by lia. simpl.
    destruct (IH (b ++ take 1 d) (drop 1 d)) as (b' & d' & -> & Hd & Hb).
    { rewrite length_drop. lia. }
    exists b', d'. split; [done|].
    rewrite length_drop in Hd. rewrite length_app, length_take in Hb. lia.
Qed.

Lemma deal_opponents_enough k : forall d,
  (2 * k <= length d)%nat ->
  exists hs d', MonteCarlo.deal_opponents k d = Ok (hs, d')
    /\ length hs = k /\ Forall (fun h => length h = 2%nat) hs.
Proof.
  induction k as [|k IH]; intros d Hk; simpl.
  - exists [], d. repeat split; constructor.
  - rewrite deal_enough by lia. simpl.
    destruct (IH (drop 2 d)) as (hs & d' & -> & Hl & Hf).
    { rewrite length_drop. lia. }
    simpl. exists (take 2 d :: hs), d'. repeat split; [simpl; lia|].
    constructor; [|done]. rewrite length_take. lia.
Qed.

(** A trial deals without running out of cards when its deck holds the
    cards missing from the board and two for every opponent. *)
Lemma sim_deal_enough c opponents d :
  (5 - length c + 2 * Z.to_nat opponents <= length d)%nat ->
  exists board opps,
    MonteCarlo.sim_deal c opponents d = Ok (board, opps)
    /\ length board = (length c + (5 - length c))%nat
    /\ length opps = Z.to_nat opponents.
Proof.
  intros H. unfold MonteCarlo.sim_deal.
  destruct (fill_board_enough (5 - length c) c d) as (b & d1 & -> & Hd & Hb);
    [lia|].
  simpl.
  destruct (deal_opponents_enough (Z.to_nat opponents) d1)
    as (hs & d2 & -> & Hl & _); [lia|].
  simpl. exists b, hs. done.
Qed.

(** The loop over the opponents' hands computes an upper bound of their
    ranks that one of them attains; it is [None] only without opponents. *)
Lemma fold_best_opp board opps : forall acc,
  match fold_left (MonteCarlo.best_opp_step eval_hand board) opps acc with
  | None => acc = None /\ opps = []
  | Some b =>
      (forall o, o ∈ opps -> rank_of (o ++ board) <= b)
      /\ (forall a, acc = Some a -> a <= b)
      /\ (acc = Some b \/ exists o, o ∈ opps /\ rank_of (o ++ board) = b)
  end.
Proof.
  induction opps as [|o opps IH]; intros acc; simpl.
  - destruct acc as [a|]; [|done].
    split; [intros o Ho; inversion Ho|].
    split; [intros ? [= ->]; lia | by left].
  - specialize (IH (MonteCarlo.best_opp_step eval_hand board acc o)).
    destruct (fold_left _ opps _) as [b|].
    + destruct IH as (Hall & Hacc & Hex).
      assert (Hstep : rank_of (o ++ board) <= b
                      /\ forall a, acc = Some a -> a <= b).
      { unfold MonteCarlo.best_opp_step in Hacc.
        destruct acc as [a|]; simpl in Hacc.
        - destruct (Z.gtb_spec (rank_of (o ++ board)) a).
          + specialize (Hacc _ eq_refl). split; [lia|]. intros ? [= <-]. lia.
          + specialize (Hacc _ eq_refl). split; [lia|]. intros ? [= <-]. lia.
        - specialize (Hacc _ eq_refl). split; [lia | done]. }
      destruct Hstep as [Ho Ha].
      split; [|split; [done|]].
      * intros o' Ho'. apply elem_of_cons in Ho' as [->|Ho']; auto.
      * destruct Hex as [Hex | (o' & Ho' & Hr)].
        -- unfold MonteCarlo.best_opp_step in Hex.
           destruct acc as [a|]; simpl in Hex.
           ++ destruct (Z.gtb_spec (rank_of (o ++ board)) a).
              ** right. exists o. split; [left | congruence].
              ** left. done.
           ++ right. exists o. split; [left | congruence].
        -- right. exists o'. split; [by right | done].
    + destruct IH as [Hacc _].
      unfold MonteCarlo.best_opp_step in Hacc.
      destruct acc as [a|]; [|done].
      by destruct (rank_of (o ++ board) >? a).
Qed.

(** The win test compares categories only: a trial is a win exactly when
    no opponent's category exceeds the own one. *)
Lemma is_win_iff hand board opps :
  is_win hand board opps = true
  <-> Forall (fun o => rank_of (o ++ board) <= rank_of (hand ++ board)) opps.
Proof.
  unfold MonteCarlo.is_win, MonteCarlo.best_opp.
  pose proof (fold_best_opp board opps None) as H.
  destruct (fold_left _ opps None) as [b|].
  - destruct H as (Hall & _ & Hex). rewrite Forall_forall. split.
    + intros Hge%Z.geb_le o Ho. specialize (Hall o Ho). lia.
    + intros Hf. apply Z.geb_le.
      destruct Hex as [|(o & Ho & <-)]; [done|]. by apply Hf.
  - destruct H as [_ ->]. split; [constructor | done].
Qed.

(** The simulation loop adds one to [wins] for every round won. *)
Lemma run_trials_counts shuffles h c opponents deck k : forall i wins,
  (forall j, exists b, trial h c opponents (shuffles j deck) = Ok b) ->
  MonteCarlo.run_trials eval_hand shuffles h c opponents deck k i wins
  = Ok (wins
        + Z.of_nat (length (filter
            (fun j => won (trial h c opponents (shuffles j deck)) = true)
            (seq i k)))).
Proof.
  induction k as [|k IH]; intros i wins Hok; simpl.
  - f_equal. lia.
  - destruct (Hok i) as [b Hb]. rewrite Hb. simpl.
    rewrite IH by done. f_equal.
    rewrite filter_cons, Hb.
    destruct b; simpl; lia.
Qed.

End EstimatorFacts.

(** C1, as amended: in every trial of [estWin] the tie-break key of
    [eval_hand] is dropped, and the trial counts as a win exactly when the
    actor's category is greater than or equal to the category of every
    opponent hand on the same completed board (so also when there is no
    opponent); for a non-empty hand, a simulation count [N] other than 0 and
    a reduced deck that holds the cards of one trial, [estWin] returns the
    number of winning trials divided by [N]. *)
Theorem estWin_counts_category_wins {Key : Type}
    (eval_hand : list Card -> Z * Key) (new_deck : list Card)
    (simulations : Z) (shuffles : nat -> list Card -> list Card)
    (hand community : list string) (opponents : Z) (h c : list Card) :
  hand <> [] ->
  simulations <> 0 ->
  mapR _parse_card hand = Ok h ->
  mapR _parse_card community = Ok c ->
  let deck := filter (fun x => x ∉ h ++ c) new_deck in
  (forall i, shuffles i deck ≡ₚ deck) ->
  (5 - length c + 2 * Z.to_nat opponents <= length deck)%nat ->
  (forall i, exists board opps,
      MonteCarlo.sim_deal c opponents (shuffles i deck) = Ok (board, opps)
      /\ MonteCarlo.trial eval_hand h c opponents (shuffles i deck)
         = Ok (bool_decide
                 (Forall (fun o => MonteCarlo.rank_of eval_hand (o ++ board)
                                   <= MonteCarlo.rank_of eval_hand (h ++ board))
                         opps)))
  /\ MonteCarlo.estWin eval_hand new_deck simulations shuffles hand community
       opponents
     = Ok (inject_Z
             (wins_among
                (fun i => MonteCarlo.trial eval_hand h c opponents
                            (shuffles i deck))
                (Z.to_nat simulations))
           / inject_Z simulations)%Q.
Proof.
  intros Hhand Hn Hh Hc deck Hperm Hsize.
  assert (Htrial : forall i, exists board opps,
      MonteCarlo.sim_deal c opponents (shuffles i deck) = Ok (board, opps)
      /\ MonteCarlo.trial eval_hand h c opponents (shuffles i deck)
         = Ok (bool_decide
                 (Forall (fun o => MonteCarlo.rank_of eval_hand (o ++ board)
                                   <= MonteCarlo.rank_of eval_hand (h ++ board))
                         opps))).
  { intros i.
    destruct (sim_deal_enough c opponents (shuffles i deck))
      as (board & opps & Hdeal & _).
    { rewrite (Permutation_length (Hperm i)). exact Hsize. }
    exists board, opps. split; [done|].
    unfold MonteCarlo.trial. rewrite Hdeal. simpl. f_equal.
    apply eq_true_iff_eq. rewrite bool_decide_eq_true. apply is_win_iff. }
  split; [exact Htrial|].
  unfold MonteCarlo.estWin. destruct hand as [|s hand]; [done|].
  rewrite Hh, Hc. simpl. fold deck.
  rewrite (run_trials_counts eval_hand shuffles h c opponents deck).
  - simpl. apply Z.eqb_neq in Hn. rewrite Hn.
    unfold wins_among. do 2 f_equal.
  - intros j. destruct (Htrial j) as (? & ? & _ & ->). eauto.
Qed.

(** The amended C1 at a concrete input: pocket kings on a three-card
    board against two opponents, three simulations. *)
Lemma estWin_counts_category_wins_witness :
  let h := cards ["Ks"; "Kh"] in
  let c := cards ["2c"; "7d"; "9s"] in
  let deck := filter (fun x => x ∉ h ++ c) SpecModel.new_deck in
  MonteCarlo.estWin SpecModel.eval_hand SpecModel.new_deck 3
    (fun _ d => reverse d) ["Ks"; "Kh"] ["2c"; "7d"; "9s"] 2
  = Ok (inject_Z
          (wins_among
             (fun i => MonteCarlo.trial SpecModel.eval_hand h c 2 (reverse deck))
             3)
        / inject_Z 3)%Q.
Proof.
  intros h c deck.
  refine (proj2 (estWin_counts_category_wins SpecModel.eval_hand
                   SpecModel.new_deck 3 (fun _ d => reverse d)
                   ["Ks"; "Kh"] ["2c"; "7d"; "9s"] 2 h c _ _ _ _ _ _)).
  - discriminate.
  - lia.
  - reflexivity.
  - reflexivity.
  - intros _. apply reverse_Permutation.
  - vm_compute. lia.
Defined.

(** C1 as stated fails: with kings against aces on a dry board both hands
    are a pair, the trial is counted as a win, and yet the actor's
    evaluation with its key is below the opponent's. *)
Lemma estWin_trial_ignores_tie_break :
  let hand := cards ["Ks"; "Kh"] in
  let board := cards ["2c"; "7d"; "9s"; "Jh"; "3d"] in
  let sim_deck := cards ["As"; "Ah"; "4c"; "5c"] in
  MonteCarlo.sim_deal board 1 sim_deck = Ok (board, [cards ["As"; "Ah"]])
  /\ SpecModel.eval_hand (hand ++ board) = (2, [13; 11; 9; 7])
  /\ SpecModel.eval_hand (cards ["As"; "Ah"] ++ board) = (2, [14; 11; 9; 7])
  /\ MonteCarlo.trial SpecModel.eval_hand hand board 1 sim_deck = Ok true
  /\ wins_with_tie_break SpecModel.eval_hand hand board [cards ["As"; "Ah"]]
     = false.
Proof. vm_compute. repeat split. Qed.

(** ** The decision *)

Section DecisionFacts.

Import MonteCarlo.

Lemma Qgtb_lt a b : Qgtb a b = true <-> (b < a)%Q.
Proof.
  unfold Qgtb. rewrite negb_true_iff, <- not_true_iff_false, Qle_bool_iff.
  split; [apply Qnot_le_lt | apply Qlt_not_le].
Qed.

Lemma Qgtb_le a b : Qgtb a b = false <-> (a <= b)%Q.
Proof. unfold Qgtb. rewrite negb_false_iff. apply Qle_bool_iff. Qed.

Lemma legal_elem a actions : legal a actions = true <-> a ∈ actions.
Proof. apply bool_decide_eq_true. Qed.

Lemma legal_not_elem a actions : legal a actions = false <-> a ∉ actions.
Proof. apply bool_decide_eq_false. Qed.

(** [round_to] gives a multiple of [2 ^ s] at most half a step away. *)
Lemma round_to_near (s n : Z) :
  1 <= s ->
  (2 ^ s | round_to s n) /\ 2 * Z.abs (round_to s n - n) <= 2 ^ s.
Proof.
  intros Hs. unfold round_to.
  assert (HP : 2 ^ s = 2 * 2 ^ (s - 1)).
  { replace s with (1 + (s - 1)) at 1 by lia.
    rewrite Z.pow_add_r by lia. reflexivity. }
  assert (Hh : 0 < 2 ^ (s - 1)) by (apply Z.pow_pos_nonneg; lia).
  pose proof (Z.div_mod n (2 ^ s) ltac:(lia)) as Hdm.
  pose proof (Z.mod_pos_bound n (2 ^ s) ltac:(lia)) as Hr.
  set (q := n / 2 ^ s) in *. set (r := n mod 2 ^ s) in *.
  set (P := 2 ^ s) in *. set (h := 2 ^ (s - 1)) in *.
  destruct (Z.ltb_spec r h); [|destruct (Z.ltb_spec h r);
    [|destruct (Z.even q)]]; (split; [apply Z.divide_factor_r | lia]).
Qed.

(** An integer below [2 ^ 53] is a double. *)
Lemma round53_small (n : Z) : Z.abs n < 2 ^ 53 -> round53 n = n.
Proof.
  intros Hn. unfold round53.
  destruct (Z.leb_spec (Z.log2 (Z.abs n) - 52) 0) as [|Hs]; [done|].
  exfalso. destruct (Z.eq_dec (Z.abs n) 0) as [H0|H0].
  - rewrite H0 in Hs. simpl in Hs. lia.
  - apply (Z.log2_lt_pow2 (Z.abs n) 53) in Hn; lia.
Qed.

(** For a pot of at most [2 ^ 50] the rounded product with the double
    [0.4] lies on the same side of every integer as two fifths of the
    pot. *)
Lemma round53_product (tc pot : Z) :
  Z.abs pot <= 2 ^ 50 ->
  (tc * 2 ^ 53 <? round53 (pot * literal_0_4))
  = bool_decide (5 * tc < 2 * pot).
Proof.
  intros Hpot. unfold literal_0_4.
  set (N := pot * 3602879701896397).
  assert (H5 : 5 * N = pot * (2 ^ 54 + 1)) by (subst N; lia).
  unfold round53.
  destruct (Z.leb_spec (Z.log2 (Z.abs N) - 52) 0) as [Hs|Hs].
  - assert (HN : Z.abs N < 2 ^ 53).
    { destruct (Z.eq_dec (Z.abs N) 0) as [H0|H0]; [rewrite H0; lia|].
      apply Z.log2_lt_pow2; lia. }
    case_bool_decide; [apply Z.ltb_lt | apply Z.ltb_ge]; lia.
  - set (s := Z.log2 (Z.abs N) - 52) in *.
    assert (Hpos : 0 < Z.abs N).
    { destruct (Z.eq_dec (Z.abs N) 0) as [H0|H0]; [|lia].
      subst s. rewrite H0 in Hs. simpl in Hs. lia. }
    destruct (Z.log2_spec (Z.abs N) Hpos) as [Hlo Hhi].
    replace (Z.log2 (Z.abs N)) with (52 + s) in Hlo by (subst s; lia).
    replace (Z.succ (Z.log2 (Z.abs N))) with (53 + s) in Hhi
      by (subst s; lia).
    rewrite Z.pow_add_r in Hlo, Hhi by lia.
    destruct (round_to_near s N ltac:(lia)) as [Hdiv Hnear].
    assert (Hh : 0 < 2 ^ s) by (apply Z.pow_pos_nonneg; lia).
    assert (Hs50 : s <= 50).
    { destruct (Z.le_gt_cases s 50) as [|Hgt]; [done|exfalso].
      assert (2 ^ 51 <= 2 ^ s) by (apply Z.pow_le_mono_r; lia).
      lia. }
    set (R := round_to s N) in *. set (P := 2 ^ s) in *.
    assert (HP50 : P <= 2 ^ 50) by (apply Z.pow_le_mono_r; lia).
    destruct (Z.lt_trichotomy (5 * tc) (2 * pot)) as [Hlt|[Heq|Hgt]].
    + rewrite bool_decide_eq_true_2 by done. apply Z.ltb_lt.
      assert (5 * (tc * 2 ^ 53) <= (2 * pot - 1) * 2 ^ 53) by lia.
      lia.
    + rewrite bool_decide_eq_false_2 by lia. apply Z.ltb_ge.
      assert (HT : (P | tc * 2 ^ 53)).
      { assert (Hj : exists j, tc = 2 * j) by (exists (pot - 2 * tc); lia).
        destruct Hj as [j ->].
        replace (2 * j * 2 ^ 53) with (j * 2 ^ 54) by lia.
        apply Z.divide_mul_r. subst P.
        replace 54 with (s + (54 - s)) by lia.
        rewrite Z.pow_add_r by lia. apply Z.divide_factor_l. }
      assert (Hd : (P | R - tc * 2 ^ 53)) by (by apply Z.divide_sub_r).
      assert (Hsmall : Z.abs (R - tc * 2 ^ 53) < P) by lia.
      destruct Hd as [k Hk].
      assert (k = 0) by nia. lia.
    + rewrite bool_decide_eq_false_2 by lia. apply Z.ltb_ge.
      assert ((2 * pot + 1) * 2 ^ 53 <= 5 * (tc * 2 ^ 53)) by lia.
      lia.
Qed.

(** For a pot of at most [2 ^ 50] chips the comparison of the code with
    the double [pot * 0.4] is the comparison with 40% of the pot. *)
Lemma below_pot_share_exact (tc pot : Z) :
  Z.abs pot <= 2 ^ 50 ->
  below_pot_share tc pot = Ok (bool_decide (5 * tc < 2 * pot)).
Proof.
  intros Hpot. unfold below_pot_share, float_of_int.
  rewrite round53_small by lia.
  destruct (Z.leb_spec (2 ^ 1024) (Z.abs pot)) as [Hbig|_].
  - exfalso. assert (2 ^ 50 < 2 ^ 1024) by (apply Z.pow_lt_mono_r; lia). lia.
  - cbn [bind]. by rewrite round53_product.
Qed.

Lemma two_fifths_Q (tc pot : Z) :
  (inject_Z tc < inject_Z pot * (4 # 10))%Q <-> 5 * tc < 2 * pot.
Proof. unfold Qlt. simpl. lia. Qed.

(** Beyond that the two differ: the double nearest to 40% of
    [10 ^ 17 + 1] is [4 * 10 ^ 16], which is not above itself. *)
Example below_pot_share_rounds_large_pots :
  below_pot_share (4 * 10 ^ 16) (10 ^ 17 + 1) = Ok false
  /\ 5 * (4 * 10 ^ 16) < 2 * (10 ^ 17 + 1).
Proof. split; [vm_compute; reflexivity | lia]. Qed.

Lemma random_choice_menu i : random_choice i ∈ raise_menu.
Proof.
  unfold random_choice.
  assert (H : (i mod length raise_menu < length raise_menu)%nat)
    by (apply Nat.mod_upper_bound; discriminate).
  destruct (lookup_lt_is_Some_2 _ _ H) as [x Hx]. rewrite Hx. simpl.
  by eapply list_elem_of_lookup_2.
Qed.

(** C4, as amended: once [decide] has an estimate [p] (the legal-action
    set is not empty and the actor is among the players), it follows the
    bands with thresholds 0.70 and 0.45: for [p > 0.70] it raises, by an
    amount from the menu, if raising is legal, and otherwise calls if
    calling is legal; for [0.45 < p <= 0.70] and a pot of at most [2 ^ 50]
    in absolute value it calls if calling is legal and the amount to call
    is strictly below 40% of the pot, otherwise checks if checking is
    legal, otherwise folds. The code compares the amount with the double
    [pot * 0.4]; up to that size the two comparisons agree. *)
Theorem decide_follows_bands {Key : Type}
    (eval_hand : list Card -> Z * Key) (new_deck : list Card)
    (self : AI) (rng : Rng) (state : State) (bot : PlayerView) (p : Q) :
  legal_actions state <> [] ->
  List.find (fun q => bool_decide (pv_name q = name self)) (players state)
    = Some bot ->
  MonteCarlo.estWin eval_hand new_deck (simulations self) (shuffles rng)
    (pv_hand bot) (community_cards state)
    (Z.of_nat (length (players state)) - 1) = Ok p ->
  let actions := legal_actions state in
  let cheap_call :=
    "call" ∈ actions
    /\ (inject_Z (to_call state) < inject_Z (pot state) * (4 # 10))%Q in
  let result := MonteCarlo.decide eval_hand new_deck self rng state in
  ((7 # 10 < p)%Q ->
     ("raise" ∈ actions ->
        exists amount, amount ∈ [30; 70; 150]
          /\ result = Ok (Some (mkDecision "raise" amount)))
     /\ ("raise" ∉ actions -> "call" ∈ actions ->
           result = Ok (Some (mkDecision "call" 0))))
  /\ ((45 # 100 < p)%Q -> (p <= 7 # 10)%Q -> Z.abs (pot state) <= 2 ^ 50 ->
        (cheap_call -> result = Ok (Some (mkDecision "call" 0)))
        /\ (~ cheap_call -> "check" ∈ actions ->
              result = Ok (Some (mkDecision "check" 0)))
        /\ (~ cheap_call -> "check" ∉ actions ->
              result = Ok (Some (mkDecision "fold" 0)))).
Proof.
  intros Hact Hbot Hest actions cheap_call result.
  assert (Hres : result =
    if Qgtb p (7 # 10) then
      if legal "raise" actions then
        Ok (Some (mkDecision "raise" (random_choice (choice rng))))
      else if legal "call" actions then Ok (Some (mkDecision "call" 0))
      else Ok None
    else if Qgtb p (45 # 100) then
      let* cheap :=
        if legal "call" actions
        then below_pot_share (to_call state) (pot state)
        else Ok false in
      if cheap then Ok (Some (mkDecision "call" 0))
      else if legal "check" actions then Ok (Some (mkDecision "check" 0))
      else Ok (Some (mkDecision "fold" 0))
    else
      let* chance := bluff_chance (difficulty self) in
      if legal "raise" actions && Qgtb chance (random rng) then
        Ok (Some (mkDecision "raise" 30))
      else if legal "check" actions then Ok (Some (mkDecision "check" 0))
      else Ok (Some (mkDecision "fold" 0))).
  { subst result actions. unfold MonteCarlo.decide.
    destruct (legal_actions state) as [|a l]; [done|].
    rewrite Hbot, Hest. reflexivity. }
  split.
  - intros Hp%Qgtb_lt. rewrite Hp in Hres. split.
    + intros Hr%legal_elem. rewrite Hr in Hres.
      exists (random_choice (choice rng)).
      split; [apply random_choice_menu | done].
    + intros Hr%legal_not_elem Hc%legal_elem. by rewrite Hr, Hc in Hres.
  - intros Hlo%Qgtb_lt Hhi%Qgtb_le Hpot. rewrite Hhi, Hlo in Hres.
    rewrite (below_pot_share_exact _ _ Hpot) in Hres.
    assert (Hcheap : exists b,
               (if legal "call" actions
                then Ok (bool_decide (5 * to_call state < 2 * pot state))
                else Ok false) = Ok b
               /\ (b = true <-> cheap_call)).
    { destruct (legal "call" actions) eqn:Hl; eexists;
        (split; [reflexivity|]).
      - rewrite bool_decide_eq_true. unfold cheap_call.
        rewrite two_fifths_Q. apply legal_elem in Hl. tauto.
      - split; [discriminate|]. intros [Hin%legal_elem _]. congruence. }
    destruct Hcheap as (b & Hb & Hcheap). rewrite Hb in Hres.
    cbn [bind] in Hres.
    repeat split.
    + intros Hc%Hcheap. by rewrite Hc in Hres.
    + intros Hc Hk%legal_elem.
      rewrite <- Hcheap in Hc. apply not_true_is_false in Hc.
      by rewrite Hc, Hk in Hres.
    + intros Hc Hk%legal_not_elem.
      rewrite <- Hcheap in Hc. apply not_true_is_false in Hc.
      by rewrite Hc, Hk in Hres.
Qed.

(** The amended C4 at two concrete inputs. In the high band the actor
    alone at the table wins every trial, raising is not legal, calling is.
    In the middle band the actor wins one trial of two against one
    opponent and is asked 10 for a pot of 100: it calls although raising
    is legal. *)
Lemma decide_follows_bands_witness :
  MonteCarlo.decide SpecModel.eval_hand SpecModel.new_deck
    (mkAI "Bot" "medium" 200) (mkRng (fun _ d => d) 0 0)
    (mkState ["fold"; "call"] [mkPlayerView "Bot" ["Ah"; "Kh"]] [] 100 10)
  = Ok (Some (mkDecision "call" 0))
  /\ MonteCarlo.decide SpecModel.eval_hand SpecModel.new_deck
       (mkAI "Bot" "medium" 2)
       (mkRng (fun i d => if (i =? 0)%nat then d else drop 11 d ++ take 11 d)
          0 0)
       (mkState ["fold"; "call"; "raise"]
          [mkPlayerView "Bot" ["9c"; "8c"]; mkPlayerView "Ann" []] [] 100 10)
     = Ok (Some (mkDecision "call" 0)).
Proof.
  split.
  - refine (proj2 (proj1 (decide_follows_bands SpecModel.eval_hand
                            SpecModel.new_deck (mkAI "Bot" "medium" 200)
                            (mkRng (fun _ d => d) 0 0)
                            (mkState ["fold"; "call"]
                               [mkPlayerView "Bot" ["Ah"; "Kh"]] [] 100 10)
                            (mkPlayerView "Bot" ["Ah"; "Kh"])
                            (inject_Z 200 / inject_Z 200) _ _ _) _) _ _).
    + discriminate.
    + reflexivity.
    + vm_compute. reflexivity.
    + reflexivity.
    + apply legal_not_elem. reflexivity.
    + apply legal_elem. reflexivity.
  - refine (proj1 (proj2 (decide_follows_bands SpecModel.eval_hand
                            SpecModel.new_deck (mkAI "Bot" "medium" 2)
                            (mkRng (fun i d =>
                                      if (i =? 0)%nat then d
                                      else drop 11 d ++ take 11 d) 0 0)
                            (mkState ["fold"; "call"; "raise"]
                               [mkPlayerView "Bot" ["9c"; "8c"];
                                mkPlayerView "Ann" []] [] 100 10)
                            (mkPlayerView "Bot" ["9c"; "8c"])
                            (1 # 2)%Q _ _ _) _ _ _) _).
    + discriminate.
    + reflexivity.
    + vm_compute. reflexivity.
    + reflexivity.
    + discriminate.
    + simpl. lia.
    + split; [apply legal_elem; reflexivity | reflexivity].
Defined.

(** C4 as stated fails: in the high band, when neither raising nor
    calling is legal, [decide] does not call; it runs off its end. *)
Lemma decide_high_band_neither_legal :
  let self := mkAI "Bot" "medium" 200 in
  let rng := mkRng (fun _ d => d) 0 0 in
  let state :=
    mkState ["check"; "fold"] [mkPlayerView "Bot" ["Ah"; "Kh"]] [] 100 0 in
  MonteCarlo.estWin SpecModel.eval_hand SpecModel.new_deck 200
    (shuffles rng) ["Ah"; "Kh"] [] 0 = Ok (200 # 200)%Q
  /\ (7 # 10 < 200 # 200)%Q
  /\ ("raise" ∉ legal_actions state)
  /\ MonteCarlo.decide SpecModel.eval_hand SpecModel.new_deck self rng state
     = Ok None
  /\ MonteCarlo.decide SpecModel.eval_hand SpecModel.new_deck self rng state
     <> Ok (Some (mkDecision "call" 0)).
Proof.
  intros self rng state.
  assert (H : MonteCarlo.decide SpecModel.eval_hand SpecModel.new_deck self
                rng state = Ok None) by (vm_compute; reflexivity).
  split; [vm_compute; reflexivity|].
  split; [reflexivity|].
  split; [apply legal_not_elem; reflexivity|].
  split; [exact H|]. rewrite H. discriminate.
Qed.

(** C9, as amended: with an empty legal-action set [decide] returns check;
    with the actor missing from the players it returns fold; with the actor
    present but without hole cards the estimate is 0 and the low band
    applies: for a difficulty among easy, medium and hard it returns a raise
    of 30 when raising is legal and the random draw is below the bluff
    chance of the difficulty, and otherwise check if checking is legal,
    otherwise fold. No exception is raised in any of these cases. *)
Theorem decide_without_cards {Key : Type}
    (eval_hand : list Card -> Z * Key) (new_deck : list Card)
    (self : AI) (rng : Rng) (state : State) :
  legal_actions state = [] \/ observable_hand self state = [] ->
  let actions := legal_actions state in
  let actor :=
    List.find (fun q => bool_decide (pv_name q = name self)) (players state) in
  let result := MonteCarlo.decide eval_hand new_deck self rng state in
  (actions = [] -> result = Ok (Some (mkDecision "check" 0)))
  /\ (actions <> [] -> actor = None ->
        result = Ok (Some (mkDecision "fold" 0)))
  /\ (actions <> [] -> actor <> None ->
        forall chance, bluff_chance (difficulty self) = Ok chance ->
        let bluff := "raise" ∈ actions /\ (random rng < chance)%Q in
        (bluff -> result = Ok (Some (mkDecision "raise" 30)))
        /\ (~ bluff -> "check" ∈ actions ->
              result = Ok (Some (mkDecision "check" 0)))
        /\ (~ bluff -> "check" ∉ actions ->
              result = Ok (Some (mkDecision "fold" 0)))).
Proof.
  intros Habsent actions actor result.
  subst result actions actor. unfold MonteCarlo.decide.
  split; [intros ->; done|].
  split.
  - intros Hact ->. by destruct (legal_actions state).
  - intros Hact Hbot chance Hchance.
    destruct Habsent as [?|Hhand]; [done|].
    unfold observable_hand in Hhand.
    destruct (legal_actions state) as [|a l] eqn:Ha; [done|].
    destruct (List.find _ (players state)) as [bot|]; [|done].
    rewrite Hhand. simpl. rewrite Hchance. simpl.
    assert (Hb : legal "raise" (a :: l) && Qgtb chance (random rng) = true
                 <-> "raise" ∈ a :: l /\ (random rng < chance)%Q).
    { rewrite andb_true_iff, legal_elem, Qgtb_lt. done. }
    repeat split.
    + intros Hc%Hb. by rewrite Hc.
    + intros Hc Hk%legal_elem. rewrite <- Hb in Hc.
      apply not_true_is_false in Hc. by rewrite Hc, Hk.
    + intros Hc Hk%legal_not_elem. rewrite <- Hb in Hc.
      apply not_true_is_false in Hc. by rewrite Hc, Hk.
Qed.

(** The amended C9 at a concrete input: the actor is seated without hole
    cards, raising is not legal, checking is. *)
Lemma decide_without_cards_witness :
  MonteCarlo.decide SpecModel.eval_hand SpecModel.new_deck
    (mkAI "Bot" "medium" 200) (mkRng (fun _ d => d) 0 (1 # 2))
    (mkState ["fold"; "check"]
       [mkPlayerView "Ann" ["Ah"; "Kh"]; mkPlayerView "Bot" []] [] 100 0)
  = Ok (Some (mkDecision "check" 0)).
Proof.
  refine (proj1 (proj2 (proj2 (proj2 (decide_without_cards
            SpecModel.eval_hand SpecModel.new_deck
            (mkAI "Bot" "medium" 200) (mkRng (fun _ d => d) 0 (1 # 2))
            (mkState ["fold"; "check"]
               [mkPlayerView "Ann" ["Ah"; "Kh"]; mkPlayerView "Bot" []]
               [] 100 0) _)) _ _ (1 # 10)%Q _)) _ _).
  - right. reflexivity.
  - discriminate.
  - discriminate.
  - reflexivity.
  - intros [_ H]. vm_compute in H. discriminate.
  - apply legal_elem. reflexivity.
Defined.

(** C9 as stated fails: an actor seated without hole cards raises when
    raising is legal and the random draw falls below the bluff chance. *)
Lemma decide_bluffs_without_cards :
  let self := mkAI "Bot" "medium" 200 in
  let rng := mkRng (fun _ d => d) 0 (5 # 100) in
  let state :=
    mkState ["fold"; "call"; "raise"]
      [mkPlayerView "Ann" ["Ah"; "Kh"]; mkPlayerView "Bot" []] [] 100 20 in
  observable_hand self state = []
  /\ MonteCarlo.decide SpecModel.eval_hand SpecModel.new_deck self rng state
     = Ok (Some (mkDecision "raise" 30)).
Proof. split; reflexivity. Qed.

End DecisionFacts.

(** ** Seats *)

Lemma py_index_in_range {A : Type} (l : list A) (i : Z) (a : A) :
  0 <= i -> l !! Z.to_nat i = Some a -> py_index l i = Ok a.
Proof.
  intros Hi Hl. unfold py_index.
  apply lookup_lt_Some in Hl as Hlt.
  destruct (Z.ltb_spec i 0); [lia|].
  destruct (Z.leb_spec 0 i); [|lia].
  destruct (Z.ltb_spec i (Z.of_nat (length l))); [|lia].
  simpl. by rewrite Hl.
Qed.

Lemma py_index_past_end {A : Type} (l : list A) (i : Z) :
  Z.of_nat (length l) <= i -> py_index l i = Raise IndexError.
Proof.
  intros Hi. unfold py_index.
  destruct (Z.ltb_spec i 0); [lia|].
  destruct (Z.ltb_spec i (Z.of_nat (length l))); [lia|].
  by rewrite andb_false_r.
Qed.

Section SeatFacts.

Import Server.

Context {Snapshot : Type} (get_game_state : PokerGame -> option string -> Snapshot).


End SeatFacts.


(** ** The action handler and its automated-turn loop *)

Section ActionFacts.

Import Server.

Context {Key : Type} (eval_hand : list Card -> Z * Key) (new_deck : list Card).
Context {ActionResult : Type}
  (execute_action : PokerGame -> Z -> string -> Z -> ActionResult * PokerGame)
  (get_game_state : PokerGame -> option string -> MonteCarlo.State).

Local Abbreviation ai_loop :=
  (Server.ai_loop eval_hand new_deck execute_action get_game_state).
Local Abbreviation player_action :=
  (Server.player_action eval_hand new_deck execute_action get_game_state).

(** The loop goes on only below the cap, with the hand running and an
    automated player to act. *)
Lemma loop_test_continues game n i p :
  loop_test game n = Ok (Some (i, p)) ->
  n < max_ai_iterations /\ game_over game = false
  /\ current_player_index game = Some i
  /\ py_index (players game) i = Ok p /\ is_bot p = true.
Proof.
  unfold loop_test. destruct (game_over game); [done|].
  destruct (current_player_index game) as [j|]; [|done].
  destruct (py_index (players game) j) as [q|] eqn:Hq; simpl; [|done].
  destruct (is_bot q) eqn:Hb; simpl; [|done].
  destruct (Z.ltb_spec n max_ai_iterations); [|done].
  intros [= <- <-]. repeat split; done.
Qed.


Local Ltac stopped_run :=
  unfold rounds; simpl; repeat split;
  first [lia | apply Z.le_max_l | constructor].

(** With fuel for the rounds that remain below the cap, the loop ends; it
    ends with the counter at most at the cap, after as many rounds as the
    counter advanced, and without touching the lock. *)
Lemma ai_loop_ends fuel rngs thinks gid : forall n game result state messages,
  (Z.to_nat (max_ai_iterations - n) <= fuel)%nat ->
  exists run,
    ai_loop fuel rngs thinks gid n game result state messages = Some run
    /\ n <= run_iterations run <= Z.max n max_ai_iterations
    /\ Z.of_nat (rounds (run_events run)) = run_iterations run - n
    /\ Forall (fun e => is_lock e = false) (run_events run).
Proof.
  unfold max_ai_iterations.
  induction fuel as [|fuel IH]; intros n game result state messages Hfuel.
  - simpl. destruct (loop_test game n) as [[[i p]|]|e] eqn:Ht.
    + apply loop_test_continues in Ht as [Hn _].
      unfold max_ai_iterations in Hn. lia.
    + eexists. split; [done|]. stopped_run.
    + eexists. split; [done|]. stopped_run.
  - simpl. destruct (loop_test game n) as [[[i p]|]|e] eqn:Ht.
    + apply loop_test_continues in Ht as [Hn _].
      unfold max_ai_iterations in Hn.
      destruct (ai_decision _ _ _ _ _) as [d|e].
      * destruct (execute_action game i _ _) as [result' game'].
        destruct (IH (n + 1) game' result' (get_game_state game' None)
                     (messages ++ [Waited (name p)
                        (thinks (Z.to_nat (n + 1))) (MonteCarlo.move d)
                        (MonteCarlo.raise_amount d)]))
          as (run & -> & Hit & Hrounds & Hlock); [lia|].
        simpl. eexists. split; [done|]. simpl.
        split; [rewrite Z.max_r in * by lia; lia|]. split.
        -- unfold rounds in *. simpl. lia.
        -- repeat (constructor; [done|]). done.
      * eexists. split; [done|]. simpl.
        split; [rewrite Z.max_r by lia; lia|].
        split; [unfold rounds; simpl; lia|].
        repeat (constructor; [done|]). constructor.
    + eexists. split; [done|]. stopped_run.
    + eexists. split; [done|]. stopped_run.
Qed.


(** A seat index past the end of the seat list escapes [player_action] as
    an [IndexError]: the log line indexes [game.players] before anything
    is checked. The games are left as they were. *)
Lemma player_action_seat_past_end fuel rngs thinks games gid data game :
  games !! gid = Some game ->
  stage game <> "lobby" ->
  Z.of_nat (length (players game)) <= player_index data ->
  player_action fuel rngs thinks games gid data
  = Some (Uncaught IndexError, games, with_lock gid []).
Proof.
  intros Hg Hs Hi. unfold Server.player_action. rewrite Hg.
  rewrite bool_decide_eq_false_2 by done.
  by rewrite py_index_past_end.
Qed.

(** With fuel for twenty rounds the handler ends. *)
Lemma player_action_returns fuel rngs thinks games gid data :
  (Z.to_nat max_ai_iterations <= fuel)%nat ->
  exists outcome games' tr,
    player_action fuel rngs thinks games gid data
    = Some (outcome, games', tr).
Proof.
  intros Hfuel. unfold Server.player_action.
  destruct (games !! gid) as [game|]; [|eauto].
  case_bool_decide; [eauto|].
  destruct (py_index (players game) (player_index data)) as [p0|e]; [|eauto].
  destruct (execute_action game _ _ _) as [result g1].
  destruct (py_index (players g1) (player_index data)) as [p|e]; [|eauto].
  destruct (ai_loop_ends fuel rngs thinks gid 0 g1 result
              (get_game_state g1 None)
              [Chose (name p) (action data) (raise_amount data)])
    as (run & -> & _); [by rewrite Z.sub_0_r|].
  simpl. eauto.
Qed.

(** The events of [player_action]: none when the request is turned down
    before the lock is taken, otherwise the lock taken once at the start
    and released once at the end. *)
Lemma player_action_events fuel rngs thinks games gid data outcome games' tr :
  player_action fuel rngs thinks games gid data = Some (outcome, games', tr) ->
  tr = [] \/ exists body,
    tr = with_lock gid body /\ Forall (fun e => is_lock e = false) body.
Proof.
  unfold Server.player_action.
  destruct (games !! gid) as [game|]; [|intros [= <- <- <-]; by left].
  case_bool_decide; [intros [= <- <- <-]; by left|].
  destruct (py_index (players game) (player_index data)) as [p0|e];
    [|intros [= <- <- <-]; right; exists []; split; [done | constructor]].
  destruct (execute_action game _ _ _) as [result g1].
  destruct (py_index (players g1) (player_index data)) as [p|e].
  - destruct (le_gt_dec (Z.to_nat (max_ai_iterations - 0)) fuel) as [Hf|Hf].
    + destruct (ai_loop_ends fuel rngs thinks gid 0 g1 result
                  (get_game_state g1 None)
                  [Chose (name p) (action data) (raise_amount data)] Hf)
        as (run & -> & _ & _ & Hlock).
      simpl. intros [= <- <- <-]. right. eexists. split; [done|].
      repeat (constructor; [done|]). done.
    + destruct (Server.ai_loop _ _ _ _ _ _ _ _ _ _ _ _ _) as [run|] eqn:Hrun;
        [|done].
      simpl. intros [= <- <- <-]. right. eexists. split; [done|].
      repeat (constructor; [done|]).
      clear -Hrun. revert Hrun.
      generalize (get_game_state g1 None) as st.
      generalize [Chose (name p) (action data) (raise_amount data)] as ms.
      generalize 0 as n. revert g1 result run.
      induction fuel as [|fuel IH]; intros g1 result run n ms st; simpl.
      * destruct (loop_test g1 n) as [[[i q]|]|e]; [done|..];
          intros [= <-]; constructor.
      * destruct (loop_test g1 n) as [[[i q]|]|e];
          [|intros [= <-]; constructor..].
        destruct (ai_decision _ _ _ _ _) as [d|e].
        -- destruct (execute_action g1 i _ _) as [result' game'].
           destruct (Server.ai_loop _ _ _ _ fuel _ _ _ _ _ _ _ _)
             as [run'|] eqn:Hrun'; [|done].
           simpl. intros [= <-]. simpl.
           repeat (constructor; [done|]). by eapply IH.
        -- intros [= <-]. simpl. repeat (constructor; [done|]). constructor.
  - intros [= <- <- <-]. right. eexists. split; [done|].
    repeat (constructor; [done|]). constructor.
Qed.

(** While the lock is held and nobody touches it, every delay finds it
    held. *)
Lemma lock_at_sleeps_held gid body rest :
  Forall (fun e => is_lock e = false) body ->
  lock_at_sleeps gid true (body ++ rest)
  = repeat true (rounds body) ++ lock_at_sleeps gid true rest.
Proof.
  unfold rounds. induction 1 as [|e body He _ IH]; [done|].
  destruct e; simpl in *; try done. by rewrite IH.
Qed.

(** C3, as amended: the think-time delay of every automated turn is
    executed while the handler holds the lock of the session. A run of
    [player_action] that reaches the lock takes it once, before its first
    step, and releases it once, when it ends; every delay, every call of
    the decision engine, every [execute_action] and every broadcast lies
    in between. *)
Theorem think_time_runs_under_lock (fuel : nat)
    (rngs : nat -> MonteCarlo.Rng) (thinks : nat -> Q)
    (games : gmap string PokerGame) (gid : string) (data : ActionData)
    (outcome : Outcome (Response ActionResult))
    (games' : gmap string PokerGame) (tr : list Event) :
  player_action fuel rngs thinks games gid data = Some (outcome, games', tr) ->
  (tr = [] \/ exists body,
     tr = with_lock gid body /\ Forall (fun e => is_lock e = false) body)
  /\ lock_at_sleeps gid false tr = repeat true (rounds tr).
Proof.
  intros Hrun.
  pose proof (player_action_events _ _ _ _ _ _ _ _ _ Hrun) as Hev.
  split; [exact Hev|].
  destruct Hev as [->|(body & -> & Hbody)]; [done|].
  unfold with_lock. simpl. rewrite bool_decide_eq_true_2 by done.
  rewrite lock_at_sleeps_held by done. simpl.
  unfold rounds. simpl. rewrite List.filter_app, length_app. simpl.
  by rewrite !app_nil_r, Nat.add_0_r.
Qed.

End ActionFacts.


(** With an engine that never advances the actor, the loop runs exactly
    to the cap: twenty rounds, and the handler returns. *)
Lemma ai_loop_reaches_cap_on_stuck_engine :
  exists run,
    Server.ai_loop SpecModel.eval_hand SpecModel.new_deck
      Sample.execute_action Sample.get_game_state 20 Sample.rngs
      Sample.thinks "table1" 0 Sample.table tt
      (Sample.get_game_state Sample.table None) [] = Some run
    /\ Server.run_iterations run = 20
    /\ rounds (Server.run_events run) = 20%nat
    /\ Server.run_game run = Sample.table
    /\ exists r, Server.run_end run = Ok r.
Proof. eexists. split; [vm_compute; reflexivity|]. simpl. eauto. Qed.

(** C2: the code at the failing input. A submit-action command for seat 5
    of a two-seat table is not rejected: an [IndexError] escapes the
    handler. The games are unchanged. [join_seat], given the same index,
    rejects it with status 400. *)
Theorem player_action_seat_out_of_range_escapes (fuel : nat) :
  Server.player_action SpecModel.eval_hand SpecModel.new_deck
    Sample.execute_action Sample.get_game_state fuel Sample.rngs
    Sample.thinks Sample.games "table1" (Server.mkActionData 5 "fold" 0)
  = Some (Server.Uncaught IndexError, Sample.games,
          Server.with_lock "table1" [])
  /\ Server.join_seat Sample.get_game_state Sample.games "lobby1"
       (Server.mkJoinSeatRequest "Bob" 5)
     = (Server.HTTPException 400 "Invalid seat index", Sample.games,
        Server.with_lock "lobby1" []).
Proof.
  split; [|reflexivity].
  apply (player_action_seat_past_end _ _ _ _ _ _ _ _ _ _ Sample.table).
  - reflexivity.
  - discriminate.
  - simpl. lia.
Qed.

(** The amended C3 at a concrete input: a check by the human player of the
    sample table, followed by the automated turns. *)
Lemma think_time_runs_under_lock_witness :
  exists outcome games' tr,
    Server.player_action SpecModel.eval_hand SpecModel.new_deck
      Sample.execute_action Sample.get_game_state 20 Sample.rngs
      Sample.thinks Sample.games "table1" (Server.mkActionData 0 "check" 0)
    = Some (outcome, games', tr)
    /\ (tr = [] \/ exists body,
          tr = Server.with_lock "table1" body
          /\ Forall (fun e => is_lock e = false) body)
    /\ lock_at_sleeps "table1" false tr = repeat true (rounds tr).
Proof.
  eexists _, _, _. split; [vm_compute; reflexivity|].
  eapply (think_time_runs_under_lock SpecModel.eval_hand SpecModel.new_deck
            Sample.execute_action Sample.get_game_state 20 Sample.rngs
            Sample.thinks Sample.games "table1"
            (Server.mkActionData 0 "check" 0)).
  vm_compute. reflexivity.
Defined.

(** C3 as stated fails: in the run above there are twenty delays, and the
    lock of the session is held during each of them. *)
Lemma think_time_delay_holds_lock :
  exists outcome games' tr,
    Server.player_action SpecModel.eval_hand SpecModel.new_deck
      Sample.execute_action Sample.get_game_state 20 Sample.rngs
      Sample.thinks Sample.games "table1" (Server.mkActionData 0 "check" 0)
    = Some (outcome, games', tr)
    /\ lock_at_sleeps "table1" false tr = repeat true 20
    /\ ~ Forall (fun held => held = false) (lock_at_sleeps "table1" false tr).
Proof.
  eexists _, _, _. split; [vm_compute; reflexivity|].
  split; [vm_compute; reflexivity|].
  intros H. vm_compute in H. inversion H. discriminate.
Qed.

(** ** The lobby countdown *)

Section LobbyFacts.

Import Server.

Context (play_hand : PokerGame -> PokerGame).





End LobbyFacts.


(** ** The connection registry *)

Section RegistryFacts.

Import Registry.

(** C10: [upgrade_connection_to_player] returns [True] exactly for a
    registered websocket, and then binds whatever name and seat index it is
    given to that connection (role player), whatever the seats of any game
    are; for an unregistered websocket it returns [False] and changes
    nothing. Either way only the [ConnectionState] is written: the two
    dictionaries of the manager stay as they are, every other connection
    keeps its state, and the endpoint that calls it leaves the games
    untouched. *)
Theorem upgrade_binds_any_name_and_seat (self : ConnectionManager)
    (websocket : WebSocket) (player : string) (seat : Z) :
  let ok := (upgrade_connection_to_player self websocket player seat).1 in
  let self' := (upgrade_connection_to_player self websocket player seat).2 in
  (ok = true <-> is_Some (ws_to_state self !! websocket))
  /\ (forall r c, ws_to_state self !! websocket = Some r ->
        objects self !! r = Some c ->
        objects self' !! r
        = Some (mkConnectionState (ws c) (connection_id c) "player"
                  (Some player) (game_id c) (Some seat)))
  /\ (forall r r', ws_to_state self !! websocket = Some r -> r' <> r ->
        objects self' !! r' = objects self !! r')
  /\ (ws_to_state self !! websocket = None -> self' = self)
  /\ game_connections self' = game_connections self
  /\ ws_to_state self' = ws_to_state self
  /\ (forall (Snapshot : Type)
        (get_game_state : Server.PokerGame -> option string -> Snapshot)
        (games : gmap string Server.PokerGame) (gid : string),
        Server.games
          (Server.on_upgrade_to_player get_game_state
             (Server.mkGlobals games self) gid websocket player seat).1
        = games).
Proof.
  intros ok self'. subst ok self'. unfold upgrade_connection_to_player.
  destruct (ws_to_state self !! websocket) as [r|] eqn:Hws; simpl.
  - split; [split; eauto|].
    split; [intros ? c [= <-] Hc; by rewrite lookup_alter_eq, Hc|].
    split; [intros ? r' [= <-] Hne; by rewrite lookup_alter_ne|].
    split; [done|]. split; [done|]. split; [done|].
    intros Snapshot get_game_state games gid.
    unfold Server.on_upgrade_to_player, upgrade_connection_to_player.
    simpl. rewrite Hws. by destruct (games !! gid).
  - split; [split; [done | by intros [? ?]]|].
    split; [done|]. split; [done|]. split; [done|].
    split; [done|]. split; [done|].
    intros Snapshot get_game_state games gid.
    unfold Server.on_upgrade_to_player, upgrade_connection_to_player.
    simpl. by rewrite Hws.
Qed.

Lemma elem_of_list_remove r l x :
  NoDup l -> x ∈ list_remove r l <-> x ∈ l /\ x <> r.
Proof.
  induction l as [|a l IH]; simpl; intros Hnd.
  - split; [by intros ?%elem_of_nil | by intros [?%elem_of_nil _]].
  - apply NoDup_cons in Hnd as [Ha Hnd]. case_decide.
    + subst a. rewrite elem_of_cons. split.
      * intros Hx. split; [by right | by intros ->].
      * by intros [[->|Hx] Hne].
    + rewrite !elem_of_cons, IH by done. split.
      * intros [->|[Hx Hne]]; split; auto.
      * intros [[->|Hx] Hne]; auto.
Qed.

Lemma NoDup_list_remove r l : NoDup l -> NoDup (list_remove r l).
Proof.
  induction l as [|a l IH]; simpl; intros Hnd; [done|].
  apply NoDup_cons in Hnd as [Ha Hnd]. case_decide; [done|].
  apply NoDup_cons. split; [|by apply IH].
  rewrite elem_of_list_remove by done. by intros [? _].
Qed.

(** Disconnecting the websocket of a connection listed for the game takes
    that connection out of the list and its websocket out of
    [ws_to_state]. *)
Lemma disconnect_member m gid conns r c :
  registry_wf m ->
  game_connections m !! gid = Some conns ->
  r ∈ conns ->
  objects m !! r = Some c ->
  disconnect m gid (ws c)
  = mkConnectionManager (objects m)
      (<[gid := list_remove r conns]> (game_connections m))
      (delete (ws c) (ws_to_state m)) (connection_counter m).
Proof.
  intros Hwf Hgc Hr Hc.
  destruct (Hwf gid conns Hgc) as [_ Hall].
  destruct (Hall r Hr) as (_ & c' & Hc' & Hws & _).
  assert (c' = c) as -> by congruence.
  unfold disconnect. rewrite Hws, Hgc.
  by rewrite bool_decide_eq_true_2.
Qed.

Lemma disconnect_member_wf m gid conns r c :
  registry_wf m ->
  game_connections m !! gid = Some conns ->
  r ∈ conns ->
  objects m !! r = Some c ->
  registry_wf (disconnect m gid (ws c)).
Proof.
  intros Hwf Hgc Hr Hc.
  rewrite (disconnect_member m gid conns r c) by done.
  destruct (Hwf gid conns Hgc) as [Hnd Hall].
  destruct (Hall r Hr) as (_ & c0 & Hc0 & Hws & Hgame).
  assert (c0 = c) as -> by congruence.
  intros gid2 conns2. simpl. rewrite lookup_insert.
  case_decide as Hg.
  - subst gid2. intros [= <-]. split; [by apply NoDup_list_remove|].
    intros x [Hx Hne]%elem_of_list_remove; [|done].
    destruct (Hall x Hx) as (Hle & cx & Hcx & Hwx & Hgx).
    split; [done|]. exists cx. split; [done|]. split; [|done].
    rewrite lookup_delete_ne; [done|]. intros Heq.
    rewrite <- Heq in Hwx. congruence.
  - intros Hgc2. destruct (Hwf gid2 conns2 Hgc2) as [Hnd2 Hall2].
    split; [done|]. intros x Hx.
    destruct (Hall2 x Hx) as (Hle & cx & Hcx & Hwx & Hgx).
    split; [done|]. exists cx. split; [done|]. split; [|done].
    rewrite lookup_delete_ne; [done|]. intros Heq.
    rewrite <- Heq in Hwx. assert (x = r) as -> by congruence.
    assert (cx = c) as -> by congruence. congruence.
Qed.

Lemma targets_lookup m gid x :
  x ∈ targets m gid
  <-> exists conns, game_connections m !! gid = Some conns /\ x ∈ conns.
Proof.
  unfold targets. destruct (game_connections m !! gid) as [conns|]; simpl.
  - split; [eauto | by intros (? & [= <-] & ?)].
  - split; [by intros ?%elem_of_nil | by intros (? & ? & ?)].
Qed.

(** Pruning: every connection of the removal list leaves the list of the
    game and loses its entry of [ws_to_state]; the other connections
    stay, no object changes, and the registry stays well formed. *)
Lemma prune_spec gid rl : forall m,
  registry_wf m ->
  (forall r, r ∈ rl -> r ∈ targets m gid) ->
  NoDup rl ->
  registry_wf (prune m gid rl)
  /\ objects (prune m gid rl) = objects m
  /\ (forall x, x ∈ targets (prune m gid rl) gid
                <-> x ∈ targets m gid /\ x ∉ rl)
  /\ (forall w, ws_to_state m !! w = None
                \/ (exists r c, r ∈ rl /\ objects m !! r = Some c /\ ws c = w) ->
                ws_to_state (prune m gid rl) !! w = None).
Proof.
  induction rl as [|r rl IH]; intros m Hwf Hsub Hnd.
  - simpl. split; [done|]. split; [done|]. split.
    + intros x. rewrite elem_of_nil. tauto.
    + intros w [?|(? & ? & []%elem_of_nil & _)]. done.
  - apply NoDup_cons in Hnd as [Hr Hnd].
    assert (Hrt : r ∈ targets m gid) by (apply Hsub; left).
    apply targets_lookup in Hrt as (conns & Hgc & Hrc).
    destruct (Hwf gid conns Hgc) as [Hndc Hall].
    destruct (Hall r Hrc) as (_ & c & Hc & Hws & _).
    unfold prune. simpl. rewrite Hc. fold (prune (disconnect m gid (ws c)) gid rl).
    pose proof (disconnect_member_wf m gid conns r c Hwf Hgc Hrc Hc) as Hwf1.
    pose proof (disconnect_member m gid conns r c Hwf Hgc Hrc Hc) as Hm1.
    assert (Ht1 : forall x, x ∈ targets (disconnect m gid (ws c)) gid
                            <-> x ∈ targets m gid /\ x <> r).
    { intros x. rewrite Hm1. unfold targets. simpl.
      rewrite lookup_insert_eq, Hgc. simpl.
      by apply elem_of_list_remove. }
    destruct (IH (disconnect m gid (ws c))) as (Hwf2 & Hobj & Ht2 & Hw2);
      [done| |done|].
    { intros x Hx. apply Ht1. split; [apply Hsub; by right|].
      intros ->. done. }
    split; [done|]. split; [by rewrite Hobj, Hm1|]. split.
    + intros x. rewrite Ht2, Ht1, elem_of_cons. tauto.
    + intros w Hw. apply Hw2. rewrite Hm1. simpl.
      destruct Hw as [Hw|(r' & c' & [->|Hr']%elem_of_cons & Hc' & <-)].
      * left. rewrite lookup_delete. case_decide; done.
      * left. assert (c' = c) as -> by congruence. apply lookup_delete_eq.
      * right. eauto.
Qed.

Section BroadcastFacts.

Context {Game Snapshot : Type}
  (get_game_state : Game -> option string -> Res Snapshot).

Local Abbreviation broadcast := (Registry.broadcast get_game_state).
Local Abbreviation send_all := (Registry.send_all get_game_state).

(** The sending loop delivers to the connections whose send returns and
    puts the others, in order, on the removal list. *)
Lemma send_all_spec send_json objs payload conns :
  send_all send_json objs payload conns
  = (omap (fun r => pair r <$> delivery get_game_state send_json objs payload r) conns,
     filter (fun r => delivery get_game_state send_json objs payload r = None) conns).
Proof.
  induction conns as [|r conns IH]; [done|].
  cbn [Registry.send_all]. rewrite IH. cbn [omap list_omap].
  rewrite filter_cons. unfold delivery.
  destruct (objs !! r) as [c|]; simpl; [|done].
  destruct (message_for get_game_state payload c) as [msg|e]; simpl; [|done].
  by destruct (send_json (ws c) msg).
Qed.

Lemma broadcast_unfold send_json m gid payload :
  broadcast send_json m gid payload
  = (prune m gid
       (filter (fun r => delivery get_game_state send_json (objects m) payload r = None)
               (targets m gid)),
     omap (fun r => pair r <$> delivery get_game_state send_json (objects m) payload r)
          (targets m gid)).
Proof. unfold Registry.broadcast. by rewrite send_all_spec. Qed.

(** A broadcast keeps the registry well formed. *)
Lemma broadcast_wf send_json m gid payload :
  registry_wf m -> registry_wf (broadcast send_json m gid payload).1.
Proof.
  intros Hwf. rewrite broadcast_unfold. simpl.
  apply prune_spec; [done| |].
  - by intros r [_ ?]%list_elem_of_filter.
  - apply NoDup_filter. unfold targets.
    destruct (game_connections m !! gid) as [conns|] eqn:Hgc; simpl.
    + by destruct (Hwf gid conns Hgc).
    + constructor.
Qed.

(** C8: in a broadcast of a game object over a well-formed registry,
    every viewer of the session whose snapshot is built and whose send
    returns is sent the snapshot personalized for it and stays registered,
    whatever happens to the others; every viewer whose send fails is taken
    out of the list of the session and out of [ws_to_state], so that no
    later broadcast sends to it. The connection objects are not changed;
    the game is only read. *)
Theorem broadcast_isolates_failures
    (send_json : WebSocket -> Message Snapshot -> bool)
    (m : ConnectionManager) (gid : string) (g : Game)
    (r : ConnRef) (c : ConnectionState) :
  registry_wf m ->
  r ∈ targets m gid ->
  objects m !! r = Some c ->
  let m' := (broadcast send_json m gid (GameObject g)).1 in
  let sent := (broadcast send_json m gid (GameObject g)).2 in
  let viewer_name := if is_player c then player_name c else None in
  (forall snap, get_game_state g viewer_name = Ok snap ->
     send_json (ws c) (StateUpdate snap) = true ->
     (r, StateUpdate snap) ∈ sent /\ r ∈ targets m' gid)
  /\ ((forall snap, get_game_state g viewer_name = Ok snap ->
         send_json (ws c) (StateUpdate snap) = false) ->
      (r ∉ targets m' gid)
      /\ ws_to_state m' !! ws c = None
      /\ forall send_json' payload',
           r ∉ (broadcast send_json' m' gid payload').2.*1)
  /\ objects m' = objects m.
Proof.
  intros Hwf Hr Hc m' sent viewer_name. subst m' sent.
  rewrite broadcast_unfold. simpl.
  set (rl := filter _ (targets m gid)).
  destruct (prune_spec gid rl m) as (Hwf' & Hobj & Ht & Hw); [done| |..].
  { by intros x [_ ?]%list_elem_of_filter. }
  { apply NoDup_filter. unfold targets.
    destruct (game_connections m !! gid) as [conns|] eqn:Hgc; simpl.
    - by destruct (Hwf gid conns Hgc).
    - constructor. }
  assert (Hd : delivery get_game_state send_json (objects m) (GameObject g) r
               = match get_game_state g viewer_name with
                 | Ok snap =>
                     if send_json (ws c) (StateUpdate snap)
                     then Some (StateUpdate snap) else None
                 | Raise _ => None
                 end).
  { unfold delivery. rewrite Hc. simpl.
    fold viewer_name. by destruct (get_game_state g viewer_name). }
  split; [|split; [|done]].
  - intros snap Hsnap Hsend. rewrite Hsnap, Hsend in Hd. split.
    + apply list_elem_of_omap. exists r. split; [done|]. by rewrite Hd.
    + apply Ht. split; [done|]. subst rl.
      rewrite list_elem_of_filter, Hd. by intros [? _].
  - intros Hfail.
    assert (Hnone : delivery get_game_state send_json (objects m) (GameObject g) r = None).
    { rewrite Hd. destruct (get_game_state g viewer_name) as [snap|];
        [|done]. by rewrite (Hfail snap). }
    assert (Hrl : r ∈ rl) by (subst rl; by apply list_elem_of_filter).
    assert (Hgone : r ∉ targets (prune m gid rl) gid).
    { rewrite Ht. by intros [_ ?]. }
    split; [done|]. split.
    + apply Hw. right. eauto.
    + intros send_json' payload'. rewrite broadcast_unfold. simpl.
      intros Hin. apply Hgone.
      apply list_elem_of_fmap in Hin as ([r' msg] & -> & Hin).
      apply list_elem_of_omap in Hin as (r'' & Hr'' & Hsome).
      destruct (delivery _ _ _ _ r'') as [msg'|]; simpl in Hsome; [|done].
      by injection Hsome as -> _.
Qed.

End BroadcastFacts.

(** The empty registry is well formed, and [connect] keeps it so for a
    websocket that is not registered yet. *)
Lemma init_wf : registry_wf init.
Proof. intros gid conns Hgc. simpl in Hgc. by rewrite lookup_empty in Hgc. Qed.

Lemma connect_wf m gid websocket :
  registry_wf m ->
  ws_to_state m !! websocket = None ->
  registry_wf (connect m gid websocket).2.
Proof.
  intros Hwf Hfresh gid2 conns2. unfold connect. simpl.
  rewrite lookup_insert. case_decide as Hg.
  - subst gid2. intros [= <-].
    destruct (game_connections m !! gid) as [conns|] eqn:Hgc; simpl.
    + destruct (Hwf gid conns Hgc) as [Hnd Hall]. split.
      * apply NoDup_app. split; [done|]. split; [|apply NoDup_singleton].
        intros x Hx ->%list_elem_of_singleton.
        destruct (Hall _ Hx) as [Hle _]. lia.
      * intros x [Hx| ->%list_elem_of_singleton]%elem_of_app.
        -- destruct (Hall x Hx) as (Hle & cx & Hcx & Hwx & Hgx).
           split; [lia|]. exists cx.
           rewrite lookup_insert_ne by lia. split; [done|].
           split; [|done]. rewrite lookup_insert_ne; [done|]. congruence.
        -- split; [lia|]. eexists. rewrite lookup_insert_eq.
           split; [done|]. simpl. by rewrite lookup_insert_eq.
    + split; [apply NoDup_singleton|].
      intros x ->%list_elem_of_singleton.
      split; [lia|]. eexists. rewrite lookup_insert_eq.
      split; [done|]. simpl. by rewrite lookup_insert_eq.
  - intros Hgc2. destruct (Hwf gid2 conns2 Hgc2) as [Hnd Hall].
    split; [done|]. intros x Hx.
    destruct (Hall x Hx) as (Hle & cx & Hcx & Hwx & Hgx).
    split; [lia|]. exists cx.
    rewrite lookup_insert_ne by lia. split; [done|].
    split; [|done]. rewrite lookup_insert_ne; [done|]. congruence.
Qed.

(** [disconnect] keeps the registry well formed when it is called, as the
    endpoint and [broadcast] call it, with the game the connection was made
    for. *)
Lemma disconnect_wf m gid websocket :
  registry_wf m ->
  (forall r, ws_to_state m !! websocket = Some r ->
     exists c, objects m !! r = Some c /\ ws c = websocket
               /\ game_id c = Some gid) ->
  registry_wf (disconnect m gid websocket).
Proof.
  intros Hwf Hown. unfold disconnect.
  destruct (ws_to_state m !! websocket) as [r|] eqn:Hws; [|done].
  destruct (Hown r eq_refl) as (c & Hc & Hwc & Hgc). subst websocket.
  destruct (game_connections m !! gid) as [conns|] eqn:Hconns.
  - case_bool_decide as Hin.
    + pose proof (disconnect_member_wf m gid conns r c Hwf Hconns Hin Hc) as H.
      by rewrite (disconnect_member m gid conns r c) in H.
    + intros gid2 conns2 Hgc2. simpl in *.
      destruct (Hwf gid2 conns2 Hgc2) as [Hnd Hall]. split; [done|].
      intros x Hx. destruct (Hall x Hx) as (Hle & cx & Hcx & Hwx & Hgx).
      split; [done|]. exists cx. split; [done|]. split; [|done].
      rewrite lookup_delete_ne; [done|]. intros Heq.
      rewrite <- Heq in Hwx. assert (x = r) as -> by congruence.
      assert (cx = c) as -> by congruence.
      assert (gid2 = gid) as -> by congruence.
      assert (conns2 = conns) as -> by congruence. done.
  - intros gid2 conns2 Hgc2. simpl in *.
    destruct (Hwf gid2 conns2 Hgc2) as [Hnd Hall]. split; [done|].
    intros x Hx. destruct (Hall x Hx) as (Hle & cx & Hcx & Hwx & Hgx).
    split; [done|]. exists cx. split; [done|]. split; [|done].
    rewrite lookup_delete_ne; [done|]. intros Heq.
    rewrite <- Heq in Hwx. assert (x = r) as -> by congruence.
    assert (cx = c) as -> by congruence.
    assert (gid2 = gid) as -> by congruence. congruence.
Qed.

Lemma downgrade_wf m websocket :
  registry_wf m ->
  registry_wf (downgrade_connection_to_spectator m websocket).2.
Proof.
  intros Hwf. unfold downgrade_connection_to_spectator.
  destruct (ws_to_state m !! websocket) as [r|]; [|done].
  intros gid conns Hgc. simpl in *.
  destruct (Hwf gid conns Hgc) as [Hnd Hall]. split; [done|].
  intros x Hx. destruct (Hall x Hx) as (Hle & cx & Hcx & Hwx & Hgx).
  split; [done|]. rewrite lookup_alter. case_decide; simplify_eq.
  - rewrite Hcx. simpl. eauto.
  - eauto.
Qed.

Lemma upgrade_wf m websocket player seat :
  registry_wf m ->
  registry_wf (upgrade_connection_to_player m websocket player seat).2.
Proof.
  intros Hwf. unfold upgrade_connection_to_player.
  destruct (ws_to_state m !! websocket) as [r|]; [|done].
  intros gid conns Hgc. simpl in *.
  destruct (Hwf gid conns Hgc) as [Hnd Hall]. split; [done|].
  intros x Hx. destruct (Hall x Hx) as (Hle & cx & Hcx & Hwx & Hgx).
  split; [done|]. rewrite lookup_alter. case_decide; simplify_eq.
  - rewrite Hcx. simpl. eauto.
  - eauto.
Qed.

End RegistryFacts.

Lemma sample_manager_wf : registry_wf Sample.manager.
Proof.
  unfold Sample.manager.
  apply connect_wf; [apply connect_wf; [apply init_wf | reflexivity]|].
  reflexivity.
Qed.

(** C8 at a concrete input: of the two viewers of the sample table the
    first has a broken socket; the second gets its snapshot, the first is
    gone from the registry afterwards. *)
Lemma broadcast_isolates_failures_witness :
  let get_game_state g v := Ok (Sample.get_game_state g v) in
  let m' := (Registry.broadcast get_game_state Sample.send_json
               Sample.manager "table1" (Registry.GameObject Sample.table)).1 in
  let sent := (Registry.broadcast get_game_state Sample.send_json
                 Sample.manager "table1" (Registry.GameObject Sample.table)).2 in
  (2%nat, Registry.StateUpdate (Sample.get_game_state Sample.table None)) ∈ sent
  /\ (2%nat ∈ targets m' "table1")
  /\ (1%nat ∉ targets m' "table1")
  /\ Registry.ws_to_state m' !! 7%nat = None.
Proof.
  intros get_game_state m' sent.
  pose proof (broadcast_isolates_failures get_game_state Sample.send_json
                Sample.manager "table1" Sample.table 2%nat
                (Registry.mkConnectionState 8%nat 2%nat "spectator" None
                   (Some "table1") None)
                sample_manager_wf) as H2.
  pose proof (broadcast_isolates_failures get_game_state Sample.send_json
                Sample.manager "table1" Sample.table 1%nat
                (Registry.mkConnectionState 7%nat 1%nat "spectator" None
                   (Some "table1") None)
                sample_manager_wf) as H1.
  destruct H2 as (Hsent & _ & _).
  { apply (bool_decide_unpack _). vm_compute. exact I. }
  { reflexivity. }
  destruct H1 as (_ & Hgone & _).
  { apply (bool_decide_unpack _). vm_compute. exact I. }
  { reflexivity. }
  destruct (Hsent _ eq_refl eq_refl) as [Hs Ht].
  destruct Hgone as (Hg & Hw & _).
  { intros snap [= <-]. reflexivity. }
  repeat split; assumption.
Defined.

(** C10 at a concrete input: a viewer of the two-seat sample table binds
    itself to seat 99 under a name nobody sits under. *)
Lemma upgrade_binds_any_name_and_seat_witness :
  (Registry.upgrade_connection_to_player Sample.manager 8%nat "Mallory" 99).1
  = true
  /\ Registry.objects
       (Registry.upgrade_connection_to_player Sample.manager 8%nat
          "Mallory" 99).2 !! 2%nat
     = Some (Registry.mkConnectionState 8%nat 2%nat "player" (Some "Mallory")
               (Some "table1") (Some 99)).
Proof.
  pose proof (upgrade_binds_any_name_and_seat Sample.manager 8%nat
                "Mallory" 99) as (Hok & Hbind & _).
  split.
  - apply Hok. eexists. reflexivity.
  - apply (Hbind 2%nat (Registry.mkConnectionState 8%nat 2%nat "spectator" None
                          (Some "table1") None)); reflexivity.
Defined.

(** * Further properties of the code *)

Local Ltac in_list :=
  rewrite ?elem_of_cons, ?elem_of_nil in *; intuition congruence.

(** ** Cards and the estimator *)

Lemma but_last_last_char s a :
  last_char s = Some a -> (but_last s ++ String a EmptyString)%string = s.
Proof.
  induction s as [|b s IH]; [done|].
  destruct s as [|b' s'].
  - simpl. by intros [= ->].
  - intros H.
    change (last_char (String b' s') = Some a) in H.
    change ((String b (but_last (String b' s') ++ String a EmptyString))%string
            = String b (String b' s')).
    by rewrite (IH H).
Qed.

Lemma last_char_none s : last_char s = None -> s = EmptyString.
Proof.
  induction s as [|b s IH]; [done|].
  destruct s as [|b' s']; [done|]. intros H.
  by specialize (IH H).
Qed.

(** X1: [_parse_card] splits a non-empty string into everything before
    its last character (the rank) and that character (the suit), so that
    rank followed by suit spells the string again; it raises [IndexError]
    on the empty string and on nothing else. *)
Theorem parse_card_splits_at_last_character (s : string) :
  match _parse_card s with
  | Ok c =>
      s <> EmptyString
      /\ (rank c ++ suit c)%string = s
      /\ String.length (suit c) = 1%nat
  | Raise e => s = EmptyString /\ e = IndexError
  end.
Proof.
  unfold _parse_card. destruct (last_char s) as [a|] eqn:Hl.
  - simpl. split; [by intros ->|]. split; [by apply but_last_last_char|done].
  - split; [by apply last_char_none | done].
Qed.

Section EstimatorBounds.

Context {Key : Type} (eval_hand : list Card -> Z * Key).

Lemma run_trials_between shuffles h c opponents deck k : forall i wins wins',
  MonteCarlo.run_trials eval_hand shuffles h c opponents deck k i wins
  = Ok wins' ->
  wins <= wins' <= wins + Z.of_nat k.
Proof.
  induction k as [|k IH]; intros i wins wins'; simpl.
  - intros [= <-]. lia.
  - destruct (MonteCarlo.trial _ _ _ _ _) as [w|]; simpl; [|done].
    intros H%IH. destruct w; lia.
Qed.

(** X2: whatever [estWin] returns is a probability: between 0 and 1. *)
Theorem estWin_between_0_and_1 (new_deck : list Card) (simulations : Z)
    (shuffles : nat -> list Card -> list Card)
    (hand community : list string) (opponents : Z) (p : Q) :
  MonteCarlo.estWin eval_hand new_deck simulations shuffles hand community
    opponents = Ok p ->
  (0 <= p <= 1)%Q.
Proof.
  unfold MonteCarlo.estWin. destruct hand as [|s hand].
  - intros [= <-]. split; discriminate.
  - destruct (mapR _parse_card (s :: hand)) as [h|]; simpl; [|done].
    destruct (mapR _parse_card community) as [c|]; simpl; [|done].
    destruct (MonteCarlo.run_trials _ _ _ _ _ _ _ _ _) as [wins|] eqn:Hr;
      simpl; [|done].
    apply run_trials_between in Hr.
    destruct (Z.eqb_spec simulations 0) as [|Hn]; [done|].
    intros [= <-].
    destruct (Z.lt_ge_cases 0 simulations) as [Hpos|Hneg].
    + assert (Hq : (0 < inject_Z simulations)%Q)
        by (rewrite <- (Zlt_Qlt 0); exact Hpos).
      split.
      * apply Qle_shift_div_l; [done|]. rewrite Qmult_0_l.
        rewrite <- (Zle_Qle 0). lia.
      * apply Qle_shift_div_r; [done|]. rewrite Qmult_1_l.
        rewrite <- Zle_Qle. lia.
    + assert (wins = 0) as -> by lia.
      unfold Qdiv. rewrite Qmult_0_l. split; discriminate.
Qed.

(** X3: without opponents every trial is a win: for a non-empty hand, a
    positive simulation count and a reduced deck that can complete the
    board, [estWin] returns 1. *)
Theorem estWin_alone_is_certain (new_deck : list Card) (simulations : Z)
    (shuffles : nat -> list Card -> list Card)
    (hand community : list string) (opponents : Z) (h c : list Card) :
  hand <> [] ->
  0 < simulations ->
  opponents <= 0 ->
  mapR _parse_card hand = Ok h ->
  mapR _parse_card community = Ok c ->
  let deck := filter (fun x => x ∉ h ++ c) new_deck in
  (forall i, length (shuffles i deck) = length deck) ->
  (5 - length c <= length deck)%nat ->
  exists p,
    MonteCarlo.estWin eval_hand new_deck simulations shuffles hand community
      opponents = Ok p
    /\ (p == 1)%Q.
Proof.
  intros Hhand Hn Hopp Hh Hc deck Hlen Hsize.
  assert (Htrial : forall j,
            MonteCarlo.trial eval_hand h c opponents (shuffles j deck)
            = Ok true).
  { intros j. unfold MonteCarlo.trial.
    destruct (sim_deal_enough c opponents (shuffles j deck))
      as (board & opps & Hdeal & _ & Hopps).
    { rewrite Hlen. replace (Z.to_nat opponents) with 0%nat by lia. lia. }
    rewrite Hdeal. simpl.
    replace (Z.to_nat opponents) with 0%nat in Hopps by lia.
    destruct opps; [done | done]. }
  unfold MonteCarlo.estWin. destruct hand as [|s hand]; [done|].
  rewrite Hh, Hc. simpl. fold deck.
  rewrite (run_trials_counts eval_hand shuffles h c opponents deck)
    by (intros j; rewrite Htrial; eauto).
  simpl. destruct (Z.eqb_spec simulations 0); [lia|].
  eexists. split; [done|].
  assert (Hall : forall k i,
            length (filter
              (fun j => won (MonteCarlo.trial eval_hand h c opponents
                               (shuffles j deck)) = true) (seq i k)) = k).
  { induction k as [|k IH]; intros i; [done|]. simpl seq.
    rewrite filter_cons, Htrial. simpl. by rewrite IH. }
  rewrite Hall, Z2Nat.id by lia. rewrite Z.add_0_l.
  apply Qmult_inv_r. intros Heq.
  apply (Qlt_irrefl 0). rewrite <- Heq at 2. rewrite <- (Zlt_Qlt 0). lia.
Qed.

End EstimatorBounds.

(** The cards a trial draws are a prefix of its deck: first the cards that
    complete the board, then the opponents' hands one after the other. *)
Lemma fill_board_prefix k : forall b d b' d',
  MonteCarlo.fill_board k b d = Ok (b', d') ->
  exists drawn, b' = b ++ drawn /\ d = drawn ++ d'.
Proof.
  induction k as [|k IH]; intros b d b' d'; simpl.
  - intros [= <- <-]. exists []. by rewrite app_nil_r.
  - unfold deal. case_decide; simpl; [|done].
    intros (drawn & -> & Hd)%IH. exists (take 1 d ++ drawn).
    split; [by rewrite app_assoc|].
    by rewrite <- app_assoc, <- Hd, take_drop.
Qed.

Lemma deal_opponents_prefix k : forall d hs d',
  MonteCarlo.deal_opponents k d = Ok (hs, d') -> d = concat hs ++ d'.
Proof.
  induction k as [|k IH]; intros d hs d'; simpl.
  - by intros [= <- <-].
  - unfold deal. case_decide; simpl; [|done].
    destruct (MonteCarlo.deal_opponents k (drop 2 d)) as [[hs1 d1]|] eqn:Hk;
      simpl; [|done].
    intros [= <- <-]. apply IH in Hk. simpl.
    by rewrite <- app_assoc, <- Hk, take_drop.
Qed.

(** X4: no card is used twice in a trial. When the fresh deck has no
    duplicates and the trial's deck is a shuffle of the reduced deck, the
    cards added to the board and the opponents' hole cards are pairwise
    distinct and none of them is a hole card of the actor or a card already
    on the board. *)
Theorem trial_never_reuses_a_card (new_deck h c sim_deck : list Card)
    (opponents : Z) (board : list Card) (opps : list (list Card)) :
  NoDup new_deck ->
  sim_deck ≡ₚ filter (fun x => x ∉ h ++ c) new_deck ->
  MonteCarlo.sim_deal c opponents sim_deck = Ok (board, opps) ->
  exists drawn,
    board = c ++ drawn
    /\ NoDup (drawn ++ concat opps)
    /\ Forall (fun x => (x ∉ h ++ c) /\ x ∈ new_deck)
         (drawn ++ concat opps).
Proof.
  intros Hnd Hperm. unfold MonteCarlo.sim_deal.
  destruct (MonteCarlo.fill_board _ c sim_deck) as [[b d]|] eqn:Hfill;
    simpl; [|done].
  destruct (MonteCarlo.deal_opponents _ d) as [[hs d']|] eqn:Hopp;
    simpl; [|done].
  intros [= <- <-].
  apply fill_board_prefix in Hfill as (drawn & -> & Hd).
  apply deal_opponents_prefix in Hopp. subst d.
  exists drawn. split; [done|].
  assert (Hdeck : NoDup sim_deck).
  { rewrite Hperm. by apply NoDup_filter. }
  rewrite Hd, app_assoc in Hdeck. apply NoDup_app in Hdeck as (Hdrawn & _ & _).
  split; [done|].
  apply Forall_forall. intros x Hx.
  assert (Hin : x ∈ sim_deck).
  { rewrite Hd, app_assoc. apply elem_of_app. by left. }
  rewrite Hperm in Hin. by apply list_elem_of_filter in Hin.
Qed.

(** ** The decisions *)

Section DecisionLegality.

Import MonteCarlo.

Context {Key : Type} (eval_hand : list Card -> Z * Key) (new_deck : list Card).

(** X5: a decision of [MonteCarloAI.decide] is one of raise, call, check
    and fold; a raise is returned only when raising is legal, by 30, 70 or
    150; a call only when calling is legal; a check only when checking is
    legal or the legal-action set is empty. A fold is returned whether or
    not folding is listed. *)
Theorem decide_returns_legal_raise_and_call (self : AI) (rng : Rng)
    (state : State) (d : Decision) :
  MonteCarlo.decide eval_hand new_deck self rng state = Ok (Some d) ->
  let actions := legal_actions state in
  (move d = "raise" /\ "raise" ∈ actions /\ raise_amount d ∈ [30; 70; 150])
  \/ (move d = "call" /\ "call" ∈ actions /\ raise_amount d = 0)
  \/ (move d = "check" /\ raise_amount d = 0
      /\ (actions = [] \/ "check" ∈ actions))
  \/ (move d = "fold" /\ raise_amount d = 0).
Proof.
  intros H actions. subst actions. unfold MonteCarlo.decide in H.
  destruct (legal_actions state) as [|a l] eqn:Ha.
  { injection H as <-. right. right. left. auto. }
  destruct (List.find _ (players state)) as [bot|].
  2:{ injection H as <-. right. right. right. auto. }
  destruct (estWin _ _ _ _ _ _ _) as [p|]; simpl in H; [|done].
  destruct (Qgtb p (7 # 10)).
  { destruct (legal "raise" (a :: l)) eqn:Hr.
    - injection H as <-. left. split; [done|].
      split; [by apply legal_elem | apply random_choice_menu].
    - destruct (legal "call" (a :: l)) eqn:Hc; [|done].
      injection H as <-. right. left. split; [done|].
      split; [by apply legal_elem | done]. }
  destruct (Qgtb p (45 # 100)).
  { destruct (legal "call" (a :: l)) eqn:Hc.
    2:{ cbn [bind] in H.
        destruct (legal "check" (a :: l)) eqn:Hk; injection H as <-.
        - right. right. left. split; [done|]. split; [done|].
          right. by apply legal_elem.
        - right. right. right. auto. }
    destruct (below_pot_share (to_call state) (pot state)) as [cheap|];
      cbn [bind] in H; [|done].
    destruct cheap.
    - injection H as <-. right. left. split; [done|].
      split; [by apply legal_elem | done].
    - destruct (legal "check" (a :: l)) eqn:Hk; injection H as <-.
      + right. right. left. split; [done|]. split; [done|].
        right. by apply legal_elem.
      + right. right. right. auto. }
  destruct (bluff_chance (difficulty self)) as [chance|]; simpl in H; [|done].
  destruct (legal "raise" (a :: l) && _) eqn:Hr.
  - injection H as <-. left. split; [done|].
    apply andb_true_iff in Hr as [Hr _].
    split; [by apply legal_elem|]. simpl. in_list.
  - destruct (legal "check" (a :: l)) eqn:Hk; injection H as <-.
    + right. right. left. split; [done|]. split; [done|].
      right. by apply legal_elem.
    + right. right. right. auto.
Qed.

(** X6: [MonteCarloAI.decide] returns [None] in one case only: the
    legal-action set is not empty, the actor is among the players, the
    estimate exceeds 0.70, and neither raising nor calling is legal. *)
Theorem decide_returns_none_iff (self : AI) (rng : Rng) (state : State) :
  MonteCarlo.decide eval_hand new_deck self rng state = Ok None
  <-> legal_actions state <> []
      /\ ("raise" ∉ legal_actions state)
      /\ ("call" ∉ legal_actions state)
      /\ exists bot p,
           List.find (fun q => bool_decide (pv_name q = name self))
                     (players state) = Some bot
           /\ MonteCarlo.estWin eval_hand new_deck (simulations self)
                (shuffles rng) (pv_hand bot) (community_cards state)
                (Z.of_nat (length (players state)) - 1) = Ok p
           /\ (7 # 10 < p)%Q.
Proof.
  unfold MonteCarlo.decide. split.
  - intros H. destruct (legal_actions state) as [|a l] eqn:Ha; [done|].
    destruct (List.find _ (players state)) as [bot|] eqn:Hbot; [|done].
    simpl in H.
    destruct (estWin _ _ _ _ _ _ _) as [p|] eqn:Hest; simpl in H; [|done].
    destruct (Qgtb p (7 # 10)) eqn:Hp.
    + destruct (legal "raise" (a :: l)) eqn:Hr; [done|].
      destruct (legal "call" (a :: l)) eqn:Hc; [done|].
      split; [done|]. split; [by apply legal_not_elem|].
      split; [by apply legal_not_elem|].
      exists bot, p. split; [done|]. split; [done|]. by apply Qgtb_lt.
    + destruct (Qgtb p (45 # 100)).
      * destruct (legal "call" (a :: l));
          [destruct (below_pot_share _ _) as [[|]|]|];
          cbn [bind] in H; try done;
          by destruct (legal "check" (a :: l)).
      * destruct (bluff_chance (difficulty self)); simpl in H; [|done].
        destruct (legal "raise" (a :: l) && _); [done|].
        by destruct (legal "check" (a :: l)).
  - intros (Ha & Hr%legal_not_elem & Hc%legal_not_elem
            & bot & p & -> & -> & Hp%Qgtb_lt).
    destruct (legal_actions state) as [|a l]; [done|].
    simpl. by rewrite Hp, Hr, Hc.
Qed.

End DecisionLegality.

(** ** The heuristic player *)

Section HeuristicFacts.

Import MonteCarlo.

Context {Key : Type} (eval_hand : list string -> Res (option Z * Key)).

Lemma heuristic_choice_elem {A : Type} (d : A) (l : list A) (i : nat) :
  l <> [] -> Heuristic.random_choice d l i ∈ l.
Proof.
  intros Hl. unfold Heuristic.random_choice.
  assert (H : (i mod length l < length l)%nat).
  { apply Nat.mod_upper_bound. by destruct l. }
  destruct (lookup_lt_is_Some_2 _ _ H) as [x Hx]. rewrite Hx. simpl.
  by eapply list_elem_of_lookup_2.
Qed.

(** The band tests on the normalized rank are tests on the rank. *)
Lemma normalized_at_least (k r : Z) :
  0 < k <= 10 ->
  Qle_bool (Qmake k 10) (Heuristic.normalized r) = true <-> k <= r.
Proof.
  intros Hk. unfold Heuristic.normalized.
  destruct (Qle_bool (inject_Z r / inject_Z 10) 1) eqn:Hr.
  - rewrite Qle_bool_iff.
    unfold Qle, Qdiv, Qmult, Qinv, inject_Z. simpl. lia.
  - assert (Hgt : ~ (inject_Z r / inject_Z 10 <= 1)%Q).
    { rewrite <- Qle_bool_iff. by rewrite Hr. }
    unfold Qle, Qdiv, Qmult, Qinv, inject_Z in Hgt. simpl in Hgt.
    rewrite Qle_bool_iff. unfold Qle. simpl. lia.
Qed.

(** X7: whatever [HeuristicAI.decide] returns is a legal action, a fold,
    or the check it answers to an empty legal-action set; in particular it
    raises or calls only when that is legal, and when a strong hand can
    neither raise nor call it falls back on one of the legal actions. *)
Theorem heuristic_decision_is_legal_or_fold (self : Heuristic.AI)
    (rng : Heuristic.Rng) (state : State) (d : Decision) :
  Heuristic.decide eval_hand self rng state = Ok d ->
  let actions := legal_actions state in
  (move d ∈ actions \/ move d = "fold"
   \/ (actions = [] /\ move d = "check"))
  /\ raise_amount d ∈ [0; 20; 30; 40; 50; 100; 200]
  /\ (raise_amount d <> 0 -> move d = "raise").
Proof.
  intros H actions. subst actions. unfold Heuristic.decide in H.
  destruct (legal_actions state) as [|a l] eqn:Ha.
  { injection H as <-. simpl. split; [auto|]. split; [in_list|done]. }
  destruct (List.find _ (players state)) as [bot|].
  2:{ injection H as <-. simpl. split; [auto|]. split; [in_list|done]. }
  simpl in H.
  destruct (Qle_bool (8 # 10) _).
  { destruct (legal "raise" (a :: l)) eqn:Hr.
    - injection H as <-. simpl. split; [left; by apply legal_elem|].
      split; [|done].
      pose proof (heuristic_choice_elem 50 [50; 100; 200]
                    (Heuristic.size rng)) as Hc.
      in_list.
    - destruct (legal "call" (a :: l)) eqn:Hc; injection H as <-; simpl.
      + split; [left; by apply legal_elem|]. split; [in_list|done].
      + split; [left; by apply heuristic_choice_elem|].
        split; [in_list|done]. }
  destruct (Qle_bool (4 # 10) _).
  { destruct (legal "call" (a :: l) && _) eqn:Hc.
    - injection H as <-. simpl. apply andb_true_iff in Hc as [Hc _].
      split; [left; by apply legal_elem|]. split; [in_list|done].
    - destruct (legal "check" (a :: l)) eqn:Hk; injection H as <-; simpl.
      + split; [left; by apply legal_elem|]. split; [in_list|done].
      + split; [auto|]. split; [in_list|done]. }
  destruct (Heuristic.bluff_chance _) as [chance|]; simpl in H; [|done].
  destruct (legal "raise" (a :: l) && _) eqn:Hr.
  { injection H as <-. simpl. apply andb_true_iff in Hr as [Hr _].
    split; [left; by apply legal_elem|]. split; [|done].
    pose proof (heuristic_choice_elem 20 [20; 30; 40]
                  (Heuristic.size rng)) as Hc.
    in_list. }
  destruct (legal "check" (a :: l) && _) eqn:Hk.
  { injection H as <-. simpl. apply andb_true_iff in Hk as [Hk _].
    split; [left; by apply legal_elem|]. split; [in_list|done]. }
  destruct (legal "call" (a :: l) && _) eqn:Hc; injection H as <-; simpl.
  - apply andb_true_iff in Hc as [Hc _].
    split; [left; by apply legal_elem|]. split; [in_list|done].
  - split; [auto|]. split; [in_list|done].
Qed.

(** X8: an actor of [HeuristicAI] that is not among the players, or has
    no hole cards while the evaluation gives no rank, is never made to
    raise and never hits the difficulty table: the rank defaults to 5, the
    middle band, and the decision is a call, a check or a fold. *)
Theorem heuristic_without_cards_never_raises (self : Heuristic.AI)
    (rng : Heuristic.Rng) (state : State) :
  (forall bot,
     List.find (fun q => bool_decide (pv_name q = Heuristic.name self))
               (players state) = Some bot ->
     pv_hand bot = []
     /\ indeterminate (eval_hand (community_cards state))) ->
  exists d,
    Heuristic.decide eval_hand self rng state = Ok d
    /\ move d ∈ ["call"; "check"; "fold"]
    /\ raise_amount d = 0.
Proof.
  intros Hbot. unfold Heuristic.decide.
  destruct (legal_actions state) as [|a l]; [eexists; split; [done|]; in_list|].
  destruct (List.find _ (players state)) as [bot|];
    [|eexists; split; [done|]; in_list].
  destruct (Hbot bot eq_refl) as [Hhand Hind]. simpl.
  assert (Hrank : Heuristic.hand_rank eval_hand (pv_hand bot)
                    (community_cards state) = 5).
  { unfold Heuristic.hand_rank. rewrite Hhand. simpl.
    destruct (eval_hand (community_cards state)) as [[[r|] k]|]; done. }
  rewrite Hrank.
  change (Qle_bool (8 # 10) (Heuristic.normalized 5)) with false.
  change (Qle_bool (4 # 10) (Heuristic.normalized 5)) with true.
  cbv iota.
  destruct (legal "call" (a :: l) && _);
    [eexists; split; [done|]; in_list|].
  destruct (legal "check" (a :: l));
    eexists; (split; [done|]); in_list.
Qed.

(** X9: with hole cards and no rank from the evaluation, the band of
    [HeuristicAI] depends on the sum [s] of the card values and the number
    [n] of cards only: the strong band is entered exactly when
    [s >= 12 n] (a pair of queens or better for two cards), and the weak
    band exactly when [s < 6 n]. *)
Theorem heuristic_preflop_bands (hand community : list string) :
  hand <> [] ->
  indeterminate (eval_hand (hand ++ community)) ->
  let s := hole_card_sum hand in
  let n := Z.of_nat (length hand) in
  let rank := Heuristic.hand_rank eval_hand hand community in
  (Qle_bool (8 # 10) (Heuristic.normalized rank) = true <-> 12 * n <= s)
  /\ (Qle_bool (4 # 10) (Heuristic.normalized rank) = false <-> s < 6 * n).
Proof.
  intros Hhand Hind s n rank.
  assert (Hn : 0 < n) by (subst n; destruct hand; [done | simpl; lia]).
  assert (Hrank : rank = Z.max 1 ((2 * s) / (3 * n))).
  { subst rank. unfold Heuristic.hand_rank.
    destruct (eval_hand (hand ++ community)) as [[[r|] k]|]; [done|..];
      (destruct hand as [|c0 hand']; [done|]);
      unfold Heuristic.preflop_rank; rewrite length_map; fold (hole_card_sum (c0 :: hand'));
      fold s; fold n; f_equal; rewrite Zdiv_Qdiv; apply Qfloor_comp;
      unfold Qeq, Qdiv, Qmult, Qinv, inject_Z; simpl;
      (destruct n as [|pn|pn] eqn:En; [lia| |lia]); simpl; lia. }
  rewrite !normalized_at_least by lia. rewrite Hrank.
  split.
  - split.
    + intros H. assert (H8 : 8 <= 2 * s / (3 * n)) by lia.
      apply (Z.mul_le_mono_nonneg_l _ _ (3 * n)) in H8; [|lia].
      pose proof (Z.mul_div_le (2 * s) (3 * n)). lia.
    + intros H.
      assert (8 <= 2 * s / (3 * n)); [|lia].
      apply Z.div_le_lower_bound; lia.
  - rewrite <- not_true_iff_false, normalized_at_least by lia.
    split.
    + intros H. assert (H4 : 2 * s / (3 * n) < 4) by lia.
      apply Z.div_lt_upper_bound in H4 || idtac.
      destruct (Z.lt_ge_cases s (6 * n)) as [|Hge]; [done|].
      exfalso. apply H.
      assert (4 <= 2 * s / (3 * n)); [|lia].
      apply Z.div_le_lower_bound; lia.
    + intros H Hge.
      assert (H4 : 4 <= 2 * s / (3 * n)) by lia.
      apply (Z.mul_le_mono_nonneg_l _ _ (3 * n)) in H4; [|lia].
      pose proof (Z.mul_div_le (2 * s) (3 * n)). lia.
Qed.

End HeuristicFacts.

(** ** More on the connection registry *)

Section RegistryMore.

Import Registry.

Lemma list_remove_filter r l :
  NoDup l -> list_remove r l = filter (fun x => x <> r) l.
Proof.
  induction l as [|a l IH]; [done|]. intros [Ha Hnd]%NoDup_cons.
  simpl. rewrite filter_cons. case_decide as Hx.
  - subst a. rewrite decide_False by (intros Hrr; by apply Hrr).
    symmetry. clear IH Hnd. induction l as [|b l IH]; [done|].
    rewrite filter_cons. apply not_elem_of_cons in Ha as [Hne Ha].
    rewrite decide_True by done. f_equal. by apply IH.
  - rewrite decide_True by done. f_equal. by apply IH.
Qed.

Lemma list_remove_app_last r l : r ∉ l -> list_remove r (l ++ [r]) = l.
Proof.
  induction l as [|a l IH]; simpl; intros Hr.
  - by rewrite decide_True.
  - apply not_elem_of_cons in Hr as [Hne Hr].
    rewrite decide_False by done. f_equal. by apply IH.
Qed.

Lemma filter_ext_elem {A : Type} (P Q : A -> Prop)
    `{!forall x, Decision (P x), !forall x, Decision (Q x)} (l : list A) :
  (forall x, x ∈ l -> P x <-> Q x) -> filter P l = filter Q l.
Proof.
  induction l as [|a l IH]; [done|]. intros Hext.
  rewrite !filter_cons.
  assert (Ha : P a <-> Q a) by (apply Hext; left).
  assert (Hl : filter P l = filter Q l).
  { apply IH. intros x Hx. apply Hext. by right. }
  destruct (decide (P a)), (decide (Q a)); try tauto; by rewrite Hl.
Qed.

Lemma filter_all {A : Type} (P : A -> Prop)
    `{!forall x, Decision (P x)} (l : list A) :
  (forall x, P x) -> filter P l = l.
Proof.
  intros Hall. induction l as [|a l IH]; [done|].
  rewrite filter_cons, decide_True by done. by f_equal.
Qed.

(** Pruning, list by list: the list of the game keeps, in order, the
    connections that are not removed; the lists of the other games are
    not touched. *)
Lemma prune_lists gid rl : forall m,
  registry_wf m ->
  (forall r, r ∈ rl -> r ∈ targets m gid) ->
  NoDup rl ->
  targets (prune m gid rl) gid = filter (fun x => x ∉ rl) (targets m gid)
  /\ forall gid2, gid2 <> gid ->
       game_connections (prune m gid rl) !! gid2
       = game_connections m !! gid2.
Proof.
  induction rl as [|r rl IH]; intros m Hwf Hsub Hnd.
  - simpl. split; [|done]. symmetry. apply filter_all.
    by intros x ?%elem_of_nil.
  - apply NoDup_cons in Hnd as [Hr Hnd].
    assert (Hrt : r ∈ targets m gid) by (apply Hsub; left).
    apply targets_lookup in Hrt as (conns & Hgc & Hrc).
    destruct (Hwf gid conns Hgc) as [Hndc Hall].
    destruct (Hall r Hrc) as (_ & c & Hc & Hws & _).
    unfold prune. simpl. rewrite Hc.
    fold (prune (disconnect m gid (ws c)) gid rl).
    pose proof (disconnect_member_wf m gid conns r c Hwf Hgc Hrc Hc) as Hwf1.
    pose proof (disconnect_member m gid conns r c Hwf Hgc Hrc Hc) as Hm1.
    assert (Ht1 : targets (disconnect m gid (ws c)) gid
                  = filter (fun x => x <> r) (targets m gid)).
    { rewrite Hm1. unfold targets. simpl.
      rewrite lookup_insert_eq, Hgc. simpl. by apply list_remove_filter. }
    destruct (IH (disconnect m gid (ws c))) as [Ht2 Ho2]; [done| |done|].
    { intros x Hx. rewrite Ht1. apply list_elem_of_filter.
      split; [by intros ->|]. apply Hsub. by right. }
    split.
    + rewrite Ht2, Ht1, list_filter_filter. apply list_filter_iff.
      intros x. rewrite not_elem_of_cons. tauto.
    + intros gid2 Hne. rewrite (Ho2 gid2 Hne), Hm1. simpl.
      by rewrite lookup_insert_ne.
Qed.

Section WithSnapshots.

Context {Game Snapshot : Type}
  (get_game_state : Game -> option string -> Res Snapshot).

Local Abbreviation broadcast := (Registry.broadcast get_game_state).

Lemma removal_list_ok send_json m gid payload :
  registry_wf m ->
  let rl := filter (fun r => delivery get_game_state send_json (objects m)
                               payload r = None) (targets m gid) in
  (forall r, r ∈ rl -> r ∈ targets m gid) /\ NoDup rl.
Proof.
  intros Hwf rl. split.
  - by intros r [_ ?]%list_elem_of_filter.
  - apply NoDup_filter. unfold targets.
    destruct (game_connections m !! gid) as [conns|] eqn:Hgc; simpl.
    + by destruct (Hwf gid conns Hgc).
    + constructor.
Qed.

(** X10: a viewer that has just connected is a spectator: the next
    broadcast of the game whose send to it returns delivers the snapshot
    built for no viewer, and the viewer is the last of the session's
    list. *)
Theorem new_viewer_is_sent_the_spectator_snapshot
    (send_json : WebSocket -> Message Snapshot -> bool)
    (m : ConnectionManager) (gid : string) (websocket : WebSocket)
    (g : Game) (snap : Snapshot) :
  get_game_state g None = Ok snap ->
  send_json websocket (StateUpdate snap) = true ->
  let r := (connect m gid websocket).1 in
  let m1 := (connect m gid websocket).2 in
  targets m1 gid = targets m gid ++ [r]
  /\ (r, StateUpdate snap) ∈ (broadcast send_json m1 gid (GameObject g)).2.
Proof.
  intros Hsnap Hsend r m1. subst r m1.
  assert (Ht : targets (connect m gid websocket).2 gid
               = targets m gid ++ [S (connection_counter m)]).
  { unfold targets, connect. simpl. by rewrite lookup_insert_eq. }
  split; [exact Ht|].
  rewrite broadcast_unfold. cbn [snd]. rewrite Ht.
  apply list_elem_of_omap. exists (S (connection_counter m)).
  split; [apply elem_of_app; right; by left|].
  unfold delivery, connect. simpl. rewrite lookup_insert_eq. simpl.
  rewrite Hsnap. simpl. by rewrite Hsend.
Qed.

(** X11: the name bound by an upgrade is the name the next broadcast
    personalizes for: a listed connection upgraded under any name is sent
    the snapshot built for that name, whether or not anybody sits under
    it. *)
Theorem upgraded_viewer_is_sent_the_snapshot_of_its_name
    (send_json : WebSocket -> Message Snapshot -> bool)
    (m : ConnectionManager) (gid : string) (websocket : WebSocket)
    (player : string) (seat : Z) (r : ConnRef) (c : ConnectionState)
    (g : Game) (snap : Snapshot) :
  ws_to_state m !! websocket = Some r ->
  objects m !! r = Some c ->
  r ∈ targets m gid ->
  get_game_state g (Some player) = Ok snap ->
  send_json (ws c) (StateUpdate snap) = true ->
  let m1 := (upgrade_connection_to_player m websocket player seat).2 in
  (r, StateUpdate snap) ∈ (broadcast send_json m1 gid (GameObject g)).2.
Proof.
  intros Hws Hc Hr Hsnap Hsend m1. subst m1.
  rewrite broadcast_unfold. simpl.
  unfold upgrade_connection_to_player. rewrite Hws. simpl.
  apply list_elem_of_omap. exists r. split; [exact Hr|].
  unfold delivery. simpl. rewrite lookup_alter_eq, Hc. simpl.
  rewrite Hsnap. simpl. by rewrite Hsend.
Qed.

(** X12: after a broadcast over a well-formed registry, the list of the
    session is exactly the list of the connections the broadcast delivered
    to, in the same order. *)
Theorem broadcast_keeps_exactly_the_delivered
    (send_json : WebSocket -> Message Snapshot -> bool)
    (m : ConnectionManager) (gid : string) (payload : Payload Game) :
  registry_wf m ->
  targets (broadcast send_json m gid payload).1 gid
  = (broadcast send_json m gid payload).2.*1.
Proof.
  intros Hwf. rewrite broadcast_unfold. simpl.
  destruct (removal_list_ok send_json m gid payload Hwf) as [Hsub Hnd].
  destruct (prune_lists gid _ m Hwf Hsub Hnd) as [-> _].
  set (dl := delivery get_game_state send_json (objects m) payload).
  transitivity (filter (fun r => dl r <> None) (targets m gid)).
  - apply filter_ext_elem. intros x Hx.
    rewrite list_elem_of_filter. tauto.
  - clear Hsub Hnd.
    induction (targets m gid) as [|a l IH]; [done|].
    rewrite filter_cons. cbn [omap list_omap].
    destruct (dl a) as [msg|] eqn:Ha.
    + rewrite decide_True by done. cbn [fmap option_fmap option_map].
      cbn [fmap list_fmap]. simpl. f_equal. exact IH.
    + rewrite decide_False by (intros Hnn; by apply Hnn). exact IH.
Qed.

(** X13: a broadcast for one game leaves the viewers of every other game
    alone: their lists are the same afterwards and each of their
    connections is still the entry of its own websocket. *)
Theorem broadcast_leaves_other_games_alone
    (send_json : WebSocket -> Message Snapshot -> bool)
    (m : ConnectionManager) (gid gid2 : string) (payload : Payload Game) :
  registry_wf m ->
  gid2 <> gid ->
  let m' := (broadcast send_json m gid payload).1 in
  targets m' gid2 = targets m gid2
  /\ forall r c, r ∈ targets m gid2 -> objects m !! r = Some c ->
       objects m' !! r = Some c /\ ws_to_state m' !! ws c = Some r.
Proof.
  intros Hwf Hne m'.
  pose proof (broadcast_wf get_game_state send_json m gid payload Hwf) as Hwf'.
  fold m' in Hwf'. subst m'. rewrite broadcast_unfold in *. simpl in *.
  destruct (removal_list_ok send_json m gid payload Hwf) as [Hsub Hnd].
  destruct (prune_lists gid _ m Hwf Hsub Hnd) as [_ Hother].
  destruct (prune_spec gid _ m Hwf Hsub Hnd) as (_ & Hobj & _).
  assert (Ht : targets (prune m gid
                 (filter (fun r => delivery get_game_state send_json
                                     (objects m) payload r = None)
                         (targets m gid))) gid2 = targets m gid2).
  { unfold targets at 1 3. by rewrite Hother. }
  split; [exact Ht|].
  intros r c Hr Hc. rewrite Hobj. split; [done|].
  rewrite <- Ht in Hr. apply targets_lookup in Hr as (conns & Hgc & Hrc).
  destruct (Hwf' gid2 conns Hgc) as [_ Hall].
  destruct (Hall r Hrc) as (_ & c' & Hc' & Hws & _).
  rewrite Hobj in Hc'. by assert (c' = c) as -> by congruence.
Qed.

(** X14: a broadcast in which every send returns leaves the registry
    exactly as it was. *)
Theorem broadcast_without_failure_changes_nothing
    (send_json : WebSocket -> Message Snapshot -> bool)
    (m : ConnectionManager) (gid : string) (payload : Payload Game) :
  (forall r, r ∈ targets m gid ->
     is_Some (delivery get_game_state send_json (objects m) payload r)) ->
  (broadcast send_json m gid payload).1 = m
  /\ (broadcast send_json m gid payload).2.*1 = targets m gid.
Proof.
  intros Hall. rewrite broadcast_unfold. simpl.
  set (dl := delivery get_game_state send_json (objects m) payload) in *.
  assert (Hnone : filter (fun r => dl r = None) (targets m gid) = []).
  { induction (targets m gid) as [|a l IH]; [done|].
    rewrite filter_cons.
    destruct (Hall a) as [msg Ha]; [left|]. rewrite Ha.
    rewrite decide_False by done. apply IH. intros r Hr. apply Hall.
    by right. }
  rewrite Hnone. split; [done|].
  induction (targets m gid) as [|a l IH]; [done|].
  cbn [omap list_omap].
  destruct (Hall a) as [msg Ha]; [left|]. rewrite Ha. simpl.
  cbn [fmap list_fmap]. simpl. f_equal.
  apply IH.
  - intros r Hr. apply Hall. by right.
  - rewrite filter_cons, Ha in Hnone.
    by rewrite decide_False in Hnone by done.
Qed.

End WithSnapshots.

(** X15: connecting a new websocket and disconnecting it again restores
    the viewer list of every game and the table of websockets (the
    counter and the store of objects have grown). *)
Theorem connect_then_disconnect_restores_the_lists (m : ConnectionManager)
    (gid : string) (websocket : WebSocket) :
  registry_wf m ->
  ws_to_state m !! websocket = None ->
  let m' := disconnect (connect m gid websocket).2 gid websocket in
  (forall g, targets m' g = targets m g)
  /\ ws_to_state m' = ws_to_state m
  /\ connection_counter m' = S (connection_counter m).
Proof.
  intros Hwf Hfresh m'. subst m'. unfold disconnect, connect. simpl.
  rewrite !lookup_insert_eq.
  rewrite bool_decide_eq_true_2 by (apply elem_of_app; right; by left).
  simpl. rewrite insert_insert_eq.
  assert (Hn : S (connection_counter m)
               ∉ default [] (game_connections m !! gid)).
  { destruct (game_connections m !! gid) as [conns|] eqn:Hgc; simpl.
    - intros Hin. destruct (Hwf gid conns Hgc) as [_ Hall].
      destruct (Hall _ Hin) as [Hle _]. lia.
    - by intros ?%elem_of_nil. }
  rewrite list_remove_app_last by done.
  split; [|split; [|done]].
  - intros g. unfold targets. simpl. rewrite lookup_insert.
    case_decide; [|done]. by subst g.
  - rewrite delete_insert_eq. by apply delete_id.
Qed.

(** [disconnect] is idempotent: a second call with the same
    arguments changes nothing, as the websocket is no longer registered. *)
Theorem disconnect_twice_is_disconnect_once (m : ConnectionManager)
    (gid : string) (websocket : WebSocket) :
  disconnect (disconnect m gid websocket) gid websocket
  = disconnect m gid websocket
  /\ ws_to_state (disconnect m gid websocket) !! websocket = None.
Proof.
  unfold disconnect at 2 3 4.
  destruct (ws_to_state m !! websocket) as [r|] eqn:Hws.
  - assert (Hgone : ws_to_state
              (mkConnectionManager (objects m)
                 match game_connections m !! gid with
                 | Some conns =>
                     if bool_decide (r ∈ conns)
                     then <[gid := list_remove r conns]> (game_connections m)
                     else game_connections m
                 | None => game_connections m
                 end
                 (delete websocket (ws_to_state m)) (connection_counter m))
              !! websocket = None) by apply lookup_delete_eq.
    split; [|exact Hgone]. unfold disconnect. by rewrite Hgone.
  - split; [|done]. unfold disconnect. by rewrite Hws.
Qed.

(** The upgrade with a name and a seat is the upgrade of the endpoint
    with both present. *)
Lemma upgrade_with_both_given (m : ConnectionManager) (websocket : WebSocket)
    (player : string) (seat : Z) :
  upgrade_connection_to_player m websocket player seat
  = Untyped.upgrade_connection_to_player m websocket (Some player)
      (Some seat).
Proof. reflexivity. Qed.

(** X16: the upgrade of a registered websocket succeeds whatever name and
    seat it is given, also [None] for a message that lacks them. The
    connection then counts as a player exactly when the name given is not
    [None], and it can see the private cards of a seat exactly when,
    besides, that seat is the one given: of no seat at all without a name
    or without a seat. *)
Theorem upgraded_viewer_sees_exactly_its_seat (m : ConnectionManager)
    (websocket : WebSocket) (player : option string) (seat : option Z)
    (r : ConnRef) (c : ConnectionState) :
  ws_to_state m !! websocket = Some r ->
  objects m !! r = Some c ->
  (Untyped.upgrade_connection_to_player m websocket player seat).1 = true
  /\ exists c',
       get_connection_state
         (Untyped.upgrade_connection_to_player m websocket player seat).2
         websocket
       = Some c'
       /\ (is_player c' = true <-> player <> None)
       /\ forall s, can_see_private_cards c' s = true
                    <-> player <> None /\ seat = Some s.
Proof.
  intros Hws Hc. unfold Untyped.upgrade_connection_to_player. rewrite Hws.
  split; [done|]. eexists. split.
  - unfold get_connection_state. simpl. rewrite Hws. simpl.
    rewrite lookup_alter_eq, Hc. reflexivity.
  - assert (Hp : is_player (Untyped.upgrade_to_player c player seat) = true
                 <-> player <> None).
    { unfold is_player. simpl. by rewrite bool_decide_eq_true. }
    split; [exact Hp|]. intros s. unfold can_see_private_cards.
    rewrite andb_true_iff, Hp. simpl. by rewrite bool_decide_eq_true.
Qed.

(** X17: an upgrade followed by a downgrade puts a plain spectator back
    exactly as it was, and with it the whole registry. *)
Theorem upgrade_then_downgrade_restores_a_spectator (m : ConnectionManager)
    (websocket : WebSocket) (player : string) (seat : Z)
    (r : ConnRef) (c : ConnectionState) :
  ws_to_state m !! websocket = Some r ->
  objects m !! r = Some c ->
  role c = "spectator" -> player_name c = None -> seat_index c = None ->
  (downgrade_connection_to_spectator
     (upgrade_connection_to_player m websocket player seat).2 websocket).2
  = m.
Proof.
  intros Hws Hc Hrole Hname Hseat.
  unfold downgrade_connection_to_spectator, upgrade_connection_to_player.
  rewrite Hws. simpl. rewrite Hws. simpl.
  destruct m as [objs gc wts n]. simpl in *. f_equal.
  apply map_eq. intros k. destruct (decide (r = k)) as [<-|Hne].
  - rewrite !lookup_alter_eq, Hc.
    destruct c as [w i ro pn gi si]. simpl in *. by subst.
  - by rewrite !lookup_alter_ne.
Qed.

End RegistryMore.

(** ** More on the seats *)

Section SeatsMore.

Import Server.

Context {Snapshot : Type} (get_game_state : PokerGame -> option string -> Snapshot).

Lemma seat_tests_in_range (l : list Player) (i : Z) :
  (i <? 0) || (i >=? Z.of_nat (length l)) = false
  <-> 0 <= i < Z.of_nat (length l).
Proof.
  rewrite orb_false_iff, Z.ltb_ge, Z.geb_leb, Z.leb_gt. lia.
Qed.

(** What a successful [join_seat] did. *)
Lemma join_seat_returned games gid payload s games' tr :
  join_seat get_game_state games gid payload = (Returned s, games', tr) ->
  exists game existing,
    games !! gid = Some game
    /\ stage game = "lobby"
    /\ 0 <= js_seat_index payload < Z.of_nat (length (players game))
    /\ players game !! Z.to_nat (js_seat_index payload) = Some existing
    /\ name existing = ""
    /\ games' = <[gid := set_players game
                    (<[Z.to_nat (js_seat_index payload) :=
                         seat_player existing (js_player_name payload)]>
                       (players game))]> games.
Proof.
  unfold join_seat. destruct (games !! gid) as [game|]; [|done].
  case_bool_decide as Hs; simpl; [|done].
  destruct ((_ <? 0) || _) eqn:Hr; [done|].
  apply seat_tests_in_range in Hr.
  destruct (lookup_lt_is_Some_2 (players game)
              (Z.to_nat (js_seat_index payload))) as [existing Hex]; [lia|].
  rewrite (py_index_in_range _ _ existing) by (done || lia).
  case_bool_decide as Hn; simpl; [|done].
  intros [= <- <- <-]. exists game, existing. done.
Qed.

(** What a successful [leave_seat] did. *)
Lemma leave_seat_returned games gid payload s games' tr :
  Routes.leave_seat get_game_state games gid payload
  = (Returned s, games', tr) ->
  exists game player,
    games !! gid = Some game
    /\ stage game = "lobby"
    /\ 0 <= Routes.ls_seat_index payload < Z.of_nat (length (players game))
    /\ players game !! Z.to_nat (Routes.ls_seat_index payload) = Some player
    /\ name player <> ""
    /\ games' = <[gid := set_players game
                    (<[Z.to_nat (Routes.ls_seat_index payload) :=
                         Routes.vacate player]> (players game))]> games.
Proof.
  unfold Routes.leave_seat. destruct (games !! gid) as [game|]; [|done].
  case_bool_decide as Hs; simpl; [|done].
  destruct ((_ <? 0) || _) eqn:Hr; [done|].
  apply seat_tests_in_range in Hr.
  destruct (lookup_lt_is_Some_2 (players game)
              (Z.to_nat (Routes.ls_seat_index payload))) as [player Hex];
    [lia|].
  rewrite (py_index_in_range _ _ player) by (done || lia).
  case_bool_decide as Hn; simpl; [done|].
  intros [= <- <- <-]. exists game, player. done.
Qed.

(** The successful run of [leave_seat]. *)
Lemma leave_seat_vacates games gid i game player :
  games !! gid = Some game ->
  stage game = "lobby" ->
  0 <= i < Z.of_nat (length (players game)) ->
  players game !! Z.to_nat i = Some player ->
  name player <> "" ->
  let game' :=
    set_players game (<[Z.to_nat i := Routes.vacate player]> (players game)) in
  Routes.leave_seat get_game_state games gid (Routes.mkLeaveSeatRequest i)
  = (Returned (get_game_state game' None), <[gid := game']> games,
     with_lock gid [StartLobbyTimer gid; Broadcast gid game']).
Proof.
  intros Hg Hs Hr Hp Hn game'. unfold Routes.leave_seat. rewrite Hg. simpl.
  rewrite bool_decide_eq_true_2 by done. simpl.
  apply seat_tests_in_range in Hr as Ht. rewrite Ht.
  rewrite (py_index_in_range _ _ player) by (done || apply Hr).
  by rewrite bool_decide_eq_false_2.
Qed.


(** Replacing one element changes the number of elements with a property
    by what the old and the new element contribute. *)
Lemma filter_length_insert {A : Type} (P : A -> Prop)
    `{!forall x, Decision (P x)} (l : list A) (i : nat) (old new : A) :
  l !! i = Some old ->
  (length (filter P (<[i := new]> l)) + (if decide (P old) then 1 else 0)
   = length (filter P l) + (if decide (P new) then 1 else 0))%nat.
Proof.
  revert i. induction l as [|a l IH]; intros i Hi; [done|].
  destruct i as [|i]; simpl in Hi.
  - injection Hi as ->. simpl. rewrite !filter_cons.
    destruct (decide (P old)), (decide (P new)); simpl; lia.
  - simpl. rewrite !filter_cons. specialize (IH i Hi).
    destruct (decide (P a)); simpl; lia.
Qed.

(** X19: a successful [join_seat] raises the number of occupied seats by
    one when the name given is not empty; with the empty name the request
    succeeds all the same and the seat stays free. *)
Theorem join_seat_occupies_one_seat (games games' : gmap string PokerGame)
    (gid : string) (payload : JoinSeatRequest) (s : Snapshot)
    (tr : list Event) :
  join_seat get_game_state games gid payload = (Returned s, games', tr) ->
  exists game game',
    games !! gid = Some game /\ games' !! gid = Some game'
    /\ active_players game'
       = (active_players game
          + (if decide (js_player_name payload = "") then 0 else 1))%nat.
Proof.
  intros (game & existing & Hg & _ & _ & Hex & Hn & ->)%join_seat_returned.
  exists game. eexists. split; [done|]. split; [apply lookup_insert_eq|].
  unfold active_players. simpl.
  pose proof (filter_length_insert (fun p => name p <> "") (players game)
                _ existing
                (seat_player existing (js_player_name payload)) Hex) as H.
  rewrite decide_False in H by (intros Hne; by apply Hne).
  simpl in H.
  destruct (decide (js_player_name payload = "")) as [He|He].
  - rewrite decide_False in H by (intros Hne; by apply Hne). lia.
  - rewrite decide_True in H by done. lia.
Qed.

(** X20: after a successful [join_seat] under a non-empty name, a
    [leave_seat] for the same seat succeeds and frees it: the seat is as
    the join left it but for the name, which is empty again, so the
    number of occupied seats is what it was before the join. Chips that
    the join topped up to 1000 stay topped up. *)
Theorem join_then_leave_frees_the_seat (games games1 : gmap string PokerGame)
    (gid : string) (payload : JoinSeatRequest) (s : Snapshot)
    (tr : list Event) :
  join_seat get_game_state games gid payload = (Returned s, games1, tr) ->
  js_player_name payload <> "" ->
  exists game existing game2,
    games !! gid = Some game
    /\ players game !! Z.to_nat (js_seat_index payload) = Some existing
    /\ Routes.leave_seat get_game_state games1 gid
         (Routes.mkLeaveSeatRequest (js_seat_index payload))
       = (Returned (get_game_state game2 None), <[gid := game2]> games,
          with_lock gid [StartLobbyTimer gid; Broadcast gid game2])
    /\ game2 = set_players game
                 (<[Z.to_nat (js_seat_index payload) :=
                      mkPlayer ""
                        (if chips existing <=? 0 then 1000
                         else chips existing) [] false 0 false]>
                    (players game))
    /\ active_players game2 = active_players game.
Proof.
  intros (game & existing & Hg & Hs & Hr & Hex & Hn & ->)%join_seat_returned
         Hname.
  exists game, existing. eexists. split; [done|]. split; [done|].
  set (i := js_seat_index payload) in *.
  set (joined := seat_player existing (js_player_name payload)).
  set (game1 := set_players game (<[Z.to_nat i := joined]> (players game))).
  assert (Hlen : length (players game1) = length (players game))
    by (simpl; apply length_insert).
  assert (Hj : players game1 !! Z.to_nat i = Some joined).
  { simpl. apply list_lookup_insert_eq. lia. }
  pose proof (leave_seat_vacates (<[gid := game1]> games) gid i game1 joined
                (lookup_insert_eq _ _ _) Hs) as Hok.
  rewrite Hlen in Hok. specialize (Hok Hr Hj Hname).
  split; [|split; [reflexivity|]].
  - rewrite Hok. simpl. rewrite list_insert_insert_eq.
    by rewrite insert_insert_eq.
  - unfold active_players. simpl.
    pose proof (filter_length_insert (fun p => name p <> "") (players game)
                  _ existing
                  (mkPlayer "" (if chips existing <=? 0 then 1000
                                else chips existing) [] false 0 false)
                  Hex) as H.
    rewrite !decide_False in H by (simpl; intros Hne; by apply Hne).
    subst i. lia.
Qed.

End SeatsMore.

(** ** The other routes *)

Section RoutesFacts.

Import Server.

Context {Snapshot : Type} (get_game_state : PokerGame -> option string -> Snapshot).


Context (play_hand : PokerGame -> PokerGame).

(** X22: [start_hand] for a game in the lobby stage answers 400 and
    changes nothing while fewer than 2 seats are occupied; otherwise it
    cancels and forgets the countdown of the game and starts the hand
    exactly as the countdown does when it runs out. Outside the lobby stage
    it never rejects: it calls [play_hand] whatever the stage is and leaves
    the countdowns alone. *)
Theorem start_hand_starts_as_the_countdown_does (app : Routes.App)
    (gid : string) (game : PokerGame) :
  Routes.app_games app !! gid = Some game ->
  gid ∈ Routes.app_locks app ->
  let result := Routes.start_hand get_game_state play_hand app gid in
  (stage game = "lobby" -> (active_players game < 2)%nat ->
     result = (HTTPException 400 "Need at least 2 players to start", app,
               with_lock gid []))
  /\ (stage game = "lobby" -> (2 <= active_players game)%nat ->
        exists s app',
          result = (Returned s, app',
                    with_lock gid
                      [Broadcast gid
                         (play_hand (set_lobby game "preflop" None false))])
          /\ Routes.app_games app'
             = (check_and_start_game play_hand (Routes.app_games app) gid).1
          /\ Routes.app_games app' !! gid
             = Some (play_hand (set_lobby game "preflop" None false))
          /\ Routes.app_timers app' = delete gid (Routes.app_timers app)
          /\ (forall t, Routes.app_timers app !! gid = Some t ->
                t ∈ Routes.app_cancelled app'))
  /\ (stage game <> "lobby" ->
        result = (Returned (get_game_state (play_hand game) None),
                  Routes.set_games app
                    (<[gid := play_hand game]> (Routes.app_games app)),
                  with_lock gid [Broadcast gid (play_hand game)])).
Proof.
  intros Hg Hlock result. subst result. unfold Routes.start_hand.
  rewrite Hg. rewrite (bool_decide_eq_true_2 _ Hlock). simpl.
  split; [|split].
  - intros Hs Hn. rewrite bool_decide_eq_true_2 by done.
    unfold MIN_PLAYERS. by rewrite decide_True.
  - intros Hs Hn. rewrite bool_decide_eq_true_2 by done.
    unfold MIN_PLAYERS. rewrite decide_False by lia.
    eexists _, _. split; [done|]. simpl.
    split; [|split; [apply lookup_insert_eq|split; [done|]]].
    + unfold check_and_start_game. rewrite Hg.
      unfold MIN_PLAYERS. by rewrite decide_True.
    + intros t Ht. unfold Routes.cancel_registered. rewrite Ht.
      apply elem_of_union. left. by apply elem_of_singleton.
  - intros Hs. by rewrite bool_decide_eq_false_2.
Qed.

(** X23: [cleanup_game] for a known game removes the game, its lock and
    its countdown, which it cancels; every other game keeps its state, lock
    and countdown; for an unknown game, and so when it is called a second
    time, it changes nothing. *)
Theorem cleanup_game_forgets_one_game (app : Routes.App) (gid : string) :
  let app' := Routes.cleanup_game app gid in
  Routes.app_games app' !! gid = None
  /\ (Routes.app_games app !! gid = None -> app' = app)
  /\ Routes.cleanup_game app' gid = app'
  /\ (is_Some (Routes.app_games app !! gid) ->
        (gid ∉ Routes.app_locks app')
        /\ Routes.app_timers app' !! gid = None
        /\ forall t, Routes.app_timers app !! gid = Some t ->
             t ∈ Routes.app_cancelled app')
  /\ (forall g, g <> gid ->
        Routes.app_games app' !! g = Routes.app_games app !! g
        /\ (g ∈ Routes.app_locks app' <-> g ∈ Routes.app_locks app)
        /\ Routes.app_timers app' !! g = Routes.app_timers app !! g).
Proof.
  intros app'. subst app'. unfold Routes.cleanup_game.
  destruct (Routes.app_games app !! gid) as [game|] eqn:Hg; simpl.
  - split; [apply lookup_delete_eq|]. split; [done|].
    split; [by rewrite lookup_delete_eq|].
    split.
    + intros _. split; [|split].
      * intros [_ Hin]%elem_of_difference. apply Hin.
        by apply elem_of_singleton.
      * apply lookup_delete_eq.
      * intros t Ht. unfold Routes.cancel_registered. rewrite Ht.
        apply elem_of_union. left. by apply elem_of_singleton.
    + intros g Hne. rewrite !lookup_delete_ne by done.
      split; [done|]. split; [|done].
      rewrite elem_of_difference, elem_of_singleton. tauto.
  - split; [done|]. split; [done|]. rewrite Hg.
    split; [done|]. split; [by intros [? ?]|]. done.
Qed.

(** X24: once [cleanup_game] has run for a game id, every route answers
    that id with 404 "Game not found" and changes nothing. *)
Theorem after_cleanup_every_route_answers_not_found {Key ActionResult : Type}
    (eval_hand : list Card -> Z * Key) (new_deck : list Card)
    (execute_action :
       PokerGame -> Z -> string -> Z -> ActionResult * PokerGame)
    (observe : PokerGame -> option string -> MonteCarlo.State)
    (app : Routes.App) (gid : string) :
  let app' := Routes.cleanup_game app gid in
  let games' := Routes.app_games app' in
  (forall payload,
     join_seat get_game_state games' gid payload
     = (HTTPException 404 "Game not found", games', []))
  /\ (forall payload,
        Routes.leave_seat get_game_state games' gid payload
        = (HTTPException 404 "Game not found", games', []))
  /\ (forall payload,
        Routes.add_ai_player get_game_state games' gid payload
        = (HTTPException 404 "Game not found", games', []))
  /\ Routes.start_hand get_game_state play_hand app' gid
     = (HTTPException 404 "Game not found", app', [])
  /\ Routes.get_state get_game_state app' gid
     = HTTPException 404 "Game not found"
  /\ (forall fuel rngs thinks data,
        player_action eval_hand new_deck execute_action observe fuel rngs
          thinks games' gid data
        = Some (HTTPException 404 "Game not found", games', []))
  /\ lobby_countdown play_hand games' gid = (games', []).
Proof.
  intros app' games'.
  assert (Hgone : games' !! gid = None).
  { subst games' app'. unfold Routes.cleanup_game.
    destruct (Routes.app_games app !! gid) eqn:Hg; [|done].
    apply lookup_delete_eq. }
  unfold join_seat, Routes.leave_seat, Routes.add_ai_player,
    Routes.start_hand, Routes.get_state, player_action, lobby_countdown.
  fold games'. rewrite Hgone. repeat split.
Qed.

Lemma timers_wf_same_timers (a b : Routes.App) :
  Routes.app_timers b = Routes.app_timers a ->
  Routes.app_cancelled b = Routes.app_cancelled a ->
  Routes.app_tasks b = Routes.app_tasks a ->
  timers_wf a -> timers_wf b.
Proof. unfold timers_wf. by intros -> -> ->. Qed.

Lemma cancel_registered_elem (a : Routes.App) (gid : string) (t : nat) :
  t ∈ Routes.cancel_registered a gid
  <-> Routes.app_timers a !! gid = Some t \/ t ∈ Routes.app_cancelled a.
Proof.
  unfold Routes.cancel_registered.
  destruct (Routes.app_timers a !! gid) as [t0|].
  - rewrite elem_of_union, elem_of_singleton. split.
    + intros [->|?]; auto.
    + intros [[= ->]|?]; auto.
  - split; [auto | by intros [?|?]].
Qed.

Lemma start_lobby_timer_wf (a : Routes.App) (gid : string) :
  timers_wf a -> timers_wf (Routes.start_lobby_timer a gid).
Proof.
  intros (Hreg & Hcan & Hlive & Hinj).
  unfold timers_wf, Routes.start_lobby_timer. simpl.
  split; [|split; [|split]].
  - intros g t. rewrite lookup_insert, cancel_registered_elem.
    case_decide as Hgg.
    + intros [= <-]. split; [lia|].
      intros [Ht|Ht]; [apply Hreg in Ht | apply Hcan in Ht]; lia.
    + intros Ht. destruct (Hreg g t Ht) as [Hlt Hnc]. split; [lia|].
      intros [Ht0|?]; [|done]. apply Hgg. symmetry. by eapply Hinj.
  - intros t [Ht|Ht]%cancel_registered_elem;
      [apply Hreg in Ht | apply Hcan in Ht]; lia.
  - intros t Hlt Hnc. rewrite cancel_registered_elem in Hnc.
    destruct (decide (t = Routes.app_tasks a)) as [->|Hne].
    + exists gid. apply lookup_insert_eq.
    + destruct (Hlive t) as [g Hg]; [lia|tauto|].
      destruct (decide (g = gid)) as [->|Hgg]; [tauto|].
      exists g. by rewrite lookup_insert_ne.
  - intros g1 g2 t. rewrite !lookup_insert.
    repeat case_decide; subst; try done.
    + intros [= <-] Ht. destruct (Hreg g2 _ Ht). lia.
    + intros Ht [= <-]. destruct (Hreg g1 _ Ht). lia.
    + apply Hinj.
Qed.

Lemma drop_lobby_timer_wf (a : Routes.App) (gid : string) :
  timers_wf a -> timers_wf (Routes.drop_lobby_timer a gid).
Proof.
  intros (Hreg & Hcan & Hlive & Hinj).
  unfold timers_wf, Routes.drop_lobby_timer. simpl.
  split; [|split; [|split]].
  - intros g t. rewrite lookup_delete, cancel_registered_elem.
    case_decide as Hgg; [done|].
    intros Ht. destruct (Hreg g t Ht) as [Hlt Hnc]. split; [done|].
    intros [Ht0|?]; [|done]. apply Hgg. symmetry. by eapply Hinj.
  - intros t [Ht|Ht]%cancel_registered_elem;
      [by apply Hreg in Ht as [? _] | by apply Hcan].
  - intros t Hlt Hnc. rewrite cancel_registered_elem in Hnc.
    destruct (Hlive t) as [g Hg]; [done|tauto|].
    destruct (decide (g = gid)) as [->|Hgg]; [tauto|].
    exists g. by rewrite lookup_delete_ne.
  - intros g1 g2 t. rewrite !lookup_delete.
    repeat case_decide; try done. apply Hinj.
Qed.

Lemma run_events_wf (tr : list Event) : forall a,
  timers_wf a -> timers_wf (foldl Routes.run_event a tr).
Proof.
  induction tr as [|e tr IH]; intros a Ha; [done|].
  simpl. apply IH. destruct e; simpl; try done.
  by apply start_lobby_timer_wf.
Qed.

(** X25: the countdown tasks stay one per game. At start-up, and after
    every operation that touches [lobby_timers] (restarting a countdown,
    dropping one, and so after every handler over the games,
    [create_game], [start_hand] and [cleanup_game]), the tasks that were
    created and not cancelled are exactly the registered ones, each
    registered for one game only. *)
Theorem countdowns_stay_one_per_game (app : Routes.App) :
  timers_wf app ->
  (forall gid, timers_wf (Routes.start_lobby_timer app gid))
  /\ (forall gid, timers_wf (Routes.drop_lobby_timer app gid))
  /\ (forall (R : Type)
             (handler : gmap string PokerGame ->
                        R * gmap string PokerGame * list Event),
        timers_wf (Routes.on_app handler app).1.2)
  /\ (forall new_game gid req,
        timers_wf
          (Routes.create_game get_game_state new_game app gid req).2)
  /\ (forall gid,
        timers_wf (Routes.start_hand get_game_state play_hand app gid).1.2)
  /\ (forall gid, timers_wf (Routes.cleanup_game app gid)).
Proof.
  intros Hwf.
  split; [intros gid; by apply start_lobby_timer_wf|].
  split; [intros gid; by apply drop_lobby_timer_wf|].
  split; [|split; [|split]].
  - intros R handler. unfold Routes.on_app.
    destruct (handler (Routes.app_games app)) as [[r games'] tr]. simpl.
    apply run_events_wf.
    by apply (timers_wf_same_timers app).
  - intros new_game gid req. unfold Routes.create_game. simpl.
    apply start_lobby_timer_wf.
    by apply (timers_wf_same_timers app).
  - intros gid. unfold Routes.start_hand.
    destruct (Routes.app_games app !! gid) as [game|]; [|done].
    case_bool_decide; simpl; [|done].
    case_bool_decide; simpl.
    + case_decide; [done|]. simpl.
      apply (timers_wf_same_timers (Routes.drop_lobby_timer app gid));
        [done..|]. by apply drop_lobby_timer_wf.
    + by apply (timers_wf_same_timers app).
  - intros gid. unfold Routes.cleanup_game.
    destruct (Routes.app_games app !! gid) as [game|]; [|done].
    apply (timers_wf_same_timers (Routes.drop_lobby_timer app gid));
      [done..|]. by apply drop_lobby_timer_wf.
Qed.

Lemma boot_timers_wf : timers_wf Routes.boot.
Proof.
  unfold timers_wf, Routes.boot. simpl. split; [|split; [|split]].
  - intros gid t. by rewrite lookup_empty.
  - by intros t ?%elem_of_empty.
  - intros t Ht. lia.
  - intros g1 g2 t. by rewrite lookup_empty.
Qed.

End RoutesFacts.

(** ** The handlers and the games they are not asked about *)

Section HandlerFrames.

Import Server.

Context {Key ActionResult Snapshot : Type}
  (eval_hand : list Card -> Z * Key) (new_deck : list Card)
  (execute_action : PokerGame -> Z -> string -> Z -> ActionResult * PokerGame)
  (observe : PokerGame -> option string -> MonteCarlo.State)
  (get_game_state : PokerGame -> option string -> Snapshot)
  (play_hand : PokerGame -> PokerGame).

(** X26: no handler changes a game other than the one it is asked
    about: after [player_action], [join_seat], [leave_seat],
    [add_ai_player] and the lobby countdown for one game id, however they
    end, every other game id maps to what it mapped to before. *)
Theorem handlers_leave_other_games_alone (games : gmap string PokerGame)
    (gid g : string) :
  g <> gid ->
  (forall fuel rngs thinks data outcome games' tr,
     player_action eval_hand new_deck execute_action observe fuel rngs
       thinks games gid data = Some (outcome, games', tr) ->
     games' !! g = games !! g)
  /\ (forall payload,
        (join_seat get_game_state games gid payload).1.2 !! g = games !! g)
  /\ (forall payload,
        (Routes.leave_seat get_game_state games gid payload).1.2 !! g
        = games !! g)
  /\ (forall payload,
        (Routes.add_ai_player get_game_state games gid payload).1.2 !! g
        = games !! g)
  /\ (lobby_countdown play_hand games gid).1 !! g = games !! g.
Proof.
  intros Hne. split; [|split; [|split; [|split]]].
  - intros fuel rngs thinks data outcome games' tr. unfold player_action.
    destruct (games !! gid) as [game|]; [|by intros [= _ <- _]].
    case_bool_decide; [by intros [= _ <- _]|].
    destruct (py_index (players game) _); [|by intros [= _ <- _]].
    destruct (execute_action game _ _ _) as [result g1].
    destruct (py_index (players g1) _).
    + destruct (ai_loop _ _ _ _ _ _ _ _ _ _ _ _ _) as [run|]; [|done].
      simpl. intros [= _ <- _]. by rewrite lookup_insert_ne.
    + intros [= _ <- _]. by rewrite lookup_insert_ne.
  - intros payload. unfold join_seat.
    destruct (games !! gid) as [game|]; [|done].
    case_bool_decide; simpl; [|done].
    destruct ((_ <? 0) || _); [done|].
    destruct (py_index _ _); [|done].
    case_bool_decide; simpl; [|done]. by rewrite lookup_insert_ne.
  - intros payload. unfold Routes.leave_seat.
    destruct (games !! gid) as [game|]; [|done].
    case_bool_decide; simpl; [|done].
    destruct ((_ <? 0) || _); [done|].
    destruct (py_index _ _); [|done].
    case_bool_decide; simpl; [done|]. by rewrite lookup_insert_ne.
  - intros payload. unfold Routes.add_ai_player.
    destruct (games !! gid) as [game|]; [|done].
    case_bool_decide; simpl; [|done].
    destruct (Routes.ai_seat_index payload); [|done].
    destruct ((_ <? 0) || _); [done|].
    destruct (py_index _ _); [|done].
    case_bool_decide; simpl; [|done]. by rewrite lookup_insert_ne.
  - unfold lobby_countdown. destruct (games !! gid) as [game|]; [|done].
    destruct (countdown_loop gid game LOBBY_DURATION) as [g1 tr1].
    unfold check_and_start_game. rewrite lookup_insert_eq.
    case_decide; simpl; by rewrite !lookup_insert_ne.
Qed.

(** X27: when the decision engine returns [None] for the first automated
    turn, the request ends in an uncaught [TypeError] after one delay and
    one executor call, with the lock released; the action that opened the
    request stays applied and broadcast, and nothing is applied for the
    automated player. *)
Theorem undecided_automated_turn_escapes (fuel : nat)
    (rngs : nat -> MonteCarlo.Rng) (thinks : nat -> Q)
    (games : gmap string PokerGame) (gid : string) (data : ActionData)
    (game g1 : PokerGame) (result : ActionResult) (p0 p bot : Player)
    (i : Z) :
  games !! gid = Some game ->
  stage game <> "lobby" ->
  py_index (players game) (player_index data) = Ok p0 ->
  execute_action game (player_index data) (action data) (raise_amount data)
    = (result, g1) ->
  py_index (players g1) (player_index data) = Ok p ->
  game_over g1 = false ->
  current_player_index g1 = Some i ->
  py_index (players g1) i = Ok bot ->
  is_bot bot = true ->
  MonteCarlo.decide eval_hand new_deck
    (MonteCarlo.mkAI (name bot) "medium" 200) (rngs 1%nat) (observe g1 None)
    = Ok None ->
  player_action eval_hand new_deck execute_action observe (S fuel) rngs
    thinks games gid data
  = Some (Uncaught TypeError, <[gid := g1]> games,
          with_lock gid
            [Apply (player_index data) (action data) (raise_amount data);
             Broadcast gid g1; Sleep (thinks 1%nat);
             RunInExecutor (name bot)]).
Proof.
  intros Hg Hs Hp0 Hex Hp Hover Hcur Hbot Hisbot Hnone.
  unfold player_action. rewrite Hg.
  rewrite bool_decide_eq_false_2 by done. rewrite Hp0, Hex, Hp.
  cbn [ai_loop]. unfold loop_test. rewrite Hover, Hcur, Hbot.
  cbn [bind]. rewrite Hisbot.
  change (0 <? max_ai_iterations) with true. cbn [andb].
  change (Z.to_nat (0 + 1)) with 1%nat.
  unfold ai_decision. rewrite Hnone. reflexivity.
Qed.

End HandlerFrames.

(** ** Game creation *)

Section CreationFacts.

Import Server.

Context {Snapshot : Type}
  (get_game_state : PokerGame -> option string -> Snapshot)
  (new_game : list string -> PokerGame).

(** X28: [create_game] never drops a name: the names handed to the game
    are the given ones followed by empty seats up to the seat count, which
    is 6 when none or 0 is given. The game is stored under its id in the
    lobby stage with the timer at 15 and the flag cleared; every player the
    constructor named "Bot" is flagged automated; the id gets a lock and a
    new countdown; and no other id is touched. *)
Theorem create_game_pads_and_registers (app : Routes.App) (gid : string)
    (req : Routes.CreateGameRequest) :
  let names := Routes.initial_names req in
  let given := Routes.player_names req in
  let app' := (Routes.create_game get_game_state new_game app gid req).2 in
  Z.of_nat (length names)
  = Z.max (Z.of_nat (length given)) (Routes.seats_wanted req)
  /\ (exists pad, names = given ++ pad /\ Forall (fun n => n = "") pad)
  /\ ((Routes.seat_count req = None \/ Routes.seat_count req = Some 0) ->
      Routes.seats_wanted req = 6)
  /\ (exists game,
        Routes.app_games app' !! gid = Some game
        /\ stage game = "lobby" /\ lobby_timer game = Some 15
        /\ game_starting game = false
        /\ length (players game) = length (players (new_game names))
        /\ Forall (fun q => name q = "Bot" -> is_bot q = true)
                  (players game))
  /\ gid ∈ Routes.app_locks app'
  /\ Routes.app_timers app' !! gid = Some (Routes.app_tasks app)
  /\ (forall g, g <> gid ->
        Routes.app_games app' !! g = Routes.app_games app !! g
        /\ (g ∈ Routes.app_locks app' <-> g ∈ Routes.app_locks app)
        /\ Routes.app_timers app' !! g = Routes.app_timers app !! g).
Proof.
  intros names given app'. subst names given app'.
  unfold Routes.create_game, Routes.initial_names. simpl.
  split; [|split; [|split; [|split; [|split; [|split]]]]].
  - rewrite length_app, length_replicate. lia.
  - eexists. split; [done|]. apply Forall_replicate_eq || idtac.
    apply Forall_forall. by intros n [-> _]%elem_of_replicate.
  - unfold Routes.seats_wanted. by intros [->| ->].
  - eexists. split; [apply lookup_insert_eq|]. simpl.
    split; [done|]. split; [done|]. split; [done|].
    split; [unfold Routes.flag_bots; by rewrite length_map|].
    unfold Routes.flag_bots. apply Forall_forall.
    intros q (q0 & -> & _)%list_elem_of_fmap.
    case_bool_decide as Hn; simpl; [done|]. by intros ?.
  - apply elem_of_union. left. by apply elem_of_singleton.
  - apply lookup_insert_eq.
  - intros g Hne. rewrite !lookup_insert_ne by done.
    split; [done|]. split; [|done].
    rewrite elem_of_union, elem_of_singleton. tauto.
Qed.

End CreationFacts.

(** ** The streaming channel *)

Section ChannelFacts.

Import Server Registry.

Context {Snapshot : Type}
  (get_game_state : PokerGame -> option string -> Snapshot).

(** One message changes neither the games nor the lists of the registry;
    of the connection objects only the sender's can change. *)
Lemma on_message_frame (env : Globals) (gid : string) (websocket : WebSocket)
    (data : Routes.ClientMessage) :
  let env' := (Routes.on_message get_game_state env gid websocket data).1 in
  games env' = games env
  /\ game_connections (manager env') = game_connections (manager env)
  /\ ws_to_state (manager env') = ws_to_state (manager env)
  /\ connection_counter (manager env') = connection_counter (manager env)
  /\ (forall r, ws_to_state (manager env) !! websocket <> Some r ->
        objects (manager env') !! r = objects (manager env) !! r).
Proof.
  destruct data as [player seat| | |t]; simpl.
  - unfold on_upgrade_to_player, upgrade_connection_to_player.
    destruct (ws_to_state (manager env) !! websocket) as [r0|] eqn:Hws; simpl.
    + destruct (games env !! gid); simpl;
        (repeat (split; [done|]); intros r Hr;
         rewrite lookup_alter_ne; [done | congruence]).
    + repeat (split; [done|]). done.
  - unfold downgrade_connection_to_spectator.
    destruct (ws_to_state (manager env) !! websocket) as [r0|] eqn:Hws; simpl.
    + repeat (split; [done|]). intros r Hr.
      rewrite lookup_alter_ne; [done | congruence].
    + repeat (split; [done|]). done.
  - repeat (split; [done|]). done.
  - repeat (split; [done|]). done.
Qed.

(** X29: whatever a client sends on its channel, the games stay as they
    are, the viewer lists and the table of websockets stay as they are, and
    no connection other than the sender's own changes state. *)
Theorem client_messages_touch_only_the_sender (env : Globals) (gid : string)
    (websocket : WebSocket) (msgs : list Routes.ClientMessage) :
  let env' := Routes.on_messages get_game_state env gid websocket msgs in
  games env' = games env
  /\ game_connections (manager env') = game_connections (manager env)
  /\ ws_to_state (manager env') = ws_to_state (manager env)
  /\ connection_counter (manager env') = connection_counter (manager env)
  /\ (forall r, ws_to_state (manager env) !! websocket <> Some r ->
        objects (manager env') !! r = objects (manager env) !! r).
Proof.
  revert env. induction msgs as [|data msgs IH]; intros env.
  - simpl. repeat (split; [done|]). done.
  - unfold Routes.on_messages. simpl.
    fold (Routes.on_messages get_game_state
            (Routes.on_message get_game_state env gid websocket data).1
            gid websocket msgs).
    destruct (on_message_frame env gid websocket data)
      as (Hg & Hgc & Hws & Hn & Hobj).
    destruct (IH (Routes.on_message get_game_state env gid websocket data).1)
      as (Hg' & Hgc' & Hws' & Hn' & Hobj').
    simpl in *.
    split; [congruence|]. split; [congruence|]. split; [congruence|].
    split; [congruence|]. intros r Hr.
    rewrite Hobj' by (rewrite Hws; exact Hr). by apply Hobj.
Qed.

(** The receive loop changes neither the games nor the lists. *)
Lemma on_messages_lists (env : Globals) (gid : string)
    (websocket : WebSocket) (msgs : list Routes.ClientMessage) :
  let env' := Routes.on_messages get_game_state env gid websocket msgs in
  games env' = games env
  /\ game_connections (manager env') = game_connections (manager env)
  /\ ws_to_state (manager env') = ws_to_state (manager env).
Proof.
  revert env. induction msgs as [|data msgs IH]; intros env; [done|].
  unfold Routes.on_messages. simpl.
  fold (Routes.on_messages get_game_state
          (Routes.on_message get_game_state env gid websocket data).1
          gid websocket msgs).
  destruct (on_message_frame env gid websocket data)
    as (Hg & Hgc & Hws & _).
  destruct (IH (Routes.on_message get_game_state env gid websocket data).1)
    as (Hg' & Hgc' & Hws').
  simpl in *. split; [congruence|]. split; congruence.
Qed.

(** X30: a whole run of the endpoint for a new websocket, whatever the
    client sends in between, leaves the viewer list of every game, the
    table of websockets and the games as they were before it connected. *)
Theorem channel_leaves_no_trace_in_the_lists (env : Globals) (gid : string)
    (websocket : WebSocket) (msgs : list Routes.ClientMessage) :
  registry_wf (manager env) ->
  ws_to_state (manager env) !! websocket = None ->
  let env' := Routes.channel get_game_state env gid websocket msgs in
  games env' = games env
  /\ (forall g, targets (manager env') g = targets (manager env) g)
  /\ ws_to_state (manager env') = ws_to_state (manager env).
Proof.
  intros Hwf Hfresh env'. subst env'. unfold Routes.channel, Routes.on_close.
  destruct (on_messages_lists
              (Routes.on_open get_game_state env gid websocket).1 gid
              websocket msgs) as (Hg & Hgc & Hws).
  simpl in Hg, Hgc, Hws. simpl. split; [exact Hg|].
  unfold disconnect. rewrite Hws, Hgc. rewrite !lookup_insert_eq.
  rewrite bool_decide_eq_true_2 by (apply elem_of_app; right; by left).
  simpl. rewrite insert_insert_eq.
  assert (Hn : S (connection_counter (manager env))
               ∉ default [] (game_connections (manager env) !! gid)).
  { destruct (game_connections (manager env) !! gid) as [conns|] eqn:Hc;
      simpl.
    - intros Hin. destruct (Hwf gid conns Hc) as [_ Hall].
      destruct (Hall _ Hin) as [Hle _]. lia.
    - by intros ?%elem_of_nil. }
  rewrite list_remove_app_last by done.
  split.
  - intros g. unfold targets. simpl. rewrite lookup_insert.
    case_decide; [|done]. by subst g.
  - rewrite delete_insert_eq. by apply delete_id.
Qed.

End ChannelFacts.

(** ** The further properties at concrete inputs *)

(** X2 at a concrete input: pocket kings on a three-card board against
    two opponents, three simulations. *)
Lemma estWin_between_0_and_1_witness :
  exists p,
    MonteCarlo.estWin SpecModel.eval_hand SpecModel.new_deck 3
      (fun _ d => reverse d) ["Ks"; "Kh"] ["2c"; "7d"; "9s"] 2 = Ok p
    /\ (0 <= p <= 1)%Q.
Proof.
  eexists. split; [vm_compute; reflexivity|].
  apply (estWin_between_0_and_1 SpecModel.eval_hand SpecModel.new_deck 3
           (fun _ d => reverse d) ["Ks"; "Kh"] ["2c"; "7d"; "9s"] 2).
  vm_compute. reflexivity.
Defined.

(** X3 at a concrete input: ace and king of hearts before the flop with
    no opponent, three simulations. *)
Lemma estWin_alone_is_certain_witness :
  exists p,
    MonteCarlo.estWin SpecModel.eval_hand SpecModel.new_deck 3
      (fun _ d => reverse d) ["Ah"; "Kh"] [] 0 = Ok p
    /\ (p == 1)%Q.
Proof.
  apply (estWin_alone_is_certain SpecModel.eval_hand SpecModel.new_deck 3
           (fun _ d => reverse d) ["Ah"; "Kh"] [] 0 (cards ["Ah"; "Kh"]) []).
  - discriminate.
  - lia.
  - lia.
  - reflexivity.
  - reflexivity.
  - intros i. apply length_reverse.
  - vm_compute. lia.
Defined.

(** The 52 cards of the modelled deck are pairwise distinct. *)
Lemma sample_deck_NoDup : NoDup SpecModel.new_deck.
Proof. apply (bool_decide_unpack _). vm_compute. exact I. Qed.

(** X4 at a concrete input: pocket kings on a three-card board against
    one opponent, the reduced deck reversed. *)
Lemma trial_never_reuses_a_card_witness :
  let h := cards ["Ks"; "Kh"] in
  let c := cards ["2c"; "7d"; "9s"] in
  let deck := filter (fun x => x ∉ h ++ c) SpecModel.new_deck in
  exists board opps drawn,
    MonteCarlo.sim_deal c 1 (reverse deck) = Ok (board, opps)
    /\ board = c ++ drawn
    /\ NoDup (drawn ++ concat opps)
    /\ Forall (fun x => (x ∉ h ++ c) /\ x ∈ SpecModel.new_deck)
         (drawn ++ concat opps).
Proof.
  intros h c deck.
  destruct (MonteCarlo.sim_deal c 1 (reverse deck)) as [[board opps]|e] eqn:Hd;
    [|vm_compute in Hd; discriminate].
  destruct (trial_never_reuses_a_card SpecModel.new_deck h c (reverse deck) 1
              board opps sample_deck_NoDup (reverse_Permutation _) Hd)
    as (drawn & H1 & H2 & H3).
  exists board, opps, drawn. done.
Defined.

(** X5 at a concrete input: the actor alone at the table, calling legal
    and raising not. *)
Lemma decide_returns_legal_raise_and_call_witness :
  let state :=
    MonteCarlo.mkState ["fold"; "call"]
      [MonteCarlo.mkPlayerView "Bot" ["Ah"; "Kh"]] [] 100 10 in
  exists d,
    MonteCarlo.decide SpecModel.eval_hand SpecModel.new_deck
      (MonteCarlo.mkAI "Bot" "medium" 200)
      (MonteCarlo.mkRng (fun _ d => d) 0 0) state = Ok (Some d)
    /\ MonteCarlo.move d = "call"
    /\ "call" ∈ MonteCarlo.legal_actions state.
Proof.
  intros state. exists (MonteCarlo.mkDecision "call" 0).
  assert (Hd : MonteCarlo.decide SpecModel.eval_hand SpecModel.new_deck
                 (MonteCarlo.mkAI "Bot" "medium" 200)
                 (MonteCarlo.mkRng (fun _ d => d) 0 0) state
               = Ok (Some (MonteCarlo.mkDecision "call" 0)))
    by (vm_compute; reflexivity).
  split; [exact Hd|].
  destruct (decide_returns_legal_raise_and_call _ _ _ _ _ _ Hd)
    as [(H & _)|[(H & Hin & _)|[(H & _)|(H & _)]]];
    try discriminate H.
  split; [exact H | exact Hin].
Defined.

(** X7 at a concrete input: ace and king with no rank from the
    evaluation, neither raising nor calling legal: the fallback picks a
    legal action. *)
Lemma heuristic_decision_is_legal_or_fold_witness :
  let state := SampleMore.observe_alone Sample.table None in
  let d := MonteCarlo.mkDecision "check" 0 in
  Heuristic.decide SampleMore.no_rank (Heuristic.mkAI "Bot" "medium")
    (Heuristic.mkRng 0 (1 # 2) 0) state = Ok d
  /\ (MonteCarlo.move d ∈ MonteCarlo.legal_actions state
      \/ MonteCarlo.move d = "fold"
      \/ (MonteCarlo.legal_actions state = [] /\ MonteCarlo.move d = "check"))
  /\ MonteCarlo.raise_amount d ∈ [0; 20; 30; 40; 50; 100; 200]
  /\ (MonteCarlo.raise_amount d <> 0 -> MonteCarlo.move d = "raise").
Proof.
  intros state d.
  assert (Hd : Heuristic.decide SampleMore.no_rank
                 (Heuristic.mkAI "Bot" "medium")
                 (Heuristic.mkRng 0 (1 # 2) 0) state = Ok d)
    by (vm_compute; reflexivity).
  split; [exact Hd|].
  exact (heuristic_decision_is_legal_or_fold SampleMore.no_rank _ _ _ _ Hd).
Defined.

(** X8 at a concrete input: an actor without hole cards that could
    raise. *)
Lemma heuristic_without_cards_never_raises_witness :
  exists d,
    Heuristic.decide SampleMore.no_rank (Heuristic.mkAI "Bot" "medium")
      (Heuristic.mkRng 0 (1 # 2) 0)
      (MonteCarlo.mkState ["raise"; "check"; "fold"]
         [MonteCarlo.mkPlayerView "Bot" []] [] 100 0) = Ok d
    /\ MonteCarlo.move d ∈ ["call"; "check"; "fold"]
    /\ MonteCarlo.raise_amount d = 0.
Proof.
  apply (heuristic_without_cards_never_raises SampleMore.no_rank).
  intros bot Hbot. vm_compute in Hbot. injection Hbot as <-.
  split; [reflexivity | exact I].
Defined.

(** X9 at a concrete input: ace and king, sum 27. *)
Lemma heuristic_preflop_bands_witness :
  let hand := ["Ah"; "Kh"] in
  let rank := Heuristic.hand_rank SampleMore.no_rank hand [] in
  (Qle_bool (8 # 10) (Heuristic.normalized rank) = true
   <-> 12 * Z.of_nat (length hand) <= hole_card_sum hand)
  /\ (Qle_bool (4 # 10) (Heuristic.normalized rank) = false
      <-> hole_card_sum hand < 6 * Z.of_nat (length hand)).
Proof.
  apply (heuristic_preflop_bands SampleMore.no_rank ["Ah"; "Kh"] []).
  - discriminate.
  - exact I.
Defined.

(** X10 at a concrete input: a third viewer joins the sample table. *)
Lemma new_viewer_is_sent_the_spectator_snapshot_witness :
  let m1 := (Registry.connect Sample.manager "table1" 9%nat).2 in
  targets m1 "table1" = targets Sample.manager "table1" ++ [3%nat]
  /\ (3%nat, Registry.StateUpdate (Sample.get_game_state Sample.table None))
     ∈ (Registry.broadcast SampleMore.snapshot Sample.send_json m1 "table1"
          (Registry.GameObject Sample.table)).2.
Proof.
  apply (new_viewer_is_sent_the_spectator_snapshot SampleMore.snapshot
           Sample.send_json Sample.manager "table1" 9%nat Sample.table
           (Sample.get_game_state Sample.table None)); reflexivity.
Defined.

(** X11 at a concrete input: the second viewer of the sample table
    upgrades under a name nobody sits under. *)
Lemma upgraded_viewer_is_sent_the_snapshot_of_its_name_witness :
  let m1 :=
    (Registry.upgrade_connection_to_player Sample.manager 8%nat
       "Mallory" 99).2 in
  (2%nat,
   Registry.StateUpdate (Sample.get_game_state Sample.table (Some "Mallory")))
  ∈ (Registry.broadcast SampleMore.snapshot Sample.send_json m1 "table1"
       (Registry.GameObject Sample.table)).2.
Proof.
  apply (upgraded_viewer_is_sent_the_snapshot_of_its_name
           SampleMore.snapshot Sample.send_json Sample.manager "table1"
           8%nat "Mallory" 99 2%nat
           (Registry.mkConnectionState 8%nat 2%nat "spectator" None
              (Some "table1") None)
           Sample.table
           (Sample.get_game_state Sample.table (Some "Mallory")));
    try reflexivity.
  apply (bool_decide_unpack _). vm_compute. exact I.
Defined.

(** The sample registry with three viewers is well formed. *)
Lemma sample_viewers_wf : registry_wf SampleMore.manager.
Proof. apply connect_wf; [apply sample_manager_wf | reflexivity]. Qed.

(** X12 at a concrete input: a broadcast to the sample table, the first
    socket broken. *)
Lemma broadcast_keeps_exactly_the_delivered_witness :
  targets
    (Registry.broadcast SampleMore.snapshot Sample.send_json
       SampleMore.manager "table1" (Registry.GameObject Sample.table)).1
    "table1"
  = (Registry.broadcast SampleMore.snapshot Sample.send_json
       SampleMore.manager "table1" (Registry.GameObject Sample.table)).2.*1.
Proof.
  apply (broadcast_keeps_exactly_the_delivered SampleMore.snapshot
           Sample.send_json SampleMore.manager "table1"
           (Registry.GameObject Sample.table) sample_viewers_wf).
Defined.

(** X13 at a concrete input: the viewer of the sample lobby is untouched
    by a broadcast to the sample table that drops a viewer. *)
Lemma broadcast_leaves_other_games_alone_witness :
  let m' :=
    (Registry.broadcast SampleMore.snapshot Sample.send_json
       SampleMore.manager "table1" (Registry.GameObject Sample.table)).1 in
  targets m' "lobby1" = [3%nat]
  /\ Registry.ws_to_state m' !! 9%nat = Some 3%nat.
Proof.
  intros m'.
  destruct (broadcast_leaves_other_games_alone SampleMore.snapshot
              Sample.send_json SampleMore.manager "table1" "lobby1"
              (Registry.GameObject Sample.table) sample_viewers_wf)
    as [Ht Hobj]; [discriminate|].
  split; [exact Ht|].
  refine (proj2 (Hobj 3%nat
                   (Registry.mkConnectionState 9%nat 3%nat "spectator" None
                      (Some "lobby1") None) _ _)).
  - apply (bool_decide_unpack _). vm_compute. exact I.
  - reflexivity.
Defined.

(** X14 at a concrete input: a broadcast to the sample table with every
    socket working. *)
Lemma broadcast_without_failure_changes_nothing_witness :
  (Registry.broadcast SampleMore.snapshot SampleMore.all_sent
     Sample.manager "table1" (Registry.GameObject Sample.table)).1
  = Sample.manager
  /\ (Registry.broadcast SampleMore.snapshot SampleMore.all_sent
        Sample.manager "table1" (Registry.GameObject Sample.table)).2.*1
     = targets Sample.manager "table1".
Proof.
  apply (broadcast_without_failure_changes_nothing SampleMore.snapshot
           SampleMore.all_sent Sample.manager "table1"
           (Registry.GameObject Sample.table)).
  intros r Hr.
  assert (Ht : targets Sample.manager "table1" = [1%nat; 2%nat])
    by reflexivity.
  rewrite Ht in Hr.
  apply elem_of_cons in Hr as [->|Hr];
    [eexists; reflexivity|].
  apply elem_of_cons in Hr as [->|Hr];
    [eexists; reflexivity|].
  by apply elem_of_nil in Hr.
Defined.

(** X15 at a concrete input: a third viewer of the sample table comes
    and goes. *)
Lemma connect_then_disconnect_restores_the_lists_witness :
  let m' :=
    Registry.disconnect (Registry.connect Sample.manager "table1" 9%nat).2
      "table1" 9%nat in
  (forall g, targets m' g = targets Sample.manager g)
  /\ Registry.ws_to_state m' = Registry.ws_to_state Sample.manager
  /\ Registry.connection_counter m'
     = S (Registry.connection_counter Sample.manager).
Proof.
  apply (connect_then_disconnect_restores_the_lists Sample.manager "table1"
           9%nat sample_manager_wf).
  reflexivity.
Defined.

(** X16 at a concrete input: the second viewer of the sample table sends
    an upgrade for seat 99 without a name; the upgrade succeeds and the
    viewer is no player. *)
Lemma upgraded_viewer_sees_exactly_its_seat_witness :
  (Registry.Untyped.upgrade_connection_to_player Sample.manager 8%nat None
     (Some 99)).1 = true
  /\ exists c',
       Registry.get_connection_state
         (Registry.Untyped.upgrade_connection_to_player Sample.manager 8%nat
            None (Some 99)).2 8%nat = Some c'
       /\ Registry.is_player c' = false
       /\ Registry.can_see_private_cards c' 99 = false.
Proof.
  destruct (upgraded_viewer_sees_exactly_its_seat Sample.manager 8%nat None
              (Some 99) 2%nat
              (Registry.mkConnectionState 8%nat 2%nat "spectator" None
                 (Some "table1") None) eq_refl eq_refl)
    as (Hok & c' & Hc & Hp & Hsee).
  split; [exact Hok|]. exists c'. split; [exact Hc|]. split.
  - destruct (Registry.is_player c'); [|reflexivity].
    by destruct (proj1 Hp eq_refl).
  - destruct (Registry.can_see_private_cards c' 99) eqn:Hs; [|reflexivity].
    by destruct (proj1 (proj1 (Hsee 99) Hs)).
Defined.

(** X17 at a concrete input: the second viewer upgrades and downgrades
    again. *)
Lemma upgrade_then_downgrade_restores_a_spectator_witness :
  (Registry.downgrade_connection_to_spectator
     (Registry.upgrade_connection_to_player Sample.manager 8%nat
        "Mallory" 99).2 8%nat).2
  = Sample.manager.
Proof.
  apply (upgrade_then_downgrade_restores_a_spectator Sample.manager 8%nat
           "Mallory" 99 2%nat
           (Registry.mkConnectionState 8%nat 2%nat "spectator" None
              (Some "table1") None)); reflexivity.
Defined.


(** X19 at a concrete input: Bob joins the free seat of the sample
    lobby. *)
Lemma join_seat_occupies_one_seat_witness :
  exists game game',
    Sample.games !! "lobby1" = Some game
    /\ (Server.join_seat Sample.get_game_state Sample.games "lobby1"
          (Server.mkJoinSeatRequest "Bob" 1)).1.2 !! "lobby1" = Some game'
    /\ Server.active_players game' = (Server.active_players game + 1)%nat.
Proof.
  destruct (Server.join_seat Sample.get_game_state Sample.games "lobby1"
              (Server.mkJoinSeatRequest "Bob" 1)) as [[o games'] tr] eqn:Hj.
  destruct o as [s|code msg|e]; try (vm_compute in Hj; discriminate).
  exact (join_seat_occupies_one_seat Sample.get_game_state Sample.games
           games' "lobby1" (Server.mkJoinSeatRequest "Bob" 1) s tr Hj).
Defined.

(** X20 at a concrete input: Bob joins the free seat of the sample lobby
    and leaves it again. *)
Lemma join_then_leave_frees_the_seat_witness :
  exists game2,
    Routes.leave_seat Sample.get_game_state
      (Server.join_seat Sample.get_game_state Sample.games "lobby1"
         (Server.mkJoinSeatRequest "Bob" 1)).1.2
      "lobby1" (Routes.mkLeaveSeatRequest 1)
    = (Server.Returned (Sample.get_game_state game2 None),
       <["lobby1" := game2]> Sample.games,
       Server.with_lock "lobby1"
         [Server.StartLobbyTimer "lobby1"; Server.Broadcast "lobby1" game2])
    /\ Server.active_players game2 = Server.active_players Sample.lobby.
Proof.
  destruct (Server.join_seat Sample.get_game_state Sample.games "lobby1"
              (Server.mkJoinSeatRequest "Bob" 1)) as [[o games1] tr] eqn:Hj.
  destruct o as [s|code msg|e]; try (vm_compute in Hj; discriminate).
  destruct (join_then_leave_frees_the_seat Sample.get_game_state Sample.games
              games1 "lobby1" (Server.mkJoinSeatRequest "Bob" 1) s tr Hj)
    as (game & existing & game2 & Hg & _ & Hleave & _ & Hn);
    [discriminate|].
  exists game2. split; [exact Hleave|].
  rewrite Hn. f_equal.
  assert (Hl : Sample.games !! "lobby1" = Some Sample.lobby) by reflexivity.
  congruence.
Defined.


(** X22 at a concrete input: the created game has two seats taken and
    its hand is started by hand; countdown 0 is cancelled. *)
Lemma start_hand_starts_as_the_countdown_does_witness :
  exists s app',
    Routes.start_hand Sample.get_game_state Sample.play_hand SampleMore.app
      "table1"
    = (Server.Returned s, app',
       Server.with_lock "table1"
         [Server.Broadcast "table1"
            (Sample.play_hand
               (Server.set_lobby SampleMore.created "preflop" None false))])
    /\ Routes.app_timers app' = delete "table1" (Routes.app_timers SampleMore.app)
    /\ (0%nat ∈ Routes.app_cancelled app').
Proof.
  destruct (start_hand_starts_as_the_countdown_does Sample.get_game_state
              Sample.play_hand SampleMore.app "table1" SampleMore.created)
    as (_ & Hstart & _).
  - reflexivity.
  - apply (bool_decide_unpack _). vm_compute. exact I.
  - destruct Hstart as (s & app' & Hres & _ & _ & Ht & Hc).
    + reflexivity.
    + vm_compute. lia.
    + exists s, app'. split; [exact Hres|]. split; [exact Ht|].
      apply Hc. reflexivity.
Defined.

(** X25 at a concrete input: the first game created after start-up, and
    a clean-up at start-up. *)
Lemma countdowns_stay_one_per_game_witness :
  timers_wf
    (Routes.create_game Sample.get_game_state SampleMore.new_game Routes.boot
       "table1" (Routes.mkCreateGameRequest ["Ann"; "Bot"] (Some 3))).2
  /\ timers_wf (Routes.cleanup_game Routes.boot "table1").
Proof.
  destruct (countdowns_stay_one_per_game Sample.get_game_state
              Sample.play_hand Routes.boot boot_timers_wf)
    as (_ & _ & _ & Hcreate & _ & Hclean).
  split; [apply Hcreate | apply Hclean].
Defined.

(** X26 at a concrete input: requests for the sample lobby leave the
    sample table alone. *)
Lemma handlers_leave_other_games_alone_witness :
  (Server.join_seat Sample.get_game_state Sample.games "lobby1"
     (Server.mkJoinSeatRequest "Bob" 1)).1.2 !! "table1"
  = Sample.games !! "table1"
  /\ (Server.lobby_countdown Sample.play_hand Sample.games "lobby1").1
       !! "table1"
     = Sample.games !! "table1".
Proof.
  destruct (handlers_leave_other_games_alone SpecModel.eval_hand
              SpecModel.new_deck Sample.execute_action Sample.get_game_state
              Sample.get_game_state Sample.play_hand Sample.games "lobby1"
              "table1")
    as (_ & Hjoin & _ & _ & Hcount); [discriminate|].
  split; [apply Hjoin | exact Hcount].
Defined.

(** X27 at a concrete input: the automated player of the sample table
    sits alone in its snapshot with ace and king and may only check or
    fold. *)
Lemma undecided_automated_turn_escapes_witness :
  Server.player_action SpecModel.eval_hand SpecModel.new_deck
    Sample.execute_action SampleMore.observe_alone 1 Sample.rngs
    Sample.thinks Sample.games "table1" (Server.mkActionData 0 "check" 0)
  = Some (Server.Uncaught TypeError, <["table1" := Sample.table]> Sample.games,
          Server.with_lock "table1"
            [Server.Apply 0 "check" 0; Server.Broadcast "table1" Sample.table;
             Server.Sleep (Sample.thinks 1%nat); Server.RunInExecutor "Bot"]).
Proof.
  apply (undecided_automated_turn_escapes SpecModel.eval_hand
           SpecModel.new_deck Sample.execute_action SampleMore.observe_alone
           0 Sample.rngs Sample.thinks Sample.games "table1"
           (Server.mkActionData 0 "check" 0) Sample.table Sample.table tt
           (Server.mkPlayer "Ann" 1000 (cards ["Ah"; "Kh"]) false 0 false)
           (Server.mkPlayer "Ann" 1000 (cards ["Ah"; "Kh"]) false 0 false)
           (Server.mkPlayer "Bot" 1000 (cards ["2c"; "7d"]) false 0 true)
           1); try reflexivity.
  discriminate.
Defined.

(** X30 at a concrete input: a third viewer of the sample table
    upgrades, pings, downgrades and leaves. *)
Lemma channel_leaves_no_trace_in_the_lists_witness :
  let env := Server.mkGlobals Sample.games Sample.manager in
  let env' :=
    Routes.channel Sample.get_game_state env "table1" 9%nat
      [Routes.upgrade_to_player "Mallory" 99; Routes.ping;
       Routes.downgrade_to_spectator] in
  Server.games env' = Sample.games
  /\ (forall g, targets (Server.manager env') g = targets Sample.manager g)
  /\ Registry.ws_to_state (Server.manager env')
     = Registry.ws_to_state Sample.manager.
Proof.
  apply (channel_leaves_no_trace_in_the_lists Sample.get_game_state
           (Server.mkGlobals Sample.games Sample.manager) "table1" 9%nat
           [Routes.upgrade_to_player "Mallory" 99; Routes.ping;
            Routes.downgrade_to_spectator] sample_manager_wf).
  reflexivity.
Defined.
